(** * tune-in: vote ledger, score trigger and feed ranking

    A shallow embedding of

    - the database migration [supabase/migrations/20260220034650_*.sql]
      (tables, the two security-definer helpers, the row-level-security
      policies and the trigger [update_post_score]), and
    - the club feed component [MainApp] ([handleVote], [handleCreatePost]
      and the memoised [filteredPosts]), and
    - the onboarding component [Onboarding] (the username check, the hobby
      selection, the steps and [handleFinish]),

    followed by the properties the specification states about them and by
    further properties read off the code. *)

From Stdlib Require Import ZArith NArith List Bool String Ascii Lia.
From Stdlib Require Import Permutation Sorted.
Import ListNotations.

Open Scope Z_scope.

(** ** Values *)

(** A [UUID] column: 128 bits, compared for equality only. *)
Definition uuid : Type := N.

Definition uuid_eqb (a b : uuid) : bool := N.eqb a b.

(** Postgres [INTEGER] is a signed 32-bit type whose arithmetic raises
    [integer out of range] instead of wrapping. *)
Definition int4_min : Z := -2147483648.
Definition int4_max : Z := 2147483647.

Definition in_int4 (z : Z) : bool := (int4_min <=? z) && (z <=? int4_max).

(** ** Statement results *)

(** The SQLSTATE classes a statement of this schema can raise, with the name
    of the table or constraint concerned. *)
Inductive sql_error : Type :=
| row_security_violation (tbl : string)   (* 42501 *)
| check_violation (constr : string)       (* 23514 *)
| unique_violation (constr : string)      (* 23505 *)
| foreign_key_violation (constr : string) (* 23503 *)
| numeric_value_out_of_range.             (* 22003 *)

Inductive result (A : Type) : Type :=
| Ok (a : A)
| Err (e : sql_error).

Arguments Ok {A} a.
Arguments Err {A} e.

Definition bind {A B : Type} (c : result A) (k : A -> result B) : result B :=
  match c with
  | Ok a => k a
  | Err e => Err e
  end.

Notation "x <- c ;; k" := (bind c (fun x => k))
  (at level 61, c at next level, right associativity).

(** [require b e] lets the statement go on when [b] holds and raises [e]
    otherwise. *)
Definition require (b : bool) (e : sql_error) : result unit :=
  if b then Ok tt else Err e.

Definition int4pl (a b : Z) : result Z :=
  if in_int4 (a + b) then Ok (a + b) else Err numeric_value_out_of_range.

Definition int4mi (a b : Z) : result Z :=
  if in_int4 (a - b) then Ok (a - b) else Err numeric_value_out_of_range.

(** ** Tables *)

Module Clubs.
Record row : Type := mk
  { id : uuid;
    name : string;
    slug : string;
    description : option string;
    icon : option string }.
End Clubs.

Module ClubMemberships.
Record row : Type := mk
  { user_id : uuid;
    club_id : uuid }.
End ClubMemberships.

(** [created_at] is kept as the instant in milliseconds since the epoch, the
    number [new Date(p.created_at).getTime()] reads from the column. *)
Module Posts.
Record row : Type := mk
  { id : uuid;
    club_id : uuid;
    user_id : uuid;
    title : string;
    content : option string;
    score : Z;
    created_at : Z }.

Definition with_score (p : row) (s : Z) : row :=
  {| id := id p; club_id := club_id p; user_id := user_id p;
     title := title p; content := content p;
     score := s; created_at := created_at p |}.

Definition with_created_at (p : row) (t : Z) : row :=
  {| id := id p; club_id := club_id p; user_id := user_id p;
     title := title p; content := content p;
     score := score p; created_at := t |}.
End Posts.

Module PostVotes.
Record row : Type := mk
  { post_id : uuid;
    user_id : uuid;
    vote_value : Z }.
End PostVotes.

Record db : Type := mkdb
  { clubs : list Clubs.row;
    club_memberships : list ClubMemberships.row;
    posts : list Posts.row;
    post_votes : list PostVotes.row }.

(** ** Security-definer helpers *)

Definition is_club_member (d : db) (_user_id _club_id : uuid) : bool :=
  existsb (fun m => uuid_eqb (ClubMemberships.user_id m) _user_id
                    && uuid_eqb (ClubMemberships.club_id m) _club_id)
          (club_memberships d).

Definition has_voted_on_post (d : db) (_user_id _post_id : uuid) : bool :=
  existsb (fun v => uuid_eqb (PostVotes.user_id v) _user_id
                    && uuid_eqb (PostVotes.post_id v) _post_id)
          (post_votes d).

(** ** Row-level-security policies

    [auth] is [auth.uid()]: the caller's id, or [None] (SQL NULL) for a
    request without a session; a comparison with NULL never passes. *)

Definition members_can_create_posts (d : db) (auth : option uuid)
    (NEW : Posts.row) : bool :=
  match auth with
  | Some uid => uuid_eqb uid (Posts.user_id NEW)
                && is_club_member d uid (Posts.club_id NEW)
  | None => false
  end.

Definition members_can_vote (d : db) (auth : option uuid)
    (NEW : PostVotes.row) : bool :=
  match auth with
  | Some uid => uuid_eqb uid (PostVotes.user_id NEW)
                && negb (has_voted_on_post d uid (PostVotes.post_id NEW))
  | None => false
  end.

Definition users_can_remove_own_vote (auth : option uuid)
    (OLD : PostVotes.row) : bool :=
  match auth with
  | Some uid => uuid_eqb uid (PostVotes.user_id OLD)
  | None => false
  end.

(** ** The score trigger *)

(** [UPDATE posts SET score = e WHERE id = _id]: every row with that id gets
    the new score; one failing row fails the statement. *)
Fixpoint update_posts_set_score (e : Z -> result Z) (_id : uuid)
    (rows : list Posts.row) : result (list Posts.row) :=
  match rows with
  | [] => Ok []
  | p :: rest =>
      p' <- (if uuid_eqb (Posts.id p) _id
             then s <- e (Posts.score p) ;; Ok (Posts.with_score p s)
             else Ok p) ;;
      rest' <- update_posts_set_score e _id rest ;;
      Ok (p' :: rest')
  end.

Inductive tg_op : Type := INSERT | DELETE.

(** [update_post_score()], fired [AFTER INSERT OR DELETE ... FOR EACH ROW];
    [r] is [NEW] on insert and [OLD] on delete. *)
Definition update_post_score (TG_OP : tg_op) (r : PostVotes.row)
    (rows : list Posts.row) : result (list Posts.row) :=
  match TG_OP with
  | INSERT =>
      update_posts_set_score (fun score => int4pl score (PostVotes.vote_value r))
                             (PostVotes.post_id r) rows
  | DELETE =>
      update_posts_set_score (fun score => int4mi score (PostVotes.vote_value r))
                             (PostVotes.post_id r) rows
  end.

(** The row trigger run once per affected row of a statement. *)
Fixpoint on_vote_change (TG_OP : tg_op) (affected : list PostVotes.row)
    (rows : list Posts.row) : result (list Posts.row) :=
  match affected with
  | [] => Ok rows
  | r :: rest =>
      rows' <- update_post_score TG_OP r rows ;;
      on_vote_change TG_OP rest rows'
  end.

(** ** Statements *)

Definition vote_value_check (NEW : PostVotes.row) : bool :=
  Z.eqb (PostVotes.vote_value NEW) 1 || Z.eqb (PostVotes.vote_value NEW) (-1).

Definition post_votes_user_post_unique (d : db) (NEW : PostVotes.row) : bool :=
  negb (existsb (fun v => uuid_eqb (PostVotes.user_id v) (PostVotes.user_id NEW)
                          && uuid_eqb (PostVotes.post_id v) (PostVotes.post_id NEW))
                (post_votes d)).

Definition post_exists (d : db) (_id : uuid) : bool :=
  existsb (fun p => uuid_eqb (Posts.id p) _id) (posts d).

Definition club_exists (d : db) (_id : uuid) : bool :=
  existsb (fun c => uuid_eqb (Clubs.id c) _id) (clubs d).

(** [INSERT INTO post_votes] by the caller [auth]: the insert policy, the
    column check, the unique and foreign keys, then the trigger.  Any error
    aborts the transaction and leaves the database as it was. *)
Definition insert_post_vote (auth : option uuid) (NEW : PostVotes.row)
    (d : db) : result db :=
  _ <- require (members_can_vote d auth NEW)
               (row_security_violation "post_votes") ;;
  _ <- require (vote_value_check NEW)
               (check_violation "post_votes_vote_value_check") ;;
  _ <- require (post_votes_user_post_unique d NEW)
               (unique_violation "post_votes_user_id_post_id_key") ;;
  _ <- require (post_exists d (PostVotes.post_id NEW))
               (foreign_key_violation "post_votes_post_id_fkey") ;;
  rows <- on_vote_change INSERT [NEW] (posts d) ;;
  Ok {| clubs := clubs d;
        club_memberships := club_memberships d;
        posts := rows;
        post_votes := post_votes d ++ [NEW] |}.

(** [DELETE FROM post_votes WHERE where_] by the caller [auth]: the rows the
    delete policy shows and the filter selects go; the trigger runs for each. *)
Definition delete_post_votes (auth : option uuid)
    (where_ : PostVotes.row -> bool) (d : db) : result db :=
  let hit := fun v => users_can_remove_own_vote auth v && where_ v in
  rows <- on_vote_change DELETE (filter hit (post_votes d)) (posts d) ;;
  Ok {| clubs := clubs d;
        club_memberships := club_memberships d;
        posts := rows;
        post_votes := filter (fun v => negb (hit v)) (post_votes d) |}.

(** [INSERT INTO posts] by the caller [auth] of a row of the table's type,
    its [score] an [INTEGER]. *)
Definition insert_post (auth : option uuid) (NEW : Posts.row)
    (d : db) : result db :=
  _ <- require (members_can_create_posts d auth NEW)
               (row_security_violation "posts") ;;
  _ <- require (negb (post_exists d (Posts.id NEW)))
               (unique_violation "posts_pkey") ;;
  _ <- require (club_exists d (Posts.club_id NEW))
               (foreign_key_violation "posts_club_id_fkey") ;;
  Ok {| clubs := clubs d;
        club_memberships := club_memberships d;
        posts := posts d ++ [NEW];
        post_votes := post_votes d |}.

(** ** Vote transactions *)

(** The filter [.eq("user_id", u).eq("post_id", p)] of a delete call. *)
Definition eq_user_id_eq_post_id (u p : uuid) (v : PostVotes.row) : bool :=
  uuid_eqb (PostVotes.user_id v) u && uuid_eqb (PostVotes.post_id v) p.

Inductive vote_txn : Type :=
| InsertVote (auth : option uuid) (NEW : PostVotes.row)
| DeleteVotes (auth : option uuid) (where_ : PostVotes.row -> bool).

Definition run_txn (t : vote_txn) (d : db) : result db :=
  match t with
  | InsertVote auth NEW => insert_post_vote auth NEW d
  | DeleteVotes auth where_ => delete_post_votes auth where_ d
  end.

(** A transaction that raises is rolled back: only committed ones change
    the database. *)
Definition commit (d : db) (t : vote_txn) : db :=
  match run_txn t d with
  | Ok d' => d'
  | Err _ => d
  end.

Definition commit_all (d : db) (ts : list vote_txn) : db :=
  fold_left commit ts d.

(** The sum of the [vote_value]s of the votes cast on post [_id]. *)
Definition vote_sum (_id : uuid) (votes : list PostVotes.row) : Z :=
  fold_right (fun v acc =>
                if uuid_eqb (PostVotes.post_id v) _id
                then PostVotes.vote_value v + acc else acc)
             0 votes.

Definition score_invariant (d : db) : Prop :=
  forall p, In p (posts d) ->
            Posts.score p = vote_sum (Posts.id p) (post_votes d).

(** ** JavaScript values used by the feed component *)

(** [String.prototype.toLowerCase].  Text is modelled as strings of 8-bit
    characters, read as the code units U+0000 to U+00FF.  Among these the
    characters with a lower-case form of their own are A to Z and the
    accented capitals U+00C0 to U+00DE, the multiplication sign U+00D7
    left out; the lower-case form is 32 further on.  Every other character
    is left as it is. *)
Definition toLowerCase_char (c : ascii) : ascii :=
  let n := N_of_ascii c in
  if (65 <=? n)%N && (n <=? 90)%N
     || (192 <=? n)%N && (n <=? 222)%N && negb (n =? 215)%N
  then ascii_of_N (n + 32) else c.

Fixpoint toLowerCase (s : string) : string :=
  match s with
  | EmptyString => EmptyString
  | String c rest => String (toLowerCase_char c) (toLowerCase rest)
  end.

(** [s.includes(q)]: [q] starts at some position of [s]. *)
Fixpoint includes (s q : string) : bool :=
  prefix q s
  || match s with
     | EmptyString => false
     | String _ rest => includes rest q
     end.

(** [Array.prototype.sort(comparefn)].  The sort is stable and both
    comparators of the component are consistent orderings, so the result is
    determined; inserting from the right end computes it: an element goes in
    front of the first one it does not have to follow. *)
Fixpoint js_insert {A : Type} (comparefn : A -> A -> Z) (x : A)
    (sorted : list A) : list A :=
  match sorted with
  | [] => [x]
  | y :: rest =>
      if comparefn x y <=? 0 then x :: y :: rest
      else y :: js_insert comparefn x rest
  end.

Definition js_sort {A : Type} (comparefn : A -> A -> Z) (l : list A) : list A :=
  fold_right (js_insert comparefn) [] l.

(** A JavaScript number that is either a finite count of milliseconds or
    [Infinity]. *)
Inductive window_ms : Type :=
| Finite (ms : Z)
| Infinity.

(** ** The feed component *)

Module MainApp.

Definition Post : Type := Posts.row.

Record Vote : Type := mkVote
  { post_id : uuid;
    vote_value : Z }.

(** The part of the component state the vote handler and the feed use. *)
Record state : Type := mkState
  { posts : list Post;
    votes : list Vote }.

(** The calls made on [supabase.from("post_votes")]. *)
Inductive request : Type :=
| delete_eq_user_id_eq_post_id (user_id postId : uuid)
| insert (user_id postId : uuid) (value : Z).

(** What a call runs on the database, under the session of [user]. *)
Definition statement (user : uuid) (r : request) : vote_txn :=
  match r with
  | delete_eq_user_id_eq_post_id u p =>
      DeleteVotes (Some user) (eq_user_id_eq_post_id u p)
  | insert u p value =>
      InsertVote (Some user) (PostVotes.mk p u value)
  end.

Definition setVotes (f : list Vote -> list Vote) (s : state) : state :=
  {| posts := posts s; votes := f (votes s) |}.

Definition setPosts (f : list Post -> list Post) (s : state) : state :=
  {| posts := f (posts s); votes := votes s |}.

(** [handleVote(postId, value)] for the signed-in [user].  The handler reads
    [votes] as the render it was made in has it, here [seen].  Each call it
    sends is awaited, and the functional updates written after the call run
    when the call has returned, on the state the component has by then.  So
    the handler is given as its calls in order, each with the update that
    follows it.  The handler does not look at the outcome of a call. *)
Definition handleVote (user : uuid) (seen : list Vote) (postId : uuid) (value : Z)
    : list (request * (state -> state)) :=
  match find (fun v => uuid_eqb (post_id v) postId) seen with
  | Some existing =>
      (delete_eq_user_id_eq_post_id user postId,
       fun s =>
         setPosts (map (fun p => if uuid_eqb (Posts.id p) postId
                                 then Posts.with_score p
                                        (Posts.score p - vote_value existing)
                                 else p))
           (setVotes (filter (fun v => negb (uuid_eqb (post_id v) postId))) s))
      :: (if negb (Z.eqb (vote_value existing) value) then
            [(insert user postId value,
              fun s =>
                setPosts (map (fun p => if uuid_eqb (Posts.id p) postId
                                        then Posts.with_score p (Posts.score p + value)
                                        else p))
                  (setVotes (fun prev => prev ++ [mkVote postId value]) s))]
          else [])
  | None =>
      [(insert user postId value,
        fun s =>
          setPosts (map (fun p => if uuid_eqb (Posts.id p) postId
                                  then Posts.with_score p (Posts.score p + value)
                                  else p))
            (setVotes (fun prev => prev ++ [mkVote postId value]) s))]
  end.

(** The page: the state it shows, the handlers under way, each with the
    steps it has still to take (the call of its first step has been sent
    and not yet returned), and the calls sent so far. *)
Record page : Type := mkPage
  { shown : state;
    in_flight : list (list (request * (state -> state)));
    calls : list request }.

(** What happens on the page: an arrow of a post is clicked, or the call of
    the [n]-th handler under way returns. *)
Inductive event : Type :=
| Click (postId : uuid) (value : Z)
| Returned (n : nat).

(** The call a handler sends next. *)
Definition next_call (steps : list (request * (state -> state))) : list request :=
  match steps with
  | [] => []
  | (r, _) :: _ => [r]
  end.

(** The [n]-th handler under way goes on after its call: its update runs on
    the state of the page, and it sends its next call or is done. *)
Fixpoint resume (n : nat) (handlers : list (list (request * (state -> state))))
    (s : state)
    : state * list (list (request * (state -> state))) * list request :=
  match handlers with
  | [] => (s, [], [])
  | h :: rest =>
      match n with
      | O =>
          match h with
          | [] => (s, rest, [])
          | (_, update) :: more =>
              (update s,
               match more with [] => rest | _ => more :: rest end,
               next_call more)
          end
      | S n' =>
          let '(s', rest', sent) := resume n' rest s in (s', h :: rest', sent)
      end
  end.

(** A click starts the handler on the votes the page shows and sends its
    first call. *)
Definition on_event (user : uuid) (e : event) (pg : page) : page :=
  match e with
  | Click postId value =>
      let steps := handleVote user (votes (shown pg)) postId value in
      {| shown := shown pg;
         in_flight := in_flight pg ++ [steps];
         calls := calls pg ++ next_call steps |}
  | Returned n =>
      let '(s', handlers, sent) := resume n (in_flight pg) (shown pg) in
      {| shown := s'; in_flight := handlers; calls := calls pg ++ sent |}
  end.

Definition run (user : uuid) (es : list event) (pg : page) : page :=
  fold_left (fun pg e => on_event user e pg) es pg.

(** The updates of a handler, one after the other. *)
Definition settle (steps : list (request * (state -> state))) (s : state) : state :=
  fold_left (fun s step => snd step s) steps s.

(** A click on a page at rest whose handler runs to its end before anything
    else happens: the state then and the calls sent. *)
Definition click (user : uuid) (postId : uuid) (value : Z) (s : state)
    : state * list request :=
  let steps := handleVote user (votes s) postId value in
  (settle steps s, map fst steps).

Definition day_ms : Z := 24 * 60 * 60 * 1000.

(** The table [windows]; a key it does not hold reads [undefined]. *)
Definition windows (sort : string) : option window_ms :=
  if String.eqb sort "top-3m" then Some (Finite (90 * day_ms))
  else if String.eqb sort "top-6m" then Some (Finite (180 * day_ms))
  else if String.eqb sort "top-1y" then Some (Finite (365 * day_ms))
  else if String.eqb sort "top-all" then Some Infinity
  else None.

(** The predicate of the search filter, [q] being the lowered query. *)
Definition matches (q : string) (p : Post) : bool :=
  includes (toLowerCase (Posts.title p)) q
  || match Posts.content p with
     | Some c => includes (toLowerCase c) q
     | None => false
     end.

Definition in_window (window : window_ms) (now : Z) (p : Post) : bool :=
  match window with
  | Infinity => true
  | Finite ms => now - Posts.created_at p <? ms
  end.

(** The memoised [filteredPosts], with [now] the value of [Date.now()]. *)
Definition filteredPosts (posts : list Post) (search sort : string)
    (now : Z) : list Post :=
  let result := posts in
  let result :=
    match search with
    | EmptyString => result
    | _ => let q := toLowerCase search in filter (matches q) result
    end in
  if String.eqb sort "new" then
    js_sort (fun a b => Posts.created_at b - Posts.created_at a) result
  else
    let window :=
      match windows sort with
      | Some w => w
      | None => Infinity
      end in
    js_sort (fun a b => Posts.score b - Posts.score a)
            (filter (in_window window now) result).

End MainApp.

(** ** Notions of the specification *)










(** The error classes of the specification, and the class an error of the
    database falls in by what the specification files under each: a row
    refused by a policy is an [AuthorizationError] (its "non-member
    attempting to post"), a failed check a [ValidationError] ("vote value
    outside {+1,-1}"), a broken unique key a [ConflictError] ("duplicate
    username"), a broken foreign key a [NotFoundError] ("referenced post
    absent").  An integer out of range is in no class of the
    specification. *)
Inductive error_class : Type :=
| ValidationError
| AuthorizationError
| ConflictError
| NotFoundError.

Definition class_of (e : sql_error) : option error_class :=
  match e with
  | row_security_violation _ => Some AuthorizationError
  | check_violation _ => Some ValidationError
  | unique_violation _ => Some ConflictError
  | foreign_key_violation _ => Some NotFoundError
  | numeric_value_out_of_range => None
  end.

(** [output] is [input] stably sorted by [key], largest first: the same
    elements, in non-increasing key order, elements of equal key in their
    input order. *)
Definition stable_sorted_desc {A : Type} (key : A -> Z)
    (input output : list A) : Prop :=
  Permutation input output
  /\ StronglySorted (fun a b => key a >= key b) output
  /\ forall k, filter (fun a => key a =? k) output
               = filter (fun a => key a =? k) input.

(** The comparator [(a, b) => key(b) - key(a)]. *)
Definition descending {A : Type} (key : A -> Z) : A -> A -> Z :=
  fun a b => key b - key a.

(** The post with its timestamp sent through [f]. *)
Definition retime (f : Z -> Z) (p : Posts.row) : Posts.row :=
  Posts.with_created_at p (f (Posts.created_at p)).

(** ** Notions used to state the database properties *)

(** [rows'] is [rows] with the score of each row moved by [delta] of its id. *)
Definition shifted (delta : uuid -> Z) (rows rows' : list Posts.row) : Prop :=
  Forall2 (fun p p' => p' = Posts.with_score p (Posts.score p + delta (Posts.id p)))
          rows rows'.

Definition signed (op : tg_op) (z : Z) : Z :=
  match op with
  | INSERT => z
  | DELETE => - z
  end.

Definition vote_key (v : PostVotes.row) : uuid * uuid :=
  (PostVotes.user_id v, PostVotes.post_id v).

(** The declared constraints of [post_votes] as a property of a database:
    [UNIQUE(user_id, post_id)], [CHECK (vote_value IN (1, -1))] and the
    foreign key on [post_id]. *)
Record constraints_hold (d : db) : Prop := mk_constraints
  { votes_unique : NoDup (map vote_key (post_votes d));
    votes_checked : Forall (fun v => vote_value_check v = true) (post_votes d);
    votes_reference_posts :
      Forall (fun v => post_exists d (PostVotes.post_id v) = true) (post_votes d) }.

Definition with_club_memberships (d : db) (ms : list ClubMemberships.row) : db :=
  {| clubs := clubs d;
     club_memberships := ms;
     posts := posts d;
     post_votes := post_votes d |}.

Definition is_Ok {A : Type} (r : result A) : bool :=
  match r with
  | Ok _ => true
  | Err _ => false
  end.

(** Days from 1970-01-01 to the civil date [y]-[m]-[d] (proleptic Gregorian
    calendar), and the instant of its UTC midnight in milliseconds, which is
    what [new Date("y-m-d").getTime()] gives. *)
Definition days_from_civil (y m d : Z) : Z :=
  let y' := if m <=? 2 then y - 1 else y in
  let era := y' / 400 in
  let yoe := y' - era * 400 in
  let mp := (m + 9) mod 12 in
  let doy := (153 * mp + 2) / 5 + d - 1 in
  let doe := yoe * 365 + yoe / 4 - yoe / 100 + doy in
  era * 146097 + doe - 719468.

Definition date_ms (y m d : Z) : Z := days_from_civil y m d * MainApp.day_ms.

(** [f] turns the order of timestamps round. *)
Definition reverses_order (f : Z -> Z) : Prop :=
  forall a b, a < b -> f b < f a.

(** [f] turns the order of the timestamps [ts] round; what it does to other
    numbers is left open. *)
Definition reverses_order_on (ts : list Z) (f : Z -> Z) : Prop :=
  forall a b, In a ts -> In b ts -> a < b -> f b < f a.

(** The first and the last timestamp of the specification's example changed
    over, the middle one kept. *)
Definition swap_first_last (t : Z) : Z :=
  if t =? date_ms 2024 1 1 then date_ms 2025 1 1
  else if t =? date_ms 2025 1 1 then date_ms 2024 1 1
  else t.

(** Two posts created in the same millisecond. *)
Definition tie_first : Posts.row :=
  Posts.mk 1%N 10%N 100%N "first" None 0 (date_ms 2024 1 1).

Definition tie_second : Posts.row :=
  Posts.mk 2%N 10%N 101%N "second" None 0 (date_ms 2024 1 1).

(** The change [update_post_score] makes to the score of the post [i] when it
    is fired with [op] for the vote [r]. *)
Definition delta_of (op : tg_op) (r : PostVotes.row) (i : uuid) : Z :=
  if uuid_eqb i (PostVotes.post_id r) then signed op (PostVotes.vote_value r) else 0.

(** The displayed posts with the score of [postId] moved by [delta]. *)
Definition displayed_with (postId : uuid) (delta : Z)
    (ps : list MainApp.Post) : list MainApp.Post :=
  map (fun p => if uuid_eqb (Posts.id p) postId
                then Posts.with_score p (Posts.score p + delta) else p) ps.

Definition voted (postId : uuid) (vs : list MainApp.Vote) : option MainApp.Vote :=
  find (fun v => uuid_eqb (MainApp.post_id v) postId) vs.


(** ** Sample data *)

(** The posts of the specification's example. *)
Definition post_A : Posts.row :=
  Posts.mk 1%N 10%N 100%N "Learning Rust" (Some "ownership and borrowing"%string)
           3 (date_ms 2024 1 1).

Definition post_B : Posts.row :=
  Posts.mk 2%N 10%N 101%N "Go tips" (Some "rust is not the only option"%string)
           5 (date_ms 2024 6 1).

Definition post_C : Posts.row :=
  Posts.mk 3%N 10%N 102%N "Weekly thread" None 1 (date_ms 2025 1 1).


(** A club with one member (user 100), one post without votes yet. *)
Definition sample_db : db :=
  {| clubs := [Clubs.mk 10%N "Tech" "tech" None (Some "Cpu"%string)];
     club_memberships := [ClubMemberships.mk 100%N 10%N];
     posts := [Posts.with_score post_A 0];
     post_votes := [] |}.

(** The same after user 7 has voted the post up. *)
Definition voted_db : db :=
  {| clubs := clubs sample_db;
     club_memberships := club_memberships sample_db;
     posts := [Posts.with_score post_A 1];
     post_votes := [PostVotes.mk 1%N 7%N 1] |}.

Definition sample_txns : list vote_txn :=
  [ InsertVote (Some 7%N) (PostVotes.mk 1%N 7%N 1);
    InsertVote (Some 8%N) (PostVotes.mk 1%N 8%N 1);
    InsertVote (Some 7%N) (PostVotes.mk 1%N 7%N (-1));
    DeleteVotes (Some 8%N) (eq_user_id_eq_post_id 8%N 1%N) ].

(** [sample_db] with the score of the post at the top of the [INTEGER]
    range. *)
Definition top_score_db : db :=
  {| clubs := clubs sample_db;
     club_memberships := club_memberships sample_db;
     posts := [Posts.with_score post_A int4_max];
     post_votes := [] |}.

(** [top_score_db] after user 7 has voted the post down. *)
Definition near_top_db : db :=
  {| clubs := clubs sample_db;
     club_memberships := club_memberships sample_db;
     posts := [Posts.with_score post_A (int4_max - 1)];
     post_votes := [PostVotes.mk 1%N 7%N (-1)] |}.

(** The component showing [post_A] with the user's up-vote on it. *)
Definition sample_state : MainApp.state :=
  {| MainApp.posts := [post_A; post_B];
     MainApp.votes := [MainApp.mkVote 1%N 1] |}.

(** ** Notions used by the further properties *)

(** Every stored score is an [INTEGER]. *)
Definition scores_in_range (d : db) : Prop :=
  Forall (fun p => int4_min <= Posts.score p <= int4_max) (posts d).

(** A post row without its score. *)
Definition unscored (p : Posts.row) : Posts.row := Posts.with_score p 0.

(** ** Memberships and profiles *)

Definition users_can_join_clubs (auth : option uuid)
    (NEW : ClubMemberships.row) : bool :=
  match auth with
  | Some uid => uuid_eqb uid (ClubMemberships.user_id NEW)
  | None => false
  end.

Definition users_can_leave_clubs (auth : option uuid)
    (OLD : ClubMemberships.row) : bool :=
  match auth with
  | Some uid => uuid_eqb uid (ClubMemberships.user_id OLD)
  | None => false
  end.

Definition same_membership (a b : ClubMemberships.row) : bool :=
  uuid_eqb (ClubMemberships.user_id a) (ClubMemberships.user_id b)
  && uuid_eqb (ClubMemberships.club_id a) (ClubMemberships.club_id b).

(** The rows of one [INSERT INTO club_memberships] go in one after the
    other: each has to pass the insert policy and [UNIQUE(user_id, club_id)]
    against the table and the rows before it. *)
Fixpoint insert_membership_rows (auth : option uuid)
    (rows table : list ClubMemberships.row) : result (list ClubMemberships.row) :=
  match rows with
  | [] => Ok table
  | NEW :: rest =>
      _ <- require (users_can_join_clubs auth NEW)
                   (row_security_violation "club_memberships") ;;
      _ <- require (negb (existsb (same_membership NEW) table))
                   (unique_violation "club_memberships_user_id_club_id_key") ;;
      insert_membership_rows auth rest (table ++ [NEW])
  end.

(** [INSERT INTO club_memberships] of several rows by the caller [auth]; the
    foreign key on [club_id] is checked when the rows are in.  One error
    aborts the whole statement. *)
Definition insert_club_memberships (auth : option uuid)
    (rows : list ClubMemberships.row) (d : db) : result db :=
  table <- insert_membership_rows auth rows (club_memberships d) ;;
  _ <- require (forallb (fun NEW => club_exists d (ClubMemberships.club_id NEW)) rows)
               (foreign_key_violation "club_memberships_club_id_fkey") ;;
  Ok {| clubs := clubs d;
        club_memberships := table;
        posts := posts d;
        post_votes := post_votes d |}.

(** [DELETE FROM club_memberships WHERE where_] by the caller [auth]. *)
Definition delete_club_memberships (auth : option uuid)
    (where_ : ClubMemberships.row -> bool) (d : db) : result db :=
  Ok {| clubs := clubs d;
        club_memberships :=
          filter (fun m => negb (users_can_leave_clubs auth m && where_ m))
                 (club_memberships d);
        posts := posts d;
        post_votes := post_votes d |}.

Module Profiles.
Record row : Type := mk
  { user_id : uuid;
    username : string;
    avatar_url : option string;
    bio : option string }.
End Profiles.

Definition users_can_insert_own_profile (auth : option uuid)
    (NEW : Profiles.row) : bool :=
  match auth with
  | Some uid => uuid_eqb uid (Profiles.user_id NEW)
  | None => false
  end.

(** [INSERT INTO profiles] by the caller [auth], on the table [profiles]: the
    insert policy, then the unique keys on [user_id] and on [username]. *)
Definition insert_profile (auth : option uuid) (NEW : Profiles.row)
    (profiles : list Profiles.row) : result (list Profiles.row) :=
  _ <- require (users_can_insert_own_profile auth NEW)
               (row_security_violation "profiles") ;;
  _ <- require (negb (existsb (fun r => uuid_eqb (Profiles.user_id r)
                                                 (Profiles.user_id NEW)) profiles))
               (unique_violation "profiles_user_id_key") ;;
  _ <- require (negb (existsb (fun r => String.eqb (Profiles.username r)
                                                   (Profiles.username NEW)) profiles))
               (unique_violation "profiles_username_key") ;;
  Ok (profiles ++ [NEW]).

(** The declared keys of [profiles] and of [club_memberships], and the
    primary key and the club reference of the tables they point to. *)
Definition profiles_unique (profiles : list Profiles.row) : Prop :=
  NoDup (map Profiles.user_id profiles) /\ NoDup (map Profiles.username profiles).

Definition membership_key (m : ClubMemberships.row) : uuid * uuid :=
  (ClubMemberships.user_id m, ClubMemberships.club_id m).

Record memberships_hold (d : db) : Prop := mk_memberships_hold
  { memberships_unique : NoDup (map membership_key (club_memberships d));
    memberships_reference_clubs :
      Forall (fun m => club_exists d (ClubMemberships.club_id m) = true)
             (club_memberships d) }.

(** ** Notions used for the feed *)

(** [w1] is no longer a window than [w2]. *)
Definition window_le (w1 w2 : window_ms) : Prop :=
  match w1, w2 with
  | _, Infinity => True
  | Finite a, Finite b => a <= b
  | Infinity, Finite _ => False
  end.

(** The search step of the feed on its own: no filter for the empty query. *)
Definition searched (search : string) (ps : list Posts.row) : list Posts.row :=
  match search with
  | EmptyString => ps
  | _ => filter (MainApp.matches (toLowerCase search)) ps
  end.

(** ** The component and the database side by side *)

(** The value of the vote of [u] on [p] in the database, if there is one. *)
Definition db_vote (d : db) (u p : uuid) : option Z :=
  option_map PostVotes.vote_value
             (find (eq_user_id_eq_post_id u p) (post_votes d)).

(** The value of the vote on [p] the component holds, if there is one. *)
Definition client_vote (s : MainApp.state) (p : uuid) : option Z :=
  option_map MainApp.vote_value (voted p (MainApp.votes s)).

(** The component shows the database as it is for the signed-in [u]: its
    votes are the votes of [u], and every post it shows is a row of [posts],
    score included. *)
Record mirrors (d : db) (u : uuid) (s : MainApp.state) : Prop := mk_mirrors
  { votes_mirror : forall p, client_vote s p = db_vote d u p;
    posts_mirror : forall q, In q (MainApp.posts s) -> In q (posts d) }.

(** ** The onboarding component *)

Module Onboarding.

Record Hobby : Type := mkHobby
  { id : string;
    name : string;
    slug : string }.

Definition HOBBIES : list Hobby :=
  [ mkHobby "tech" "Tech" "tech";
    mkHobby "music" "Music" "music";
    mkHobby "gaming" "Gaming" "gaming";
    mkHobby "movies" "Movies & Cinema" "movies" ].

Record state : Type := mkState
  { step : Z;
    username : string;
    usernameError : string;
    checkingUsername : bool;
    bio : string;
    selectedHobbies : list string;
    submitting : bool }.

Definition setStep (n : Z) (s : state) : state :=
  {| step := n; username := username s; usernameError := usernameError s;
     checkingUsername := checkingUsername s; bio := bio s;
     selectedHobbies := selectedHobbies s; submitting := submitting s |}.

Definition setUsername (v : string) (s : state) : state :=
  {| step := step s; username := v; usernameError := usernameError s;
     checkingUsername := checkingUsername s; bio := bio s;
     selectedHobbies := selectedHobbies s; submitting := submitting s |}.

Definition setUsernameError (v : string) (s : state) : state :=
  {| step := step s; username := username s; usernameError := v;
     checkingUsername := checkingUsername s; bio := bio s;
     selectedHobbies := selectedHobbies s; submitting := submitting s |}.

Definition setCheckingUsername (b : bool) (s : state) : state :=
  {| step := step s; username := username s; usernameError := usernameError s;
     checkingUsername := b; bio := bio s;
     selectedHobbies := selectedHobbies s; submitting := submitting s |}.

Definition setBio (v : string) (s : state) : state :=
  {| step := step s; username := username s; usernameError := usernameError s;
     checkingUsername := checkingUsername s; bio := v;
     selectedHobbies := selectedHobbies s; submitting := submitting s |}.

Definition setSelectedHobbies (f : list string -> list string) (s : state) : state :=
  {| step := step s; username := username s; usernameError := usernameError s;
     checkingUsername := checkingUsername s; bio := bio s;
     selectedHobbies := f (selectedHobbies s); submitting := submitting s |}.

(** A character of the class [[a-zA-Z0-9_]]. *)
Definition word_char (c : ascii) : bool :=
  let n := N_of_ascii c in
  ((97 <=? n) && (n <=? 122) || (65 <=? n) && (n <=? 90)
   || (48 <=? n) && (n <=? 57) || (n =? 95))%N.

Fixpoint all_chars (f : ascii -> bool) (s : string) : bool :=
  match s with
  | EmptyString => true
  | String c rest => f c && all_chars f rest
  end.

(** [/^[a-zA-Z0-9_]+$/.test(value)]. *)
Definition username_pattern (value : string) : bool :=
  match value with
  | EmptyString => false
  | _ => all_chars word_char value
  end.

(** [checkUsername(value)] up to its [await]: the state after the tests on
    the value, and whether the lookup in [profiles] was sent. *)
Definition checkUsername (value : string) (s : state) : state * bool :=
  if Z.of_nat (String.length value) <? 3 then
    (setUsernameError "Username must be at least 3 characters" s, false)
  else if negb (username_pattern value) then
    (setUsernameError "Only letters, numbers, and underscores" s, false)
  else
    (setCheckingUsername true s, true).

(** [checkUsername] from its [await] on, run when the lookup has returned,
    on the state the page has by then; [taken] tells whether the lookup
    returned a row. *)
Definition checkUsername_resumed (taken : bool) (s : state) : state :=
  setUsernameError (if taken then "Username already taken" else "")
                   (setCheckingUsername false s).

(** The [onChange] handler of the username input: the state, and whether a
    lookup was sent.  The handler does not wait for [checkUsername]. *)
Definition onUsernameChange (v : string) (s : state) : state * bool :=
  let s := setUsernameError "" (setUsername v s) in
  if 3 <=? Z.of_nat (String.length v) then checkUsername v s else (s, false).

(** The [onChange] handler of the bio text area. *)
Definition onBioChange (v : string) (s : state) : state :=
  setBio (substring 0 160 v) s.

Definition toggleHobby (id : string) (prev : list string) : list string :=
  if existsb (String.eqb id) prev
  then filter (fun h => negb (String.eqb h id)) prev
  else prev ++ [id].

Definition canProceed (s : state) : bool :=
  if step s =? 0 then
    (3 <=? Z.of_nat (String.length (username s)))
    && String.eqb (usernameError s) "" && negb (checkingUsername s)
  else if step s =? 3 then 1 <=? Z.of_nat (List.length (selectedHobbies s))
  else true.

(** The page: the state it shows and the names whose lookup is under way,
    oldest first. *)
Record page : Type := mkPage
  { shown : state;
    lookups : list string }.

(** What happens on the page: what the user does, and the return of the
    [n]-th lookup under way, with or without a row. *)
Inductive event : Type :=
| ChangeUsername (v : string)
| LookupReturned (n : nat) (taken : bool)
| ChangeBio (v : string)
| ToggleHobby (id : string)
| ClickBack
| ClickNext.

(** The page after an event, and whether [handleFinish] was called.  The
    Back button is there for [step > 0] only; the other button is disabled
    unless [canProceed()] holds and nothing is being submitted. *)
Definition handle (e : event) (pg : page) : page * bool :=
  let s := shown pg in
  match e with
  | ChangeUsername v =>
      let (s', sent) := onUsernameChange v s in
      (mkPage s' (if sent then lookups pg ++ [v] else lookups pg), false)
  | LookupReturned n taken =>
      match nth_error (lookups pg) n with
      | Some _ =>
          (mkPage (checkUsername_resumed taken s)
                  (firstn n (lookups pg) ++ skipn (S n) (lookups pg)), false)
      | None => (pg, false)
      end
  | ChangeBio v => (mkPage (onBioChange v s) (lookups pg), false)
  | ToggleHobby id => (mkPage (setSelectedHobbies (toggleHobby id) s) (lookups pg), false)
  | ClickBack =>
      if 0 <? step s then (mkPage (setStep (step s - 1) s) (lookups pg), false)
      else (pg, false)
  | ClickNext =>
      if negb (canProceed s) || submitting s then (pg, false)
      else if step s <? 3 then (mkPage (setStep (step s + 1) s) (lookups pg), false)
      else (pg, true)
  end.

(** The slug a selected hobby is looked up by:
    [HOBBIES.find((hb) => hb.id === h)?.slug || h]. *)
Definition slug_of (h : string) : string :=
  match find (fun hb => String.eqb (id hb) h) HOBBIES with
  | Some hb => match slug hb with EmptyString => h | sl => sl end
  | None => h
  end.

Inductive outcome : Type :=
| Welcome
| Failed (e : sql_error).

(** [handleFinish()] for the signed-in [user], on the tables it writes;
    [avatar_url] is what the upload step left (no file or a failed upload
    leave [None]).  A refused profile insert is thrown and ends the handler;
    the outcome of the membership insert is not looked at. *)
Definition handleFinish (user : uuid) (avatar_url : option string) (s : state)
    (profiles : list Profiles.row) (d : db)
    : list Profiles.row * db * outcome :=
  match insert_profile (Some user)
          (Profiles.mk user (username s) avatar_url
                       (match bio s with EmptyString => None | b => Some b end))
          profiles with
  | Err e => (profiles, d, Failed e)
  | Ok profiles' =>
      let slugs := map slug_of (selectedHobbies s) in
      let found := filter (fun c => existsb (String.eqb (Clubs.slug c)) slugs)
                          (clubs d) in
      let memberships := map (fun club => ClubMemberships.mk user (Clubs.id club))
                             found in
      let d' := match insert_club_memberships (Some user) memberships d with
                | Ok d' => d'
                | Err _ => d
                end in
      (profiles', d', Welcome)
  end.

End Onboarding.


(** Running the events one after the other; the flags tell, event by event,
    whether [handleFinish] was called. *)
Fixpoint run_events (es : list Onboarding.event) (pg : Onboarding.page)
    : Onboarding.page * list bool :=
  match es with
  | [] => (pg, [])
  | e :: rest =>
      let (pg1, fired) := Onboarding.handle e pg in
      let (pg2, flags) := run_events rest pg1 in
      (pg2, fired :: flags)
  end.

(** ** Creating a post from the feed *)

(** A character [String.prototype.trim] removes, among the 8-bit ones: tab,
    line feed, vertical tab, form feed, carriage return, space and the
    no-break space. *)
Definition is_space (c : ascii) : bool :=
  let n := N_of_ascii c in
  ((9 <=? n) && (n <=? 13) || (n =? 32) || (n =? 160))%N.

Fixpoint trimStart (s : string) : string :=
  match s with
  | EmptyString => EmptyString
  | String c rest => if is_space c then trimStart rest else s
  end.

Fixpoint trimEnd (s : string) : string :=
  match s with
  | EmptyString => EmptyString
  | String c rest =>
      match trimEnd rest with
      | EmptyString => if is_space c then EmptyString else String c EmptyString
      | kept => String c kept
      end
  end.

Definition trim (s : string) : string := trimEnd (trimStart s).

Module NewPost.

(** What [handleCreatePost] came to. *)
Inductive outcome : Type :=
| NotSent
| Refused (e : sql_error)
| Created.

(** The form of the feed for a new post. *)
Record form : Type := mkForm
  { newTitle : string;
    newContent : string;
    showNewPost : bool }.

(** The row of the insert call: the columns the handler gives, [score] left
    to its default 0, [id] and [created_at] as the database fills them in. *)
Definition row (id : uuid) (created_at : Z) (activeClub user : uuid)
    (f : form) : Posts.row :=
  Posts.mk id activeClub user (trim (newTitle f))
           (match trim (newContent f) with
            | EmptyString => None
            | c => Some c
            end)
           0 created_at.

(** [handleCreatePost()] for the signed-in [user]: the form, the database
    and the outcome.  A blank title or no active club ends it at once; a
    refused insert leaves the form as it is; success clears the form (the
    posts are then read again from the database, which changes nothing
    there). *)
Definition handleCreatePost (id : uuid) (created_at : Z) (user : uuid)
    (activeClub : option uuid) (f : form) (d : db) : form * db * outcome :=
  match trim (newTitle f), activeClub with
  | EmptyString, _ => (f, d, NotSent)
  | _, None => (f, d, NotSent)
  | _, Some club =>
      match insert_post (Some user) (row id created_at club user f) d with
      | Err e => (f, d, Refused e)
      | Ok d' => (mkForm "" "" false, d', Created)
      end
  end.

End NewPost.

(** ** More sample data *)

(** A post by the member of [sample_db], as the feed's form would send it. *)
Definition member_post : Posts.row :=
  NewPost.row 4%N (date_ms 2025 1 2) 10%N 100%N (NewPost.mkForm "  Hello " "" true).

(** [sample_db] after user 7 has joined the club. *)
Definition joined_db : db :=
  {| clubs := clubs sample_db;
     club_memberships := club_memberships sample_db ++ [ClubMemberships.mk 7%N 10%N];
     posts := posts sample_db;
     post_votes := post_votes sample_db |}.

(** The component of user 7 showing [voted_db]. *)
Definition voted_state : MainApp.state :=
  {| MainApp.posts := [Posts.with_score post_A 1];
     MainApp.votes := [MainApp.mkVote 1%N 1] |}.

(** The component of user 7 showing [top_score_db]. *)
Definition top_score_state : MainApp.state :=
  {| MainApp.posts := [Posts.with_score post_A int4_max];
     MainApp.votes := [] |}.

(** The onboarding page as it opens, and what a user does on it. *)
Definition first_page : Onboarding.state :=
  Onboarding.mkState 0 "" "" false "" [] false.

Definition sample_events : list Onboarding.event :=
  [ Onboarding.ChangeUsername "ada_1"; Onboarding.LookupReturned 0 false;
    Onboarding.ClickNext;
    Onboarding.ClickNext; Onboarding.ChangeBio "hello"; Onboarding.ClickNext;
    Onboarding.ToggleHobby "tech"; Onboarding.ToggleHobby "music";
    Onboarding.ToggleHobby "music"; Onboarding.ClickNext ].

Definition ada : Profiles.row := Profiles.mk 7%N "ada_1" None (Some "hello"%string).

(** * Properties *)

(** ** The definitions on small inputs *)

Example date_ms_2024_01_01 : date_ms 2024 1 1 = 1704067200000.
Proof. reflexivity. Qed.

Example date_ms_2025_01_01 : date_ms 2025 1 1 = 1735689600000.
Proof. reflexivity. Qed.

Example toLowerCase_mixed :
  toLowerCase "Hello, World 42 [Z]" = "hello, world 42 [z]"%string.
Proof. reflexivity. Qed.

(** E with acute (201) is lowered to e with acute (233); the multiplication
    sign (215) and the sharp s (223) stay. *)
Example toLowerCase_accented :
  toLowerCase (String "201" (String "215" (String "223" "COLE")))
  = String "233" (String "215" (String "223" "cole")).
Proof. reflexivity. Qed.

Example includes_inner : includes "learning rust" "ng ru" = true.
Proof. reflexivity. Qed.

Example includes_missing : includes "learning rust" "go" = false.
Proof. reflexivity. Qed.

(** Equal keys stay in input order, here pairs sorted by their first
    component, largest first. *)
Example js_sort_keeps_ties :
  js_sort (fun a b => fst b - fst a) [(1, 10); (2, 20); (1, 30); (2, 40)]
  = [(2, 20); (2, 40); (1, 10); (1, 30)].
Proof. reflexivity. Qed.

Example trigger_on_insert :
  update_post_score INSERT (PostVotes.mk 1%N 7%N (-1)) [post_A; post_B]
  = Ok [Posts.with_score post_A 2; post_B].
Proof. reflexivity. Qed.

Example sample_txns_outcome :
  post_votes (commit_all sample_db sample_txns) = [PostVotes.mk 1%N 7%N 1]
  /\ map Posts.score (posts (commit_all sample_db sample_txns)) = [1].
Proof. split; reflexivity. Qed.

(** ** Basic facts *)

Lemma uuid_eqb_eq (a b : uuid) : uuid_eqb a b = true <-> a = b.
Proof. apply N.eqb_eq. Qed.

Lemma uuid_eqb_refl (a : uuid) : uuid_eqb a a = true.
Proof. apply N.eqb_refl. Qed.

Lemma uuid_eqb_sym (a b : uuid) : uuid_eqb a b = uuid_eqb b a.
Proof. apply N.eqb_sym. Qed.

Lemma with_score_same (p : Posts.row) : Posts.with_score p (Posts.score p) = p.
Proof. now destruct p. Qed.

Lemma bind_Ok_inv {A B : Type} (c : result A) (k : A -> result B) (b : B) :
  bind c k = Ok b -> exists a, c = Ok a /\ k a = Ok b.
Proof. destruct c as [a|e]; simpl; [eauto | discriminate]. Qed.

Lemma require_Ok_inv (b : bool) (e : sql_error) (u : unit) :
  require b e = Ok u -> b = true.
Proof. now destruct b. Qed.

(** [passed H Hb]: the statement [H : (_ <- require b e ;; k) = Ok _] got
    past its check; [Hb : b = true] is recorded and [H] goes on with [k]. *)
Ltac passed H Hb :=
  apply bind_Ok_inv in H as (? & Hb & H); apply require_Ok_inv in Hb.

(** [ran H x Hx]: the step [c] of [H : (x <- c ;; k) = Ok _] returned. *)
Ltac ran H x Hx := apply bind_Ok_inv in H as (x & Hx & H).

Lemma int4pl_Ok_inv (a b s : Z) :
  int4pl a b = Ok s -> s = a + b /\ int4_min <= s <= int4_max.
Proof.
  unfold int4pl, in_int4. destruct (int4_min <=? a + b) eqn:Hlo; simpl;
    [destruct (a + b <=? int4_max) eqn:Hhi|]; try discriminate.
  intros [= <-]. apply Z.leb_le in Hlo, Hhi. lia.
Qed.

Lemma int4mi_Ok_inv (a b s : Z) :
  int4mi a b = Ok s -> s = a - b /\ int4_min <= s <= int4_max.
Proof.
  unfold int4mi, in_int4. destruct (int4_min <=? a - b) eqn:Hlo; simpl;
    [destruct (a - b <=? int4_max) eqn:Hhi|]; try discriminate.
  intros [= <-]. apply Z.leb_le in Hlo, Hhi. lia.
Qed.

Lemma int4pl_in_range (a b : Z) :
  int4_min <= a + b <= int4_max -> int4pl a b = Ok (a + b).
Proof.
  intros H. unfold int4pl, in_int4.
  destruct (Z.leb_spec int4_min (a + b)); [|lia].
  destruct (Z.leb_spec (a + b) int4_max); [reflexivity|lia].
Qed.

Lemma int4mi_in_range (a b : Z) :
  int4_min <= a - b <= int4_max -> int4mi a b = Ok (a - b).
Proof.
  intros H. unfold int4mi, in_int4.
  destruct (Z.leb_spec int4_min (a - b)); [|lia].
  destruct (Z.leb_spec (a - b) int4_max); [reflexivity|lia].
Qed.

Lemma NoDup_map_filter {A B : Type} (g : A -> B) (f : A -> bool) (l : list A) :
  NoDup (map g l) -> NoDup (map g (filter f l)).
Proof.
  induction l as [|a l IH]; simpl; intros Hnd; [constructor|].
  inversion Hnd as [|? ? Hnotin Hnd']; subst.
  destruct (f a); simpl; [|now apply IH].
  constructor; [|now apply IH].
  intros Hin. apply Hnotin. apply in_map_iff in Hin as (x & Hx & Hin).
  apply in_map_iff. exists x. split; [exact Hx|]. now apply filter_In in Hin.
Qed.

(** ** The trigger moves scores by the votes it is fired for *)

Lemma shifted_refl (delta : uuid -> Z) (rows : list Posts.row) :
  (forall i, delta i = 0) -> shifted delta rows rows.
Proof.
  intros H0. induction rows as [|p rows IH]; constructor; auto.
  now rewrite H0, Z.add_0_r, with_score_same.
Qed.

Lemma shifted_trans (d1 d2 d : uuid -> Z) (r1 r2 r3 : list Posts.row) :
  (forall i, d i = d1 i + d2 i) ->
  shifted d1 r1 r2 -> shifted d2 r2 r3 -> shifted d r1 r3.
Proof.
  intros Hd H12. revert r3.
  induction H12 as [|p p' r1 r2 Hp _ IH]; intros r3 H23; inversion H23; subst.
  - constructor.
  - constructor; [|now apply IH].
    destruct p; simpl. unfold Posts.with_score; simpl. f_equal.
    rewrite Hd. simpl. lia.
Qed.

Lemma shifted_In (delta : uuid -> Z) (rows rows' : list Posts.row) (p' : Posts.row) :
  shifted delta rows rows' -> In p' rows' ->
  exists p, In p rows /\ Posts.id p' = Posts.id p
            /\ Posts.score p' = Posts.score p + delta (Posts.id p).
Proof.
  induction 1 as [|p q r r' Hq _ IH]; simpl; [tauto|].
  intros [<- | Hin].
  - exists p. subst q. simpl. auto.
  - destruct (IH Hin) as (p0 & ? & ? & ?). exists p0. auto.
Qed.

Lemma update_post_score_shifted (op : tg_op) (r : PostVotes.row)
    (rows rows' : list Posts.row) :
  update_post_score op r rows = Ok rows' ->
  shifted (fun i => if uuid_eqb i (PostVotes.post_id r)
                    then signed op (PostVotes.vote_value r) else 0)
          rows rows'.
Proof.
  revert rows'. induction rows as [|p rows IH]; intros rows' H.
  - destruct op; simpl in H; injection H as <-; constructor.
  - assert (Hstep : exists p' rest',
               rows' = p' :: rest'
               /\ update_post_score op r rows = Ok rest'
               /\ p' = Posts.with_score p
                         (Posts.score p
                          + (if uuid_eqb (Posts.id p) (PostVotes.post_id r)
                             then signed op (PostVotes.vote_value r) else 0))).
    { destruct op; simpl in H;
        apply bind_Ok_inv in H as (p' & Hp' & H);
        apply bind_Ok_inv in H as (rest' & Hrest & H);
        injection H as <-; exists p', rest'; (split; [reflexivity|]);
        (split; [exact Hrest|]);
        destruct (uuid_eqb (Posts.id p) (PostVotes.post_id r)).
      - apply bind_Ok_inv in Hp' as (s & Hs & Hp'). injection Hp' as <-.
        apply int4pl_Ok_inv in Hs as [-> _]. reflexivity.
      - injection Hp' as <-. now rewrite Z.add_0_r, with_score_same.
      - apply bind_Ok_inv in Hp' as (s & Hs & Hp'). injection Hp' as <-.
        apply int4mi_Ok_inv in Hs as [-> _]. simpl. f_equal.
      - injection Hp' as <-. now rewrite Z.add_0_r, with_score_same. }
    destruct Hstep as (p' & rest' & -> & Hrest & ->).
    constructor; [reflexivity | now apply IH].
Qed.

Lemma on_vote_change_shifted (op : tg_op) (affected : list PostVotes.row)
    (rows rows' : list Posts.row) :
  on_vote_change op affected rows = Ok rows' ->
  shifted (fun i => signed op (vote_sum i affected)) rows rows'.
Proof.
  revert rows. induction affected as [|r rest IH]; intros rows H; simpl in H.
  - injection H as <-. apply shifted_refl. intros i. now destruct op.
  - ran H mid Hmid.
    apply update_post_score_shifted in Hmid. apply IH in H.
    eapply shifted_trans; [|exact Hmid|exact H].
    intros i. simpl. rewrite (uuid_eqb_sym (PostVotes.post_id r) i).
    destruct (uuid_eqb i (PostVotes.post_id r)); destruct op; simpl; lia.
Qed.

Lemma vote_sum_app (i : uuid) (l l' : list PostVotes.row) :
  vote_sum i (l ++ l') = vote_sum i l + vote_sum i l'.
Proof.
  induction l as [|v l IH]; simpl; [reflexivity|].
  rewrite IH. destruct (uuid_eqb (PostVotes.post_id v) i); lia.
Qed.

Lemma vote_sum_split (f : PostVotes.row -> bool) (i : uuid) (l : list PostVotes.row) :
  vote_sum i l
  = vote_sum i (filter f l) + vote_sum i (filter (fun v => negb (f v)) l).
Proof.
  induction l as [|v l IH]; simpl; [reflexivity|].
  destruct (f v); simpl; rewrite IH;
    destruct (uuid_eqb (PostVotes.post_id v) i); lia.
Qed.

(** ** The score invariant *)

Lemma insert_post_vote_invariant (auth : option uuid) (NEW : PostVotes.row)
    (d d' : db) :
  score_invariant d -> insert_post_vote auth NEW d = Ok d' -> score_invariant d'.
Proof.
  intros Hinv H. unfold insert_post_vote in H.
  do 4 (apply bind_Ok_inv in H as (? & _ & H)).
  ran H rows Hrows. injection H as <-.
  apply on_vote_change_shifted in Hrows.
  intros p' Hin. simpl in *.
  destruct (shifted_In _ _ _ _ Hrows Hin) as (p & Hp & Hid & Hsc).
  rewrite Hsc, Hid, (Hinv p Hp), vote_sum_app. reflexivity.
Qed.

Lemma delete_post_votes_invariant (auth : option uuid)
    (where_ : PostVotes.row -> bool) (d d' : db) :
  score_invariant d -> delete_post_votes auth where_ d = Ok d' -> score_invariant d'.
Proof.
  intros Hinv H. unfold delete_post_votes in H.
  ran H rows Hrows. injection H as <-.
  apply on_vote_change_shifted in Hrows.
  intros p' Hin. simpl in *.
  destruct (shifted_In _ _ _ _ Hrows Hin) as (p & Hp & Hid & Hsc).
  rewrite Hsc, Hid, (Hinv p Hp). simpl.
  rewrite (vote_sum_split
             (fun v => users_can_remove_own_vote auth v && where_ v)
             (Posts.id p) (post_votes d)).
  lia.
Qed.

Lemma commit_invariant (d : db) (t : vote_txn) :
  score_invariant d -> score_invariant (commit d t).
Proof.
  intros Hinv. unfold commit. destruct (run_txn t d) as [d'|e] eqn:H; [|exact Hinv].
  destruct t as [auth NEW | auth where_]; simpl in H.
  - eapply insert_post_vote_invariant; eauto.
  - eapply delete_post_votes_invariant; eauto.
Qed.

Lemma vote_sum_no_vote (i : uuid) (votes : list PostVotes.row) :
  (forall v, In v votes -> PostVotes.post_id v <> i) -> vote_sum i votes = 0.
Proof.
  induction votes as [|v votes IH]; intros H; simpl; [reflexivity|].
  destruct (uuid_eqb (PostVotes.post_id v) i) eqn:Hv.
  - apply uuid_eqb_eq in Hv. exfalso. apply (H v); [now left | exact Hv].
  - apply IH. intros w Hw. apply H. now right.
Qed.

(** A post that comes in with the column default [score = 0] has no votes
    yet, the foreign key seeing to that. *)
Lemma insert_post_invariant (auth : option uuid) (NEW : Posts.row) (d d' : db) :
  constraints_hold d -> score_invariant d -> Posts.score NEW = 0 ->
  insert_post auth NEW d = Ok d' -> score_invariant d'.
Proof.
  intros [_ _ Hfk] Hinv Hzero H. unfold insert_post in H.
  apply bind_Ok_inv in H as (? & _ & H).
  passed H Hpk.
  apply bind_Ok_inv in H as (? & _ & H). injection H as <-.
  apply negb_true_iff in Hpk.
  intros p Hin. cbn [posts post_votes] in *.
  apply in_app_or in Hin as [Hin | [<- | []]]; [now apply Hinv|].
  rewrite Hzero. symmetry. apply vote_sum_no_vote.
  rewrite Forall_forall in Hfk. intros v Hv Heq.
  specialize (Hfk v Hv). rewrite Heq in Hfk. congruence.
Qed.

(** C1. Starting from a database in which every post's score is the sum of
    the values of the votes on it, after any sequence of vote insert and vote
    delete transactions (those that raise being rolled back) every post's
    stored score is again the sum of the [vote_value]s of the votes that
    exist on it: the trigger keeps the invariant on each insert and each
    delete. *)
Theorem score_is_vote_sum_after_any_vote_transactions
    (d : db) (ts : list vote_txn) :
  score_invariant d ->
  forall p, In p (posts (commit_all d ts)) ->
            Posts.score p = vote_sum (Posts.id p) (post_votes (commit_all d ts)).
Proof.
  intros Hinv. change (score_invariant (commit_all d ts)).
  revert d Hinv. unfold commit_all.
  induction ts as [|t ts IH]; intros d Hinv; simpl; [exact Hinv|].
  apply IH, commit_invariant, Hinv.
Qed.

(** ** When the statements go through *)

Lemma bind_Ok_r {A : Type} (c : result A) : bind c (fun a => Ok a) = c.
Proof. now destruct c. Qed.

Lemma update_posts_set_score_Ok (e : Z -> result Z) (i : uuid)
    (rows : list Posts.row) :
  (forall q, In q rows -> Posts.id q = i -> exists s, e (Posts.score q) = Ok s) ->
  exists rows', update_posts_set_score e i rows = Ok rows'.
Proof.
  induction rows as [|q rows IH]; intros H; simpl; [eauto|].
  destruct IH as [rest' ->]; [intros; apply H; simpl; auto|].
  destruct (uuid_eqb (Posts.id q) i) eqn:Hq; simpl; [|eauto].
  apply uuid_eqb_eq in Hq.
  destruct (H q (or_introl eq_refl) Hq) as [s ->]. simpl. eauto.
Qed.

Lemma update_post_score_Ok (op : tg_op) (r : PostVotes.row) (rows : list Posts.row) :
  (forall q, In q rows -> Posts.id q = PostVotes.post_id r ->
             int4_min <= Posts.score q + signed op (PostVotes.vote_value r)
             <= int4_max) ->
  exists rows', update_post_score op r rows = Ok rows'.
Proof.
  intros H. destruct op; simpl; apply update_posts_set_score_Ok;
    intros q Hq Hid; specialize (H q Hq Hid); simpl in H.
  - exists (Posts.score q + PostVotes.vote_value r). now apply int4pl_in_range.
  - exists (Posts.score q - PostVotes.vote_value r). apply int4mi_in_range. lia.
Qed.

Lemma shifted_post_exists (delta : uuid -> Z) (rows rows' : list Posts.row) (i : uuid) :
  shifted delta rows rows' ->
  existsb (fun p => uuid_eqb (Posts.id p) i) rows'
  = existsb (fun p => uuid_eqb (Posts.id p) i) rows.
Proof.
  induction 1 as [|p p' r r' Hp _ IH]; simpl; [reflexivity|].
  rewrite IH. now subst p'.
Qed.

Lemma existsb_filter_negb {A : Type} (f : A -> bool) (l : list A) :
  existsb f (filter (fun a => negb (f a)) l) = false.
Proof.
  induction l as [|a l IH]; simpl; [reflexivity|].
  destruct (f a) eqn:Hf; simpl; [exact IH|]. now rewrite Hf, IH.
Qed.

Lemma existsb_In_true {A : Type} (f : A -> bool) (l : list A) (a : A) :
  In a l -> f a = true -> existsb f l = true.
Proof. intros. apply existsb_exists. eauto. Qed.

Lemma own_vote_hit (u p : uuid) (v : PostVotes.row) :
  users_can_remove_own_vote (Some u) v && eq_user_id_eq_post_id u p v
  = eq_user_id_eq_post_id u p v.
Proof.
  unfold users_can_remove_own_vote, eq_user_id_eq_post_id.
  rewrite (uuid_eqb_sym u). now destruct (uuid_eqb (PostVotes.user_id v) u).
Qed.

Lemma eq_user_id_eq_post_id_key (u p : uuid) (v : PostVotes.row) :
  eq_user_id_eq_post_id u p v = true <-> vote_key v = (u, p).
Proof.
  unfold eq_user_id_eq_post_id, vote_key.
  rewrite andb_true_iff, !uuid_eqb_eq. split; [intros [-> ->]|intros [= -> ->]]; auto.
Qed.

(** Under [UNIQUE(user_id, post_id)] the delete call of a user on a post
    hits the one vote there is. *)
Lemma filter_unique_vote (u p : uuid) (x : PostVotes.row) (l : list PostVotes.row) :
  NoDup (map vote_key l) -> In x l -> vote_key x = (u, p) ->
  filter (eq_user_id_eq_post_id u p) l = [x].
Proof.
  intros Hnd Hin Hx. induction l as [|y l IH]; [contradiction|].
  simpl in Hnd. inversion Hnd as [|? ? Hnotin Hnd']; subst.
  assert (Hnone : forall l', ~ In (u, p) (map vote_key l') ->
                             filter (eq_user_id_eq_post_id u p) l' = []).
  { induction l' as [|z l' IH']; simpl; [reflexivity|]. intros Hn.
    destruct (eq_user_id_eq_post_id u p z) eqn:Hz.
    - apply eq_user_id_eq_post_id_key in Hz. tauto.
    - apply IH'. tauto. }
  simpl. destruct Hin as [-> | Hin].
  - rewrite (proj2 (eq_user_id_eq_post_id_key u p x) Hx).
    rewrite Hx in Hnotin. now rewrite (Hnone l Hnotin).
  - destruct (eq_user_id_eq_post_id u p y) eqn:Hy.
    + apply eq_user_id_eq_post_id_key in Hy. exfalso. apply Hnotin.
      rewrite Hy, <- Hx. now apply in_map.
    + now apply IH.
Qed.

Lemma vote_value_check_iff (v : PostVotes.row) :
  vote_value_check v = true
  <-> PostVotes.vote_value v = 1 \/ PostVotes.vote_value v = -1.
Proof.
  unfold vote_value_check. rewrite orb_true_iff, !Z.eqb_eq. tauto.
Qed.

(** A vote insert by its own user goes through when the user has no vote on
    the post, the value is 1 or -1, the post exists and its score stays an
    [INTEGER]. *)
Lemma insert_post_vote_Ok (d : db) (u p : uuid) (w : Z) :
  has_voted_on_post d u p = false ->
  w = 1 \/ w = -1 ->
  post_exists d p = true ->
  (forall q, In q (posts d) -> Posts.id q = p ->
             int4_min <= Posts.score q + w <= int4_max) ->
  exists rows,
    shifted (fun i => if uuid_eqb i p then w else 0) (posts d) rows
    /\ insert_post_vote (Some u) (PostVotes.mk p u w) d
       = Ok {| clubs := clubs d;
               club_memberships := club_memberships d;
               posts := rows;
               post_votes := post_votes d ++ [PostVotes.mk p u w] |}.
Proof.
  intros Hnot Hw Hex Hrange.
  destruct (update_post_score_Ok INSERT (PostVotes.mk p u w) (posts d)) as [rows Hrows];
    [exact Hrange|].
  exists rows. split; [exact (update_post_score_shifted _ _ _ _ Hrows)|].
  unfold insert_post_vote, members_can_vote, post_votes_user_post_unique.
  cbn [PostVotes.user_id PostVotes.post_id on_vote_change].
  fold (has_voted_on_post d u p).
  rewrite uuid_eqb_refl, Hnot.
  rewrite (proj2 (vote_value_check_iff (PostVotes.mk p u w)) Hw).
  rewrite Hex, bind_Ok_r, Hrows. reflexivity.
Qed.

(** ** The declared constraints hold after every statement *)

Lemma unique_check_not_In (d : db) (NEW : PostVotes.row) :
  post_votes_user_post_unique d NEW = true ->
  ~ In (vote_key NEW) (map vote_key (post_votes d)).
Proof.
  unfold post_votes_user_post_unique. intros Hu Hin.
  apply negb_true_iff in Hu.
  apply in_map_iff in Hin as (v & Hv & Hin).
  rewrite (existsb_In_true _ _ v Hin) in Hu; [discriminate|].
  injection Hv as -> ->. now rewrite !uuid_eqb_refl.
Qed.

Lemma insert_post_vote_constraints (auth : option uuid) (NEW : PostVotes.row)
    (d d' : db) :
  constraints_hold d -> insert_post_vote auth NEW d = Ok d' -> constraints_hold d'.
Proof.
  intros [Hu Hc Hfk] H. unfold insert_post_vote in H.
  apply bind_Ok_inv in H as (? & _ & H).
  passed H Hchk.
  passed H Huniq.
  passed H Hpost.
  ran H rows Hrows. injection H as <-.
  apply on_vote_change_shifted in Hrows.
  split; cbn [post_votes posts].
  - eapply Permutation_NoDup;
      [apply Permutation_map, Permutation_cons_append|].
    simpl. constructor; [now apply unique_check_not_In | exact Hu].
  - apply Forall_app. split; [exact Hc | now constructor].
  - assert (Hsame : forall i, post_exists
                      {| clubs := clubs d; club_memberships := club_memberships d;
                         posts := rows; post_votes := post_votes d ++ [NEW] |} i
                    = post_exists d i).
    { intros i. unfold post_exists. simpl. now apply shifted_post_exists with (1 := Hrows). }
    apply Forall_app. split.
    + eapply Forall_impl; [|exact Hfk]. intros v Hv. now rewrite Hsame.
    + constructor; [now rewrite Hsame | constructor].
Qed.

Lemma delete_post_votes_constraints (auth : option uuid)
    (where_ : PostVotes.row -> bool) (d d' : db) :
  constraints_hold d -> delete_post_votes auth where_ d = Ok d' -> constraints_hold d'.
Proof.
  intros [Hu Hc Hfk] H. unfold delete_post_votes in H.
  ran H rows Hrows. injection H as <-.
  apply on_vote_change_shifted in Hrows.
  split; cbn [post_votes posts].
  - now apply NoDup_map_filter.
  - rewrite Forall_forall in *. intros v Hv. apply filter_In in Hv as [Hv _]. auto.
  - rewrite Forall_forall in *. intros v Hv. apply filter_In in Hv as [Hv _].
    unfold post_exists. cbn [posts].
    rewrite (shifted_post_exists _ _ _ (PostVotes.post_id v) Hrows). now apply Hfk.
Qed.

Lemma commit_constraints (d : db) (t : vote_txn) :
  constraints_hold d -> constraints_hold (commit d t).
Proof.
  intros Hc. unfold commit. destruct (run_txn t d) as [d'|e] eqn:H; [|exact Hc].
  destruct t as [auth NEW | auth where_]; simpl in H.
  - eapply insert_post_vote_constraints; eauto.
  - eapply delete_post_votes_constraints; eauto.
Qed.

Lemma no_votes_constraints (d : db) : post_votes d = [] -> constraints_hold d.
Proof. intros H. split; rewrite H; constructor. Qed.

(** ** One vote per user and post *)

Lemma delete_own_vote_Ok (d : db) (u p : uuid) (v : Z) :
  constraints_hold d ->
  In (PostVotes.mk p u v) (post_votes d) ->
  (forall q, In q (posts d) -> Posts.id q = p ->
             int4_min <= Posts.score q - v <= int4_max) ->
  exists rows,
    shifted (fun i => if uuid_eqb i p then - v else 0) (posts d) rows
    /\ delete_post_votes (Some u) (eq_user_id_eq_post_id u p) d
       = Ok {| clubs := clubs d;
               club_memberships := club_memberships d;
               posts := rows;
               post_votes :=
                 filter (fun x => negb (eq_user_id_eq_post_id u p x)) (post_votes d) |}.
Proof.
  intros Hc Hin Hrange.
  destruct (update_post_score_Ok DELETE (PostVotes.mk p u v) (posts d)) as [rows Hrows].
  { intros q Hq Hid. specialize (Hrange q Hq Hid). simpl. lia. }
  exists rows. split; [exact (update_post_score_shifted _ _ _ _ Hrows)|].
  unfold delete_post_votes.
  rewrite (filter_ext _ (eq_user_id_eq_post_id u p) (own_vote_hit u p)).
  rewrite (filter_ext (fun x => negb (users_can_remove_own_vote (Some u) x
                                      && eq_user_id_eq_post_id u p x))
                      (fun x => negb (eq_user_id_eq_post_id u p x)))
    by (intros x; now rewrite own_vote_hit).
  rewrite (filter_unique_vote u p (PostVotes.mk p u v));
    [|apply Hc|exact Hin|reflexivity].
  cbn [on_vote_change]. rewrite bind_Ok_r, Hrows. reflexivity.
Qed.

Lemma shifted_In_fwd (delta : uuid -> Z) (rows rows' : list Posts.row) (q : Posts.row) :
  shifted delta rows rows' -> In q rows ->
  In (Posts.with_score q (Posts.score q + delta (Posts.id q))) rows'.
Proof.
  induction 1 as [|p p' r r' Hp _ IH]; simpl; [tauto|].
  intros [<- | Hin]; [left; now subst p' | right; now apply IH].
Qed.

Lemma update_posts_set_score_Ok_inv (e : Z -> result Z) (i : uuid)
    (rows rows' : list Posts.row) :
  update_posts_set_score e i rows = Ok rows' ->
  forall q, In q rows -> Posts.id q = i -> exists s, e (Posts.score q) = Ok s.
Proof.
  revert rows'. induction rows as [|p rows IH]; intros rows' H q Hq Hid;
    [contradiction|].
  simpl in H. ran H p' Hp'. ran H rest' Hrest.
  destruct Hq as [-> | Hq]; [|exact (IH _ Hrest q Hq Hid)].
  apply uuid_eqb_eq in Hid. rewrite Hid in Hp'.
  apply bind_Ok_inv in Hp' as (s0 & Hs & _). eauto.
Qed.

Lemma update_post_score_Ok_inv (op : tg_op) (r : PostVotes.row)
    (rows rows' : list Posts.row) :
  update_post_score op r rows = Ok rows' ->
  forall q, In q rows -> Posts.id q = PostVotes.post_id r ->
            int4_min <= Posts.score q + signed op (PostVotes.vote_value r) <= int4_max.
Proof.
  intros H q Hq Hid. destruct op; simpl in H;
    destruct (update_posts_set_score_Ok_inv _ _ _ _ H q Hq Hid) as [s0 Hs].
  - apply int4pl_Ok_inv in Hs. simpl. lia.
  - apply int4mi_Ok_inv in Hs. simpl. lia.
Qed.

(** Under the constraints the delete call of a user on a post fires the
    trigger for the one vote there is. *)
Lemma delete_own_vote_eq (d : db) (u p : uuid) (v : Z) :
  constraints_hold d ->
  In (PostVotes.mk p u v) (post_votes d) ->
  delete_post_votes (Some u) (eq_user_id_eq_post_id u p) d
  = (rows <- update_post_score DELETE (PostVotes.mk p u v) (posts d) ;;
     Ok {| clubs := clubs d;
           club_memberships := club_memberships d;
           posts := rows;
           post_votes :=
             filter (fun x => negb (eq_user_id_eq_post_id u p x)) (post_votes d) |}).
Proof.
  intros Hc Hin. unfold delete_post_votes.
  rewrite (filter_ext _ (eq_user_id_eq_post_id u p) (own_vote_hit u p)).
  rewrite (filter_ext (fun x => negb (users_can_remove_own_vote (Some u) x
                                      && eq_user_id_eq_post_id u p x))
                      (fun x => negb (eq_user_id_eq_post_id u p x)))
    by (intros x; now rewrite own_vote_hit).
  rewrite (filter_unique_vote u p (PostVotes.mk p u v));
    [|apply Hc|exact Hin|reflexivity].
  cbn [on_vote_change]. now rewrite bind_Ok_r.
Qed.

(** C2, as the specification states it, fails on two counts.  User 7 has
    voted the post of [near_top_db] down, its score being one below the top
    of the [INTEGER] range.  A second vote by user 7 is refused, but by the
    insert policy, with the error the specification files as
    [AuthorizationError]; the unique key, whose error is its
    [ConflictError], is not reached.  And once user 7 has removed the vote,
    which puts the score at the top of the range, a new up-vote is not
    accepted: the trigger raises. *)
Lemma second_vote_is_no_conflict_and_revote_can_raise :
  commit top_score_db (InsertVote (Some 7%N) (PostVotes.mk 1%N 7%N (-1))) = near_top_db
  /\ constraints_hold near_top_db
  /\ In (PostVotes.mk 1%N 7%N (-1)) (post_votes near_top_db)
  /\ insert_post_vote (Some 7%N) (PostVotes.mk 1%N 7%N 1) near_top_db
     = Err (row_security_violation "post_votes")
  /\ class_of (row_security_violation "post_votes") <> Some ConflictError
  /\ delete_post_votes (Some 7%N) (eq_user_id_eq_post_id 7%N 1%N) near_top_db
     = Ok top_score_db
  /\ insert_post_vote (Some 7%N) (PostVotes.mk 1%N 7%N 1) top_score_db
     = Err numeric_value_out_of_range.
Proof.
  split; [reflexivity|]. split.
  { split; simpl.
    - constructor; [intros []|constructor].
    - repeat constructor.
    - repeat constructor. }
  split; [left; reflexivity|]. split; [reflexivity|].
  split; [discriminate|]. split; reflexivity.
Qed.

(** C2 (amended). When a vote by [u] on [p] exists in a database that
    satisfies its constraints, a plain insert of another vote by [u] on [p]
    is rejected, whatever its value: the insert policy refuses the row
    because [has_voted_on_post] holds, which is the error class
    [AuthorizationError] of the specification (the row would break
    [UNIQUE(user_id, post_id)] as well, but that check is not reached), and
    the database stays as it was.  The user's delete call removes the vote
    and an insert of a new vote by [u] on [p] goes through with value 1 and
    with value -1 exactly when the score of [p] without the old vote is
    neither at the top nor at the bottom of the [INTEGER] range. *)
Theorem second_vote_rejected_until_first_removed (d : db) (u p : uuid) (v : Z) :
  constraints_hold d ->
  In (PostVotes.mk p u v) (post_votes d) ->
  (forall w,
      has_voted_on_post d u p = true
      /\ post_votes_user_post_unique d (PostVotes.mk p u w) = false
      /\ insert_post_vote (Some u) (PostVotes.mk p u w) d
         = Err (row_security_violation "post_votes")
      /\ class_of (row_security_violation "post_votes") = Some AuthorizationError
      /\ commit d (InsertVote (Some u) (PostVotes.mk p u w)) = d)
  /\ ((forall q, In q (posts d) -> Posts.id q = p ->
                 int4_min + 1 <= Posts.score q - v <= int4_max - 1)
      <-> exists d1,
            delete_post_votes (Some u) (eq_user_id_eq_post_id u p) d = Ok d1
            /\ has_voted_on_post d1 u p = false
            /\ forall w, w = 1 \/ w = -1 ->
                 exists d2,
                   insert_post_vote (Some u) (PostVotes.mk p u w) d1 = Ok d2
                   /\ post_votes d2 = post_votes d1 ++ [PostVotes.mk p u w]).
Proof.
  intros Hc Hin.
  assert (Hvoted : has_voted_on_post d u p = true).
  { unfold has_voted_on_post. apply (existsb_In_true _ _ _ Hin).
    simpl. now rewrite !uuid_eqb_refl. }
  assert (Hex : post_exists d p = true).
  { destruct Hc as [_ _ Hfk]. rewrite Forall_forall in Hfk. apply (Hfk _ Hin). }
  split; [|split].
  - intros w.
    assert (Hrej : insert_post_vote (Some u) (PostVotes.mk p u w) d
                   = Err (row_security_violation "post_votes")).
    { unfold insert_post_vote, members_can_vote. simpl.
      now rewrite uuid_eqb_refl, Hvoted. }
    repeat split; try assumption.
    + unfold post_votes_user_post_unique. simpl.
      unfold has_voted_on_post in Hvoted. now rewrite Hvoted.
    + unfold commit. simpl. now rewrite Hrej.
  - intros Hrange.
    destruct (delete_own_vote_Ok d u p v Hc Hin) as (rows & Hsh & Hdel).
    { intros q Hq Hid. specialize (Hrange q Hq Hid). lia. }
    eexists. split; [exact Hdel|].
    assert (Hnot : has_voted_on_post
                     {| clubs := clubs d; club_memberships := club_memberships d;
                        posts := rows;
                        post_votes := filter (fun x => negb (eq_user_id_eq_post_id u p x))
                                             (post_votes d) |} u p = false).
    { unfold has_voted_on_post. simpl.
      apply (existsb_filter_negb (eq_user_id_eq_post_id u p)). }
    split; [exact Hnot|].
    intros w Hw.
    edestruct (insert_post_vote_Ok _ u p w Hnot Hw) as (rows2 & _ & Hins).
    + unfold post_exists. simpl. rewrite (shifted_post_exists _ _ _ p Hsh). exact Hex.
    + simpl. intros q' Hq' Hid'.
      destruct (shifted_In _ _ _ _ Hsh Hq') as (q & Hq & Hid & Hsc).
      rewrite Hid in Hid'. specialize (Hrange q Hq Hid').
      rewrite Hsc, Hid', uuid_eqb_refl. lia.
    + eexists. split; [exact Hins|reflexivity].
  - intros (d1 & Hdel & _ & Hins) q Hq Hid.
    rewrite (delete_own_vote_eq d u p v Hc Hin) in Hdel.
    ran Hdel rows1 Hrows1. injection Hdel as <-.
    pose proof (update_post_score_Ok_inv _ _ _ _ Hrows1 q Hq Hid) as Hr0.
    pose proof (shifted_In_fwd _ _ _ q (update_post_score_shifted _ _ _ _ Hrows1) Hq)
      as Hq1.
    cbn [PostVotes.post_id PostVotes.vote_value signed] in Hr0, Hq1.
    rewrite Hid, uuid_eqb_refl in Hq1.
    assert (Hw : forall w, w = 1 \/ w = -1 ->
                           int4_min <= Posts.score q - v + w <= int4_max).
    { intros w Hw. destruct (Hins w Hw) as (d2 & Hins2 & _).
      unfold insert_post_vote in Hins2.
      do 4 (apply bind_Ok_inv in Hins2 as (? & _ & Hins2)).
      ran Hins2 rows2 Hrows2. cbn [on_vote_change posts] in Hrows2.
      rewrite bind_Ok_r in Hrows2.
      pose proof (update_post_score_Ok_inv _ _ _ _ Hrows2 _ Hq1 Hid) as Hr.
      cbn [PostVotes.post_id PostVotes.vote_value signed Posts.score
           Posts.with_score] in Hr. lia. }
    pose proof (Hw 1 (or_introl eq_refl)). pose proof (Hw (-1) (or_intror eq_refl)).
    lia.
Qed.

(** ** Who may vote and who may post *)

Lemma insert_post_vote_ignores_memberships (auth : option uuid)
    (NEW : PostVotes.row) (d : db) (ms : list ClubMemberships.row) :
  insert_post_vote auth NEW (with_club_memberships d ms)
  = (d' <- insert_post_vote auth NEW d ;; Ok (with_club_memberships d' ms)).
Proof.
  unfold insert_post_vote, members_can_vote, has_voted_on_post,
    post_votes_user_post_unique, post_exists, with_club_memberships.
  cbn [posts post_votes clubs club_memberships].
  destruct auth as [uid|]; [|reflexivity].
  destruct (uuid_eqb uid (PostVotes.user_id NEW)
            && negb (existsb _ (post_votes d))); [|reflexivity].
  destruct (vote_value_check NEW); [|reflexivity].
  destruct (negb (existsb _ (post_votes d))); [|reflexivity].
  destruct (existsb _ (posts d)); [|reflexivity].
  cbn [require bind].
  destruct (on_vote_change INSERT [NEW] (posts d)); reflexivity.
Qed.

(** C3. A signed-in user [u] who is not a member of a post's club can still
    vote on it: with no earlier vote by [u] on the post, a value of 1 or -1
    and a score that stays an [INTEGER], the insert goes through; more
    generally whether a vote insert goes through never depends on the
    membership table.  An insert of a post for a club that [u] is not a member of is
    refused by the insert policy of [posts], and no post insert goes through
    without the caller being a member of the post's club. *)
Theorem voting_needs_no_membership_posting_does (d : db) (u : uuid) :
  (forall post w,
      In post (posts d) ->
      is_club_member d u (Posts.club_id post) = false ->
      has_voted_on_post d u (Posts.id post) = false ->
      w = 1 \/ w = -1 ->
      (forall q, In q (posts d) -> Posts.id q = Posts.id post ->
                 int4_min <= Posts.score q + w <= int4_max) ->
      exists d',
        insert_post_vote (Some u) (PostVotes.mk (Posts.id post) u w) d = Ok d'
        /\ post_votes d' = post_votes d ++ [PostVotes.mk (Posts.id post) u w])
  /\ (forall auth NEW ms,
         is_Ok (insert_post_vote auth NEW (with_club_memberships d ms))
         = is_Ok (insert_post_vote auth NEW d))
  /\ (forall NEW,
         is_club_member d u (Posts.club_id NEW) = false ->
         insert_post (Some u) NEW d = Err (row_security_violation "posts"))
  /\ (forall auth NEW d',
         insert_post auth NEW d = Ok d' ->
         exists uid, auth = Some uid
                     /\ uid = Posts.user_id NEW
                     /\ is_club_member d uid (Posts.club_id NEW) = true).
Proof.
  repeat split.
  - intros post w Hin _ Hnot Hw Hrange.
    destruct (insert_post_vote_Ok d u (Posts.id post) w Hnot Hw) as (rows & _ & Hins).
    + unfold post_exists. apply (existsb_In_true _ _ _ Hin), uuid_eqb_refl.
    + exact Hrange.
    + eexists. split; [exact Hins|reflexivity].
  - intros auth NEW ms. rewrite insert_post_vote_ignores_memberships.
    now destruct (insert_post_vote auth NEW d).
  - intros NEW Hnm. unfold insert_post, members_can_create_posts.
    now rewrite Hnm, andb_false_r.
  - intros auth NEW d' H. unfold insert_post in H.
    apply bind_Ok_inv in H as (? & Hpol & _). apply require_Ok_inv in Hpol.
    unfold members_can_create_posts in Hpol.
    destruct auth as [uid|]; [|discriminate].
    apply andb_true_iff in Hpol as [Hu Hm]. apply uuid_eqb_eq in Hu.
    exists uid. auto.
Qed.

(** ** Deltas add up *)

Lemma shifted_fun (d1 d2 : uuid -> Z) (rows a b : list Posts.row) :
  (forall i, d1 i = d2 i) -> shifted d1 rows a -> shifted d2 rows b -> a = b.
Proof.
  intros Hd Ha. revert b.
  induction Ha as [|p p' r r' Hp _ IH]; intros b Hb; inversion Hb; subst.
  - reflexivity.
  - f_equal; [now rewrite Hd | now apply IH].
Qed.

Lemma two_updates_shifted (op1 op2 : tg_op) (r1 r2 : PostVotes.row)
    (rows a : list Posts.row) :
  (rows1 <- update_post_score op1 r1 rows ;; update_post_score op2 r2 rows1) = Ok a ->
  shifted (fun i => delta_of op1 r1 i + delta_of op2 r2 i) rows a.
Proof.
  intros H. apply bind_Ok_inv in H as (rows1 & H1 & H2).
  apply update_post_score_shifted in H1, H2.
  eapply shifted_trans; [|exact H1|exact H2]. reflexivity.
Qed.

Lemma two_updates_Ok (op1 op2 : tg_op) (r1 r2 : PostVotes.row) (rows : list Posts.row) :
  (forall q, In q rows ->
             int4_min <= Posts.score q + delta_of op1 r1 (Posts.id q) <= int4_max
             /\ int4_min <= Posts.score q + delta_of op1 r1 (Posts.id q)
                            + delta_of op2 r2 (Posts.id q) <= int4_max) ->
  exists a,
    (rows1 <- update_post_score op1 r1 rows ;; update_post_score op2 r2 rows1) = Ok a.
Proof.
  intros H.
  destruct (update_post_score_Ok op1 r1 rows) as [rows1 H1].
  { intros q Hq Hid. destruct (H q Hq) as [Hr _]. unfold delta_of in Hr.
    now rewrite Hid, uuid_eqb_refl in Hr. }
  rewrite H1. cbn [bind].
  apply update_post_score_Ok. intros q' Hq' Hid'.
  destruct (shifted_In _ _ _ _ (update_post_score_shifted _ _ _ _ H1) Hq')
    as (q & Hq & Hid & Hsc).
  destruct (H q Hq) as [_ Hr]. unfold delta_of in Hr.
  rewrite Hid in Hid'. apply uuid_eqb_eq in Hid'.
  rewrite Hid' in Hr. rewrite Hsc. exact Hr.
Qed.

Lemma shifted_length (delta : uuid -> Z) (rows rows' : list Posts.row) :
  shifted delta rows rows' -> map unscored rows' = map unscored rows.
Proof.
  induction 1 as [|p p' r r' Hp _ IH]; simpl; [reflexivity|].
  rewrite IH. now subst p'.
Qed.

Lemma commit_Ok (d d' : db) (t : vote_txn) : run_txn t d = Ok d' -> commit d t = d'.
Proof. unfold commit. now intros ->. Qed.

Lemma shifted_scores (delta : uuid -> Z) (rows rows' : list Posts.row) :
  shifted delta rows rows' ->
  Forall2 (fun p p' => Posts.score p' = Posts.score p + delta (Posts.id p)) rows rows'.
Proof.
  induction 1 as [|p p' r r' Hp _ IH]; constructor; [|exact IH]. now subst p'.
Qed.

(** Two users without a vote on the post vote one after the other. *)
Lemma two_votes_committed (d : db) (u1 u2 p : uuid) (w1 w2 : Z) :
  u1 <> u2 ->
  has_voted_on_post d u1 p = false -> has_voted_on_post d u2 p = false ->
  w1 = 1 \/ w1 = -1 -> w2 = 1 \/ w2 = -1 ->
  post_exists d p = true ->
  (forall q, In q (posts d) -> Posts.id q = p ->
             int4_min <= Posts.score q + w1 <= int4_max
             /\ int4_min <= Posts.score q + w1 + w2 <= int4_max) ->
  exists rows,
    shifted (fun i => if uuid_eqb i p then w1 + w2 else 0) (posts d) rows
    /\ commit_all d [InsertVote (Some u1) (PostVotes.mk p u1 w1);
                     InsertVote (Some u2) (PostVotes.mk p u2 w2)]
       = {| clubs := clubs d;
            club_memberships := club_memberships d;
            posts := rows;
            post_votes := post_votes d ++ [PostVotes.mk p u1 w1; PostVotes.mk p u2 w2] |}.
Proof.
  intros Hne Hn1 Hn2 Hw1 Hw2 Hex Hrange.
  destruct (insert_post_vote_Ok d u1 p w1 Hn1 Hw1 Hex) as (rows1 & Hsh1 & Hins1).
  { intros q Hq Hid. now destruct (Hrange q Hq Hid). }
  set (d1 := {| clubs := clubs d; club_memberships := club_memberships d;
                posts := rows1;
                post_votes := post_votes d ++ [PostVotes.mk p u1 w1] |}) in *.
  assert (Hn2' : has_voted_on_post d1 u2 p = false).
  { unfold has_voted_on_post in *. cbn [d1 post_votes].
    rewrite existsb_app, Hn2. cbn [existsb PostVotes.user_id PostVotes.post_id].
    destruct (uuid_eqb u1 u2) eqn:Hu; [apply uuid_eqb_eq in Hu; contradiction|].
    reflexivity. }
  destruct (insert_post_vote_Ok d1 u2 p w2 Hn2' Hw2) as (rows2 & Hsh2 & Hins2).
  { unfold post_exists. cbn [d1 posts].
    rewrite (shifted_post_exists _ _ _ p Hsh1). exact Hex. }
  { cbn [d1 posts]. intros q' Hq' Hid'.
    destruct (shifted_In _ _ _ _ Hsh1 Hq') as (q & Hq & Hid & Hsc).
    rewrite Hid in Hid'. destruct (Hrange q Hq Hid') as [_ Hr].
    rewrite Hsc, Hid', uuid_eqb_refl. exact Hr. }
  exists rows2. split.
  - eapply shifted_trans; [|exact Hsh1|exact Hsh2].
    intros i. cbv beta. destruct (uuid_eqb i p); lia.
  - cbn [commit_all fold_left].
    rewrite (commit_Ok d d1 (InsertVote (Some u1) (PostVotes.mk p u1 w1)) Hins1).
    rewrite (commit_Ok d1 _ (InsertVote (Some u2) (PostVotes.mk p u2 w2)) Hins2).
    cbn [d1 clubs club_memberships post_votes]. now rewrite <- app_assoc.
Qed.

(** C7, as the specification states it, fails at the ends of the [INTEGER]
    range.  With the score of the post at the top of the range, the delta of
    an up-vote followed by that of a down-vote raises at the first update,
    while the two in the other order go through; and of the two votes cast
    in the first order the up-vote is rolled back, so the final scores of
    the two orders differ. *)
Lemma deltas_at_integer_max_depend_on_order :
  (rows1 <- update_post_score INSERT (PostVotes.mk 1%N 8%N 1) (posts top_score_db) ;;
   update_post_score INSERT (PostVotes.mk 1%N 9%N (-1)) rows1)
  = Err numeric_value_out_of_range
  /\ (rows2 <- update_post_score INSERT (PostVotes.mk 1%N 9%N (-1)) (posts top_score_db) ;;
      update_post_score INSERT (PostVotes.mk 1%N 8%N 1) rows2)
     = Ok (posts top_score_db)
  /\ map Posts.score
         (posts (commit_all top_score_db
                   [InsertVote (Some 8%N) (PostVotes.mk 1%N 8%N 1);
                    InsertVote (Some 9%N) (PostVotes.mk 1%N 9%N (-1))]))
     = [int4_max - 1]
  /\ map Posts.score
         (posts (commit_all top_score_db
                   [InsertVote (Some 9%N) (PostVotes.mk 1%N 9%N (-1));
                    InsertVote (Some 8%N) (PostVotes.mk 1%N 8%N 1)]))
     = [int4_max].
Proof. repeat split. Qed.

(** C7 (amended). The trigger adds to the stored score, it does not assign
    it.  Firing it for two votes in one order or in the other leaves the
    same [posts] table whenever both orders go through: the rows are the
    same but for the scores, and every score is the old one plus the two
    deltas (the vote's value on insert, its opposite on delete) of its post.
    Both orders go through, with one result, as long as every score stays
    within the [INTEGER] range under either delta and under both.  So when
    two users who have not voted on a post vote on it, in one order or the
    other, the posts table ends the same, the score of the post is the old
    one plus both values, and both votes are stored. *)
Theorem score_deltas_commute (rows : list Posts.row) (op1 op2 : tg_op)
    (r1 r2 : PostVotes.row) :
  (forall a b,
      (rows1 <- update_post_score op1 r1 rows ;; update_post_score op2 r2 rows1) = Ok a ->
      (rows2 <- update_post_score op2 r2 rows ;; update_post_score op1 r1 rows2) = Ok b ->
      a = b
      /\ map unscored a = map unscored rows
      /\ Forall2 (fun p p' => Posts.score p'
                              = Posts.score p + delta_of op1 r1 (Posts.id p)
                                + delta_of op2 r2 (Posts.id p))
                 rows a)
  /\ ((forall q, In q rows ->
         int4_min <= Posts.score q + delta_of op1 r1 (Posts.id q) <= int4_max
         /\ int4_min <= Posts.score q + delta_of op2 r2 (Posts.id q) <= int4_max
         /\ int4_min <= Posts.score q + delta_of op1 r1 (Posts.id q)
                        + delta_of op2 r2 (Posts.id q) <= int4_max) ->
      exists a,
        (rows1 <- update_post_score op1 r1 rows ;; update_post_score op2 r2 rows1) = Ok a
        /\ (rows2 <- update_post_score op2 r2 rows ;; update_post_score op1 r1 rows2) = Ok a)
  /\ (forall (d : db) (u1 u2 p : uuid) (w1 w2 : Z),
        posts d = rows ->
        u1 <> u2 ->
        has_voted_on_post d u1 p = false -> has_voted_on_post d u2 p = false ->
        w1 = 1 \/ w1 = -1 -> w2 = 1 \/ w2 = -1 ->
        post_exists d p = true ->
        (forall q, In q rows -> Posts.id q = p ->
                   int4_min <= Posts.score q + w1 <= int4_max
                   /\ int4_min <= Posts.score q + w2 <= int4_max
                   /\ int4_min <= Posts.score q + w1 + w2 <= int4_max) ->
        let t1 := InsertVote (Some u1) (PostVotes.mk p u1 w1) in
        let t2 := InsertVote (Some u2) (PostVotes.mk p u2 w2) in
        posts (commit_all d [t1; t2]) = posts (commit_all d [t2; t1])
        /\ map unscored (posts (commit_all d [t1; t2])) = map unscored rows
        /\ Forall2 (fun q q' => Posts.score q'
                                = if uuid_eqb (Posts.id q) p
                                  then Posts.score q + w1 + w2 else Posts.score q)
                   rows (posts (commit_all d [t1; t2]))
        /\ post_votes (commit_all d [t1; t2])
           = post_votes d ++ [PostVotes.mk p u1 w1; PostVotes.mk p u2 w2]
        /\ post_votes (commit_all d [t2; t1])
           = post_votes d ++ [PostVotes.mk p u2 w2; PostVotes.mk p u1 w1]).
Proof.
  assert (Hcomm : forall a b,
      (rows1 <- update_post_score op1 r1 rows ;; update_post_score op2 r2 rows1) = Ok a ->
      (rows2 <- update_post_score op2 r2 rows ;; update_post_score op1 r1 rows2) = Ok b ->
      a = b
      /\ map unscored a = map unscored rows
      /\ Forall2 (fun p p' => Posts.score p'
                              = Posts.score p + delta_of op1 r1 (Posts.id p)
                                + delta_of op2 r2 (Posts.id p))
                 rows a).
  { intros a b Ha Hb.
    apply two_updates_shifted in Ha, Hb. split; [|split].
    - eapply shifted_fun; [|exact Ha|exact Hb]. intros i. simpl. lia.
    - exact (shifted_length _ _ _ Ha).
    - eapply Forall2_impl; [|exact (shifted_scores _ _ _ Ha)].
      intros x y Hxy. cbv beta in Hxy. lia. }
  split; [exact Hcomm|]. split.
  - intros Hrange.
    destruct (two_updates_Ok op1 op2 r1 r2 rows) as [a Ha].
    { intros q Hq. destruct (Hrange q Hq) as (? & ? & ?). auto. }
    destruct (two_updates_Ok op2 op1 r2 r1 rows) as [b Hb].
    { intros q Hq. destruct (Hrange q Hq) as (? & ? & ?). split; [auto|lia]. }
    exists a. split; [exact Ha|].
    destruct (Hcomm a b Ha Hb) as [-> _]. exact Hb.
  - intros d u1 u2 p w1 w2 Hrows Hne Hn1 Hn2 Hw1 Hw2 Hex Hrange t1 t2.
    subst rows t1 t2.
    destruct (two_votes_committed d u1 u2 p w1 w2 Hne Hn1 Hn2 Hw1 Hw2 Hex)
      as (rows12 & Hsh12 & H12).
    { intros q Hq Hid. destruct (Hrange q Hq Hid) as (? & ? & ?). auto. }
    destruct (two_votes_committed d u2 u1 p w2 w1 (not_eq_sym Hne) Hn2 Hn1 Hw2 Hw1 Hex)
      as (rows21 & Hsh21 & H21).
    { intros q Hq Hid. destruct (Hrange q Hq Hid) as (? & ? & ?). split; [auto|lia]. }
    rewrite H12, H21. cbn [posts post_votes].
    split; [|split; [|split; [|split]]]; try reflexivity.
    + eapply shifted_fun; [|exact Hsh12|exact Hsh21].
      intros i. cbv beta. destruct (uuid_eqb i p); lia.
    + exact (shifted_length _ _ _ Hsh12).
    + eapply Forall2_impl; [|exact (shifted_scores _ _ _ Hsh12)].
      intros x y Hxy. cbv beta in Hxy.
      destruct (uuid_eqb (Posts.id x) p); lia.
Qed.

(** ** The vote handler of the feed *)

Lemma find_filter_negb {A : Type} (f : A -> bool) (l : list A) :
  find f (filter (fun a => negb (f a)) l) = None.
Proof.
  induction l as [|a l IH]; simpl; [reflexivity|].
  destruct (f a) eqn:Hf; simpl; [exact IH|]. now rewrite Hf.
Qed.

Lemma find_app_None {A : Type} (f : A -> bool) (l : list A) (x : A) :
  find f l = None -> f x = true -> find f (l ++ [x]) = Some x.
Proof.
  induction l as [|a l IH]; simpl; intros Hn Hx; [now rewrite Hx|].
  destruct (f a); [discriminate | now apply IH].
Qed.

Lemma find_app {A : Type} (f : A -> bool) (l l' : list A) :
  find f (l ++ l') = match find f l with Some x => Some x | None => find f l' end.
Proof.
  induction l as [|a l IH]; simpl; [reflexivity|]. now destruct (f a).
Qed.

Lemma find_filter_kept {A : Type} (f g : A -> bool) (l : list A) :
  (forall a, f a = true -> g a = true) -> find f (filter g l) = find f l.
Proof.
  intros H. induction l as [|a l IH]; simpl; [reflexivity|].
  destruct (g a) eqn:Hg; simpl.
  - now destruct (f a).
  - destruct (f a) eqn:Hf; [|exact IH]. rewrite (H a Hf) in Hg. discriminate.
Qed.

Lemma voted_after_filter (p p' : uuid) (vs : list MainApp.Vote) :
  voted p' (filter (fun v => negb (uuid_eqb (MainApp.post_id v) p)) vs)
  = if uuid_eqb p' p then None else voted p' vs.
Proof.
  unfold voted. destruct (uuid_eqb p' p) eqn:Hp.
  - apply uuid_eqb_eq in Hp. subst p'.
    apply (find_filter_negb (fun v => uuid_eqb (MainApp.post_id v) p)).
  - apply find_filter_kept. intros v Hv. apply uuid_eqb_eq in Hv.
    rewrite Hv, Hp. reflexivity.
Qed.

Lemma voted_after_append (p p' : uuid) (w : Z) (vs : list MainApp.Vote) :
  voted p vs = None ->
  voted p' (vs ++ [MainApp.mkVote p w])
  = if uuid_eqb p' p then Some (MainApp.mkVote p w) else voted p' vs.
Proof.
  unfold voted. intros Hnone. rewrite find_app. cbn [find MainApp.post_id].
  rewrite (uuid_eqb_sym p p').
  destruct (uuid_eqb p' p) eqn:Hp.
  - apply uuid_eqb_eq in Hp. subst p'. now rewrite Hnone.
  - now destruct (find (fun v => uuid_eqb (MainApp.post_id v) p') vs).
Qed.

Lemma displayed_with_0 (p : uuid) (ps : list MainApp.Post) :
  displayed_with p 0 ps = ps.
Proof.
  unfold displayed_with. induction ps as [|q ps IH]; simpl; [reflexivity|].
  rewrite IH. destruct (uuid_eqb (Posts.id q) p); [|reflexivity].
  now rewrite Z.add_0_r, with_score_same.
Qed.

Lemma displayed_with_twice (p : uuid) (a b : Z) (ps : list MainApp.Post) :
  displayed_with p b (displayed_with p a ps) = displayed_with p (a + b) ps.
Proof.
  unfold displayed_with. rewrite map_map. apply map_ext. intros q.
  destruct (uuid_eqb (Posts.id q) p) eqn:Hq;
    cbn [Posts.id Posts.with_score Posts.score]; rewrite Hq; [|reflexivity].
  unfold Posts.with_score; cbn [Posts.score Posts.id]. f_equal. lia.
Qed.

Lemma displayed_with_scores (p : uuid) (delta : Z) (ps : list MainApp.Post) :
  map unscored (displayed_with p delta ps) = map unscored ps
  /\ Forall2 (fun q q' => Posts.score q'
                          = if uuid_eqb (Posts.id q) p
                            then Posts.score q + delta else Posts.score q)
             ps (displayed_with p delta ps).
Proof.
  unfold displayed_with. induction ps as [|q ps [IHu IHs]]; simpl; [now split|].
  split.
  - rewrite IHu. f_equal. now destruct (uuid_eqb (Posts.id q) p).
  - constructor; [|exact IHs]. now destruct (uuid_eqb (Posts.id q) p).
Qed.

(** What the handler does, in terms of [voted] and [displayed_with]: its
    calls, and its updates run one after the other on the state [s]. *)
Lemma handleVote_cases (user : uuid) (seen : list MainApp.Vote) (postId : uuid)
    (value : Z) (s : MainApp.state) :
  let steps := MainApp.handleVote user seen postId value in
  match voted postId seen with
  | None =>
      map fst steps = [MainApp.insert user postId value]
      /\ MainApp.settle steps s
         = {| MainApp.posts := displayed_with postId value (MainApp.posts s);
              MainApp.votes := MainApp.votes s ++ [MainApp.mkVote postId value] |}
  | Some existing =>
      let kept := filter (fun v => negb (uuid_eqb (MainApp.post_id v) postId))
                         (MainApp.votes s) in
      if MainApp.vote_value existing =? value then
        map fst steps = [MainApp.delete_eq_user_id_eq_post_id user postId]
        /\ MainApp.settle steps s
           = {| MainApp.posts :=
                  displayed_with postId (- MainApp.vote_value existing) (MainApp.posts s);
                MainApp.votes := kept |}
      else
        map fst steps = [MainApp.delete_eq_user_id_eq_post_id user postId;
                         MainApp.insert user postId value]
        /\ MainApp.settle steps s
           = {| MainApp.posts :=
                  displayed_with postId (- MainApp.vote_value existing + value)
                                 (MainApp.posts s);
                MainApp.votes := kept ++ [MainApp.mkVote postId value] |}
  end.
Proof.
  unfold voted, MainApp.handleVote.
  destruct (find _ seen) as [existing|]; [|split; reflexivity].
  cbv zeta. destruct (MainApp.vote_value existing =? value);
    cbn [negb map fst MainApp.settle fold_left snd
         MainApp.setPosts MainApp.setVotes MainApp.posts MainApp.votes].
  - split; reflexivity.
  - split; [reflexivity|]. rewrite <- displayed_with_twice. reflexivity.
Qed.

(** The same for a click on a page at rest. *)
Lemma click_cases (user postId : uuid) (value : Z) (s : MainApp.state) :
  match voted postId (MainApp.votes s) with
  | None =>
      MainApp.click user postId value s
      = ({| MainApp.posts := displayed_with postId value (MainApp.posts s);
            MainApp.votes := MainApp.votes s ++ [MainApp.mkVote postId value] |},
         [MainApp.insert user postId value])
  | Some existing =>
      let kept := filter (fun v => negb (uuid_eqb (MainApp.post_id v) postId))
                         (MainApp.votes s) in
      if MainApp.vote_value existing =? value then
        MainApp.click user postId value s
        = ({| MainApp.posts :=
                displayed_with postId (- MainApp.vote_value existing) (MainApp.posts s);
              MainApp.votes := kept |},
           [MainApp.delete_eq_user_id_eq_post_id user postId])
      else
        MainApp.click user postId value s
        = ({| MainApp.posts :=
                displayed_with postId (- MainApp.vote_value existing + value)
                               (MainApp.posts s);
              MainApp.votes := kept ++ [MainApp.mkVote postId value] |},
           [MainApp.delete_eq_user_id_eq_post_id user postId;
            MainApp.insert user postId value])
  end.
Proof.
  pose proof (handleVote_cases user (MainApp.votes s) postId value s) as H.
  cbv zeta in H. unfold MainApp.click.
  destruct (voted postId (MainApp.votes s)) as [existing|].
  - cbv zeta. destruct (MainApp.vote_value existing =? value);
      destruct H as [-> ->]; reflexivity.
  - destruct H as [-> ->]. reflexivity.
Qed.

(** A click on a page at rest, followed by the return of its one or two
    calls, is the click run to its end. *)
Lemma click_run (user postId : uuid) (value : Z) (s : MainApp.state)
    (log : list MainApp.request) :
  MainApp.run user [MainApp.Click postId value; MainApp.Returned 0; MainApp.Returned 0]
              (MainApp.mkPage s [] log)
  = MainApp.mkPage (fst (MainApp.click user postId value s)) []
                   (log ++ snd (MainApp.click user postId value s)).
Proof.
  unfold MainApp.click, MainApp.run.
  cbn [fold_left MainApp.on_event MainApp.shown MainApp.in_flight MainApp.calls app].
  unfold MainApp.handleVote.
  destruct (find _ (MainApp.votes s)) as [existing|];
    [destruct (negb (MainApp.vote_value existing =? value))|];
    cbn [MainApp.resume MainApp.next_call MainApp.settle fold_left snd fst map
         MainApp.shown MainApp.in_flight MainApp.calls];
    now rewrite <- ?app_assoc, ?app_nil_r.
Qed.

(** C9. When the handler sees a vote of value [v] on the post among the
    user's votes, called with the same value it sends the delete call alone,
    and its update leaves no vote on the post and lowers the displayed score
    of the post, and of no other, by [v]; called with the opposite value it
    sends the delete call and then the insert call, and its updates leave
    the new vote and change the displayed score by [-2v].  For the vote
    values 1 and -1 the insert call is sent just when the value is the
    opposite one.  [s] is the state the updates run on; on a page at rest it
    is the state whose votes the handler has seen, and the outcome is that
    of [click]. *)
Theorem handleVote_same_value_toggles (user postId : uuid) (value : Z)
    (seen : list MainApp.Vote) (s : MainApp.state) (existing : MainApp.Vote) :
  voted postId seen = Some existing ->
  MainApp.vote_value existing = 1 \/ MainApp.vote_value existing = -1 ->
  value = 1 \/ value = -1 ->
  let v := MainApp.vote_value existing in
  let s' := MainApp.settle (MainApp.handleVote user seen postId value) s in
  let sent := map fst (MainApp.handleVote user seen postId value) in
  (value = v ->
     sent = [MainApp.delete_eq_user_id_eq_post_id user postId]
     /\ voted postId (MainApp.votes s') = None
     /\ map unscored (MainApp.posts s') = map unscored (MainApp.posts s)
     /\ Forall2 (fun p p' => Posts.score p'
                             = if uuid_eqb (Posts.id p) postId
                               then Posts.score p - v else Posts.score p)
                (MainApp.posts s) (MainApp.posts s'))
  /\ (value = - v ->
        sent = [MainApp.delete_eq_user_id_eq_post_id user postId;
                MainApp.insert user postId (- v)]
        /\ voted postId (MainApp.votes s') = Some (MainApp.mkVote postId (- v))
        /\ map unscored (MainApp.posts s') = map unscored (MainApp.posts s)
        /\ Forall2 (fun p p' => Posts.score p'
                                = if uuid_eqb (Posts.id p) postId
                                  then Posts.score p - 2 * v else Posts.score p)
                   (MainApp.posts s) (MainApp.posts s'))
  /\ (In (MainApp.insert user postId value) sent <-> value = - v)
  /\ (MainApp.votes s = seen -> MainApp.click user postId value s = (s', sent)).
Proof.
  intros Hfind Hv Hvalue v s' sent. subst v s' sent.
  pose proof (handleVote_cases user seen postId value s) as H.
  cbv zeta in H. rewrite Hfind in H.
  assert (Hgone : voted postId
                    (filter (fun x => negb (uuid_eqb (MainApp.post_id x) postId))
                            (MainApp.votes s)) = None).
  { apply (find_filter_negb (fun x => uuid_eqb (MainApp.post_id x) postId)). }
  destruct (Z.eqb_spec (MainApp.vote_value existing) value) as [Heq|Hne];
    destruct H as [Hsent Hs]; rewrite Hsent, Hs;
    cbn [MainApp.votes MainApp.posts].
  - split; [|split; [|split]].
    + intros _. split; [reflexivity|]. split; [exact Hgone|].
      destruct (displayed_with_scores postId (- MainApp.vote_value existing)
                  (MainApp.posts s)) as [Hu Hsc].
      split; [exact Hu|].
      eapply Forall2_impl; [|exact Hsc]. intros a b Hab. cbv beta in Hab.
      destruct (uuid_eqb (Posts.id a) postId); lia.
    + intros Hopp. exfalso. lia.
    + split; [intros [H|[]]; discriminate | intros Hopp; exfalso; lia].
    + intros <-. unfold MainApp.click. now rewrite Hsent, Hs.
  - split; [|split; [|split]].
    + intros Hsame. exfalso. now apply Hne.
    + intros ->. split; [reflexivity|]. split.
      * rewrite (voted_after_append postId postId _ _ Hgone).
        now rewrite uuid_eqb_refl.
      * destruct (displayed_with_scores postId
                    (- MainApp.vote_value existing + - MainApp.vote_value existing)
                    (MainApp.posts s)) as [Hu Hsc].
        split; [exact Hu|].
        eapply Forall2_impl; [|exact Hsc]. intros a b Hab. cbv beta in Hab.
        destruct (uuid_eqb (Posts.id a) postId); lia.
    + split; [intros _; lia | intros ->; simpl; auto].
    + intros <-. unfold MainApp.click. now rewrite Hsent, Hs.
Qed.

(** On the database the delete call of the handler, run where the user's
    vote is stored, removes it and lowers the stored score by its value, as
    the handler shows it. *)
Lemma toggle_call_removes_vote (d : db) (u p : uuid) (v : Z) :
  constraints_hold d ->
  In (PostVotes.mk p u v) (post_votes d) ->
  (forall q, In q (posts d) -> Posts.id q = p ->
             int4_min <= Posts.score q - v <= int4_max) ->
  let d' := commit_all d (map (MainApp.statement u)
                              [MainApp.delete_eq_user_id_eq_post_id u p]) in
  has_voted_on_post d' u p = false
  /\ shifted (fun i => if uuid_eqb i p then - v else 0) (posts d) (posts d').
Proof.
  intros Hc Hin Hrange.
  destruct (delete_own_vote_Ok d u p v Hc Hin Hrange) as (rows & Hsh & Hdel).
  cbn [map MainApp.statement commit_all fold_left]. unfold commit.
  cbn [run_txn]. rewrite Hdel. cbn [posts]. split; [|exact Hsh].
  unfold has_voted_on_post. cbn [post_votes].
  apply (existsb_filter_negb (eq_user_id_eq_post_id u p)).
Qed.

(** ** [sort] with a descending key comparator is the stable sort *)

Section SortByKeyDescending.

Context {A : Type}.
Variable key : A -> Z.

Lemma js_insert_perm (cmp : A -> A -> Z) (x : A) (l : list A) :
  Permutation (x :: l) (js_insert cmp x l).
Proof.
  induction l as [|y l IH]; simpl; [reflexivity|].
  destruct (cmp x y <=? 0); [reflexivity|].
  rewrite perm_swap. now apply perm_skip.
Qed.

Lemma js_sort_perm (cmp : A -> A -> Z) (l : list A) :
  Permutation l (js_sort cmp l).
Proof.
  induction l as [|x l IH]; simpl; [reflexivity|].
  rewrite <- js_insert_perm. now apply perm_skip.
Qed.

Lemma js_sort_In (cmp : A -> A -> Z) (l : list A) (x : A) :
  In x (js_sort cmp l) <-> In x l.
Proof.
  split; apply Permutation_in;
    [symmetry; apply js_sort_perm | apply js_sort_perm].
Qed.

Lemma js_insert_sorted (x : A) (l : list A) :
  StronglySorted (fun a b => key a >= key b) l ->
  StronglySorted (fun a b => key a >= key b) (js_insert (descending key) x l).
Proof.
  induction 1 as [|y l Hl IH Hy]; simpl; [repeat constructor|].
  unfold descending at 1.
  destruct (Z.leb_spec (key y - key x) 0) as [Hle|Hgt].
  - constructor; [now constructor|].
    constructor; [lia|]. eapply Forall_impl; [|exact Hy]. simpl. intros; lia.
  - constructor; [exact IH|].
    eapply Permutation_Forall; [apply js_insert_perm|].
    constructor; [lia|exact Hy].
Qed.

Lemma js_sort_sorted (l : list A) :
  StronglySorted (fun a b => key a >= key b) (js_sort (descending key) l).
Proof.
  induction l as [|x l IH]; simpl; [constructor|].
  now apply js_insert_sorted.
Qed.

Lemma js_insert_filter_key (k : Z) (x : A) (l : list A) :
  filter (fun a => key a =? k) (js_insert (descending key) x l)
  = filter (fun a => key a =? k) (x :: l).
Proof.
  induction l as [|y l IH]; [reflexivity|].
  cbn [js_insert]. unfold descending at 1.
  destruct (Z.leb_spec (key y - key x) 0) as [Hle|Hgt]; [reflexivity|].
  cbn [filter] in *. rewrite IH.
  destruct (Z.eqb_spec (key x) k), (Z.eqb_spec (key y) k); try reflexivity.
  exfalso; lia.
Qed.

Lemma js_sort_filter_key (k : Z) (l : list A) :
  filter (fun a => key a =? k) (js_sort (descending key) l)
  = filter (fun a => key a =? k) l.
Proof.
  induction l as [|x l IH]; [reflexivity|].
  cbn [js_sort fold_right]. fold (js_sort (descending key) l).
  rewrite js_insert_filter_key. cbn [filter]. now rewrite IH.
Qed.

Lemma js_sort_stable (l : list A) :
  stable_sorted_desc key l (js_sort (descending key) l).
Proof.
  split; [apply js_sort_perm|]. split; [apply js_sort_sorted|].
  intros k. apply js_sort_filter_key.
Qed.

(** The three conditions leave one output only. *)
Lemma sorted_same_key_classes_eq (l1 l2 : list A) :
  StronglySorted (fun a b => key a >= key b) l1 ->
  StronglySorted (fun a b => key a >= key b) l2 ->
  (forall k, filter (fun a => key a =? k) l1 = filter (fun a => key a =? k) l2) ->
  l1 = l2.
Proof.
  intros H1. revert l2.
  induction H1 as [|a l1 Hs1 IH Ha]; intros l2 H2 Hf.
  - destruct l2 as [|b l2]; [reflexivity|].
    specialize (Hf (key b)). simpl in Hf. rewrite Z.eqb_refl in Hf. discriminate.
  - destruct H2 as [|b l2 Hs2 Hb].
    { specialize (Hf (key a)). simpl in Hf. rewrite Z.eqb_refl in Hf. discriminate. }
    assert (Hab : key a = key b).
    { assert (In a (b :: l2)) as [->|Hin].
      { apply (filter_In (fun x => key x =? key a)). rewrite <- Hf.
        simpl. rewrite Z.eqb_refl. now left. }
      { reflexivity. }
      assert (In b (a :: l1)) as [->|Hin'].
      { apply (filter_In (fun x => key x =? key b)). rewrite Hf.
        simpl. rewrite Z.eqb_refl. now left. }
      { reflexivity. }
      rewrite Forall_forall in Ha, Hb.
      specialize (Ha b Hin'). specialize (Hb a Hin). lia. }
    assert (Hhead := Hf (key a)). simpl in Hhead.
    rewrite Z.eqb_refl, <- Hab, Z.eqb_refl in Hhead.
    injection Hhead as <- Htail.
    f_equal. apply IH; [exact Hs2|].
    intros k. destruct (Z.eq_dec k (key a)) as [->|Hk]; [exact Htail|].
    specialize (Hf k). simpl in Hf.
    destruct (Z.eqb_spec (key a) k); [congruence|]. exact Hf.
Qed.

Lemma stable_sorted_desc_unique (input out1 out2 : list A) :
  stable_sorted_desc key input out1 -> stable_sorted_desc key input out2 ->
  out1 = out2.
Proof.
  intros (_ & Hs1 & Hf1) (_ & Hs2 & Hf2).
  apply sorted_same_key_classes_eq; auto.
  intros k. now rewrite Hf1, Hf2.
Qed.

End SortByKeyDescending.

(** ** Searching a lowered text *)














(** ** Ranking *)

Lemma windows_not_new (sort : string) (window : window_ms) :
  MainApp.windows sort = Some window -> String.eqb sort "new" = false.
Proof.
  intros H. destruct (String.eqb_spec sort "new") as [->|]; [discriminate|reflexivity].
Qed.

Lemma windows_keys (sort : string) (window : window_ms) :
  MainApp.windows sort = Some window ->
  (sort = "top-3m"%string /\ window = Finite (90 * MainApp.day_ms))
  \/ (sort = "top-6m"%string /\ window = Finite (180 * MainApp.day_ms))
  \/ (sort = "top-1y"%string /\ window = Finite (365 * MainApp.day_ms))
  \/ (sort = "top-all"%string /\ window = Infinity).
Proof.
  unfold MainApp.windows.
  destruct (String.eqb_spec sort "top-3m") as [->|_]; [intros [= <-]; auto|].
  destruct (String.eqb_spec sort "top-6m") as [->|_]; [intros [= <-]; auto|].
  destruct (String.eqb_spec sort "top-1y") as [->|_]; [intros [= <-]; auto|].
  destruct (String.eqb_spec sort "top-all") as [->|_]; [intros [= <-]; auto 6|].
  discriminate.
Qed.

Lemma filteredPosts_top (ps : list Posts.row) (sort : string) (window : window_ms)
    (now : Z) :
  MainApp.windows sort = Some window ->
  MainApp.filteredPosts ps EmptyString sort now
  = js_sort (descending Posts.score) (filter (MainApp.in_window window now) ps).
Proof.
  intros H. unfold MainApp.filteredPosts.
  now rewrite (windows_not_new _ _ H), H.
Qed.

Lemma filteredPosts_new (ps : list Posts.row) (now : Z) :
  MainApp.filteredPosts ps EmptyString "new" now
  = js_sort (descending Posts.created_at) ps.
Proof. reflexivity. Qed.

Lemma in_window_iff (window : window_ms) (now : Z) (p : Posts.row) :
  MainApp.in_window window now p = true
  <-> match window with
      | Finite ms => now - Posts.created_at p < ms
      | Infinity => True
      end.
Proof.
  destruct window as [ms|]; simpl; [apply Z.ltb_lt | tauto].
Qed.

Lemma filter_all {A : Type} (f : A -> bool) (l : list A) :
  (forall a, f a = true) -> filter f l = l.
Proof.
  intros H. induction l as [|a l IH]; simpl; [reflexivity|]. now rewrite H, IH.
Qed.

(** C4. Under a Top mode, that is a key [sort] of the table [windows] with its
    window (the 3 months, 6 months, 1 year and all-time modes and no other),
    the feed keeps exactly the posts with [now - created_at] below the
    window (all of them when the window is [Infinity], the all-time mode)
    and is the stable sort of the kept posts by score, highest first. *)
Theorem top_keeps_window_then_sorts_by_score (ps : list Posts.row)
    (sort : string) (window : window_ms) (now : Z) :
  MainApp.windows sort = Some window ->
  let kept := filter (MainApp.in_window window now) ps in
  ((sort = "top-3m"%string /\ window = Finite (90 * MainApp.day_ms))
   \/ (sort = "top-6m"%string /\ window = Finite (180 * MainApp.day_ms))
   \/ (sort = "top-1y"%string /\ window = Finite (365 * MainApp.day_ms))
   \/ (sort = "top-all"%string /\ window = Infinity))
  /\ (forall p, In p kept
                <-> In p ps /\ match window with
                               | Finite ms => now - Posts.created_at p < ms
                               | Infinity => True
                               end)
  /\ (window = Infinity -> kept = ps)
  /\ stable_sorted_desc Posts.score kept
       (MainApp.filteredPosts ps EmptyString sort now).
Proof.
  intros Hw kept. split; [exact (windows_keys sort window Hw)|]. split; [|split].
  - intros p. unfold kept. now rewrite filter_In, in_window_iff.
  - intros ->. now apply filter_all.
  - rewrite (filteredPosts_top ps sort window now Hw). apply js_sort_stable.
Qed.

(** C5. Under [new] the feed is the stable sort of the posts by [created_at],
    latest first, so it holds the same posts as the input.  For A (score 3,
    created 2024-01-01), B (score 5, created 2024-06-01) and C (score 1,
    created 2025-01-01) the feed of [A; B; C] is [C; B; A] under [new] and
    [B; A; C] under [top-all]. *)
Theorem new_sorts_by_created_at_descending (ps : list Posts.row) (now : Z) :
  stable_sorted_desc Posts.created_at ps
    (MainApp.filteredPosts ps EmptyString "new" now)
  /\ forall A B C : Posts.row,
       Posts.score A = 3 -> Posts.created_at A = date_ms 2024 1 1 ->
       Posts.score B = 5 -> Posts.created_at B = date_ms 2024 6 1 ->
       Posts.score C = 1 -> Posts.created_at C = date_ms 2025 1 1 ->
       MainApp.filteredPosts [A; B; C] EmptyString "new" now = [C; B; A]
       /\ MainApp.filteredPosts [A; B; C] EmptyString "top-all" now = [B; A; C].
Proof.
  split.
  - rewrite filteredPosts_new. apply js_sort_stable.
  - intros [ia ca ua ta xa sa da] [ib cb ub tb xb sb db] [ic cc uc tc xc sc dc].
    cbn [Posts.score Posts.created_at]. intros -> -> -> -> -> ->.
    split; reflexivity.
Qed.

(** C10. The windows of the Top modes are fixed lengths in milliseconds: 90
    days for [top-3m], 180 days for [top-6m], 365 days for [top-1y].  The
    test is a strict one: under such a mode a post is in the feed just when
    [now - created_at] is below the window, so a post whose age is the
    window to the millisecond is left out, while one a millisecond younger
    stays. *)
Theorem top_windows_fixed_days_strict :
  MainApp.windows "top-3m" = Some (Finite (90 * 86400000))
  /\ MainApp.windows "top-6m" = Some (Finite (180 * 86400000))
  /\ MainApp.windows "top-1y" = Some (Finite (365 * 86400000))
  /\ forall (ps : list Posts.row) (sort : string) (ms now : Z) (p : Posts.row),
       MainApp.windows sort = Some (Finite ms) ->
       (In p (MainApp.filteredPosts ps EmptyString sort now)
        <-> In p ps /\ now - Posts.created_at p < ms)
       /\ (now - Posts.created_at p = ms ->
           ~ In p (MainApp.filteredPosts ps EmptyString sort now))
       /\ (In p ps -> now - Posts.created_at p = ms - 1 ->
           In p (MainApp.filteredPosts ps EmptyString sort now)).
Proof.
  repeat (split; [reflexivity|]).
  intros ps sort ms now p Hw.
  assert (Hiff : In p (MainApp.filteredPosts ps EmptyString sort now)
                 <-> In p ps /\ now - Posts.created_at p < ms).
  { rewrite (filteredPosts_top ps sort _ now Hw).
    rewrite <- (in_window_iff (Finite ms) now p), <- filter_In.
    apply js_sort_In. }
  split; [exact Hiff|]. split.
  - intros Hage Hin. apply Hiff in Hin. lia.
  - intros Hin Hage. apply Hiff. split; [exact Hin|lia].
Qed.

(** ** Reversing the timestamps *)

Section StrictlySorted.

Context {A : Type}.
Variable key : A -> Z.

Lemma strictly_sorted_perm_eq (l1 l2 : list A) :
  StronglySorted (fun a b => key b < key a) l1 ->
  StronglySorted (fun a b => key b < key a) l2 ->
  Permutation l1 l2 -> l1 = l2.
Proof.
  intros H1. revert l2.
  induction H1 as [|a l1 Hs1 IH Ha]; intros l2 H2 Hp.
  - now apply Permutation_nil in Hp.
  - destruct H2 as [|b l2 Hs2 Hb];
      [symmetry in Hp; now apply Permutation_nil in Hp|].
    assert (Hab : a = b).
    { assert (Hin : In a (b :: l2))
        by (eapply Permutation_in; [exact Hp | now left]).
      assert (Hin' : In b (a :: l1))
        by (eapply Permutation_in; [symmetry; exact Hp | now left]).
      destruct Hin as [->|Hin]; [reflexivity|].
      destruct Hin' as [->|Hin']; [reflexivity|].
      rewrite Forall_forall in Ha, Hb.
      specialize (Ha b Hin'). specialize (Hb a Hin). lia. }
    subst b. f_equal. apply IH; [exact Hs2|].
    now apply Permutation_cons_inv in Hp.
Qed.

Lemma sorted_distinct_strict (l : list A) :
  StronglySorted (fun a b => key a >= key b) l ->
  NoDup (map key l) ->
  StronglySorted (fun a b => key b < key a) l.
Proof.
  induction 1 as [|a l Hs IH Ha]; intros Hnd; [constructor|].
  simpl in Hnd. inversion Hnd as [|? ? Hnotin Hnd']; subst.
  constructor; [now apply IH|].
  rewrite Forall_forall in *. intros b Hb.
  specialize (Ha b Hb).
  assert (key a <> key b); [|lia].
  intros Heq. apply Hnotin. rewrite Heq. now apply in_map.
Qed.

End StrictlySorted.

Lemma StronglySorted_app_one {A : Type} (R : A -> A -> Prop) (l : list A) (x : A) :
  StronglySorted R l -> Forall (fun y => R y x) l -> StronglySorted R (l ++ [x]).
Proof.
  induction 1 as [|a l Hs IH Ha]; intros Hx; simpl; [repeat constructor|].
  inversion Hx; subst. constructor; [now apply IH|].
  apply Forall_app. split; [exact Ha | now constructor].
Qed.

Lemma StronglySorted_rev {A : Type} (R : A -> A -> Prop) (l : list A) :
  StronglySorted R l -> StronglySorted (fun a b => R b a) (rev l).
Proof.
  induction 1 as [|a l Hs IH Ha]; simpl; [constructor|].
  apply StronglySorted_app_one; [exact IH|].
  apply Forall_rev. exact Ha.
Qed.

Lemma StronglySorted_map {A B : Type} (R : B -> B -> Prop) (g : A -> B) (l : list A) :
  StronglySorted (fun a b => R (g a) (g b)) l -> StronglySorted R (map g l).
Proof.
  induction 1 as [|a l Hs IH Ha]; simpl; constructor; [exact IH|].
  rewrite Forall_map. exact Ha.
Qed.

Lemma StronglySorted_weaken_In {A : Type} (R R' : A -> A -> Prop) (l : list A) :
  (forall a b, In a l -> In b l -> R a b -> R' a b) ->
  StronglySorted R l -> StronglySorted R' l.
Proof.
  intros HR Hs. induction Hs as [|a l Hs IH Ha]; constructor.
  - apply IH. intros x y Hx Hy. apply HR; now right.
  - rewrite Forall_forall in *. intros b Hb.
    apply HR; [now left | now right | now apply Ha].
Qed.

Lemma reverses_order_on_incl (ts ts' : list Z) (f : Z -> Z) :
  incl ts' ts -> reverses_order_on ts f -> reverses_order_on ts' f.
Proof. intros Hincl Hf a b Ha Hb. apply Hf; now apply Hincl. Qed.

Lemma reverses_order_everywhere (ts : list Z) (f : Z -> Z) :
  reverses_order f -> reverses_order_on ts f.
Proof. intros Hf a b _ _. apply Hf. Qed.

Lemma reverses_order_on_inj (ts : list Z) (f : Z -> Z) (a b : Z) :
  reverses_order_on ts f -> In a ts -> In b ts -> f a = f b -> a = b.
Proof.
  intros Hf Ha Hb Heq. destruct (Z.lt_total a b) as [H|[H|H]]; [|exact H|].
  - apply (Hf a b Ha Hb) in H. lia.
  - apply (Hf b a Hb Ha) in H. lia.
Qed.

Lemma NoDup_retimed (f : Z -> Z) (l : list Posts.row) :
  reverses_order_on (map Posts.created_at l) f ->
  NoDup (map Posts.created_at l) ->
  NoDup (map Posts.created_at (map (retime f) l)).
Proof.
  intros Hf Hnd. rewrite map_map.
  change (NoDup (map (fun p => f (Posts.created_at p)) l)).
  rewrite <- (map_map Posts.created_at f).
  revert Hf Hnd. generalize (map Posts.created_at l) as ts. intros ts Hf.
  assert (Hgen : forall ts', incl ts' ts -> NoDup ts' -> NoDup (map f ts')).
  { induction ts' as [|a ts' IH]; simpl; intros Hincl Hnd; [constructor|].
    inversion Hnd as [|? ? Hnotin Hnd']; subst.
    constructor; [|apply IH; [|exact Hnd']; intros x Hx; apply Hincl; now right].
    intros Hin. apply Hnotin. apply in_map_iff in Hin as (x & Hx & Hin).
    apply (reverses_order_on_inj ts f x a Hf) in Hx;
      [now subst | apply Hincl; now right | apply Hincl; now left]. }
  apply Hgen, incl_refl.
Qed.

Lemma filter_matches_retime (f : Z -> Z) (q : string) (l : list Posts.row) :
  filter (MainApp.matches q) (map (retime f) l)
  = map (retime f) (filter (MainApp.matches q) l).
Proof.
  induction l as [|a l IH]; simpl; [reflexivity|].
  change (MainApp.matches q (retime f a)) with (MainApp.matches q a).
  destruct (MainApp.matches q a); simpl; now rewrite IH.
Qed.

Lemma js_sort_retimed_rev (f : Z -> Z) (l : list Posts.row) :
  reverses_order_on (map Posts.created_at l) f ->
  NoDup (map Posts.created_at l) ->
  js_sort (descending Posts.created_at) (map (retime f) l)
  = rev (map (retime f) (js_sort (descending Posts.created_at) l)).
Proof.
  intros Hf Hnd.
  apply (strictly_sorted_perm_eq Posts.created_at).
  - apply sorted_distinct_strict; [apply js_sort_sorted|].
    eapply Permutation_NoDup; [|apply NoDup_retimed; [exact Hf|exact Hnd]].
    apply Permutation_map, js_sort_perm.
  - apply (StronglySorted_rev (fun a b => Posts.created_at a < Posts.created_at b)).
    apply StronglySorted_map.
    assert (Hstrict : StronglySorted
                        (fun a b => Posts.created_at b < Posts.created_at a)
                        (js_sort (descending Posts.created_at) l)).
    { apply sorted_distinct_strict; [apply js_sort_sorted|].
      eapply Permutation_NoDup; [|exact Hnd].
      apply Permutation_map, js_sort_perm. }
    eapply StronglySorted_weaken_In; [|exact Hstrict].
    intros a b Ha Hb Hab. simpl.
    apply Hf; [apply in_map; now apply js_sort_In in Hb
              |apply in_map; now apply js_sort_In in Ha|exact Hab].
  - transitivity (map (retime f) l); [symmetry; apply js_sort_perm|].
    transitivity (map (retime f) (js_sort (descending Posts.created_at) l));
      [apply Permutation_map, js_sort_perm | apply Permutation_rev].
Qed.

(** C8, as the specification states it, fails on ties: two posts created in
    the same millisecond keep their input order under [new] whichever way
    the timestamps run, so the feed of the re-timed posts is not the
    reverse of the feed. *)
Lemma new_keeps_input_order_of_ties :
  reverses_order Z.opp
  /\ MainApp.filteredPosts (map (retime Z.opp) [tie_first; tie_second])
                           EmptyString "new" 0
     <> rev (map (retime Z.opp)
                 (MainApp.filteredPosts [tie_first; tie_second] EmptyString "new" 0)).
Proof.
  split; [intros a b H; lia | discriminate].
Qed.

(** C8 (amended). For posts with pairwise different timestamps, giving
    every post a new timestamp so that the order of the posts' timestamps is
    turned round makes the feed under [new] the reverse of the feed of the
    posts as they were.  The new timestamps are given by [f] on the old
    ones, which for pairwise different timestamps is every way of re-timing
    the posts; [f] has to turn round the order of the timestamps the posts
    carry and of no other numbers, so gaps may shrink or grow. *)
Theorem new_reversed_by_reversed_timestamps (ps : list Posts.row) (f : Z -> Z)
    (search : string) (now : Z) :
  NoDup (map Posts.created_at ps) ->
  reverses_order_on (map Posts.created_at ps) f ->
  MainApp.filteredPosts (map (retime f) ps) search "new" now
  = rev (map (retime f) (MainApp.filteredPosts ps search "new" now)).
Proof.
  intros Hnd Hf. unfold MainApp.filteredPosts. cbn [String.eqb].
  change (String.eqb "new" "new") with true. cbv iota.
  destruct search as [|c search].
  - now apply js_sort_retimed_rev.
  - rewrite filter_matches_retime.
    apply js_sort_retimed_rev; [|now apply NoDup_map_filter].
    eapply reverses_order_on_incl; [|exact Hf].
    intros t Ht. apply in_map_iff in Ht as (p & <- & Hp).
    apply in_map. now apply filter_In in Hp.
Qed.

(** * The statements at work on sample data *)

(** Two votes go in, a second vote by the first voter is refused, the second
    voter's vote is deleted: one vote is left and the score is 1. *)
Lemma score_is_vote_sum_witness :
  score_invariant sample_db
  /\ In (Posts.with_score post_A 1) (posts (commit_all sample_db sample_txns))
  /\ Posts.score (Posts.with_score post_A 1)
     = vote_sum 1%N (post_votes (commit_all sample_db sample_txns)).
Proof.
  assert (Hinv : score_invariant sample_db).
  { intros p [<-|[]]. reflexivity. }
  split; [exact Hinv|].
  assert (Hin : In (Posts.with_score post_A 1)
                   (posts (commit_all sample_db sample_txns))).
  { left. reflexivity. }
  split; [exact Hin|].
  exact (score_is_vote_sum_after_any_vote_transactions
           sample_db sample_txns Hinv _ Hin).
Defined.

Lemma second_vote_rejected_witness :
  constraints_hold voted_db
  /\ insert_post_vote (Some 7%N) (PostVotes.mk 1%N 7%N (-1)) voted_db
     = Err (row_security_violation "post_votes")
  /\ exists d1,
      delete_post_votes (Some 7%N) (eq_user_id_eq_post_id 7%N 1%N) voted_db = Ok d1
      /\ has_voted_on_post d1 7%N 1%N = false
      /\ forall w, w = 1 \/ w = -1 ->
           exists d2,
             insert_post_vote (Some 7%N) (PostVotes.mk 1%N 7%N w) d1 = Ok d2
             /\ post_votes d2 = post_votes d1 ++ [PostVotes.mk 1%N 7%N w].
Proof.
  assert (Hc : constraints_hold voted_db).
  { split; simpl.
    - constructor; [intros []|constructor].
    - repeat constructor.
    - repeat constructor. }
  assert (Hin : In (PostVotes.mk 1%N 7%N 1) (post_votes voted_db)).
  { left. reflexivity. }
  assert (Hrange : forall q, In q (posts voted_db) -> Posts.id q = 1%N ->
                             int4_min + 1 <= Posts.score q - 1 <= int4_max - 1).
  { intros q [<-|[]] _. split; discriminate. }
  destruct (second_vote_rejected_until_first_removed voted_db 7%N 1%N 1 Hc Hin)
    as [Hrej Hre].
  split; [exact Hc|]. split; [|exact (proj1 Hre Hrange)].
  exact (proj1 (proj2 (proj2 (Hrej (-1))))).
Defined.

(** The range conditions above cannot be dropped: at the top of the
    [INTEGER] range the trigger's update raises, and the up-vote is rolled
    back with it. *)
Lemma up_vote_at_integer_max_raises :
  insert_post_vote (Some 7%N) (PostVotes.mk 1%N 7%N 1) top_score_db
  = Err numeric_value_out_of_range
  /\ commit top_score_db (InsertVote (Some 7%N) (PostVotes.mk 1%N 7%N 1))
     = top_score_db.
Proof. split; reflexivity. Qed.

(** User 7 is not a member of the club of the post: the vote goes in, a post
    for that club does not. *)
Lemma voting_needs_no_membership_witness :
  is_club_member sample_db 7%N 10%N = false
  /\ (exists d',
         insert_post_vote (Some 7%N) (PostVotes.mk 1%N 7%N 1) sample_db = Ok d'
         /\ post_votes d' = [PostVotes.mk 1%N 7%N 1])
  /\ insert_post (Some 7%N)
                 (Posts.mk 4%N 10%N 7%N "Hello" None 0 (date_ms 2025 1 2)) sample_db
     = Err (row_security_violation "posts").
Proof.
  destruct (voting_needs_no_membership_posting_does sample_db 7%N)
    as (Hvote & _ & Hpost & _).
  split; [reflexivity|]. split.
  - apply (Hvote (Posts.with_score post_A 0) 1).
    + left. reflexivity.
    + reflexivity.
    + reflexivity.
    + left. reflexivity.
    + intros q [<-|[]] _. split; discriminate.
  - apply Hpost. reflexivity.
Defined.

(** On 2025-01-15 only [post_C] is younger than 90 days. *)
Lemma top_keeps_window_witness :
  MainApp.windows "top-3m" = Some (Finite (90 * MainApp.day_ms))
  /\ stable_sorted_desc Posts.score [post_C]
       (MainApp.filteredPosts [post_A; post_B; post_C] EmptyString "top-3m"
                              (date_ms 2025 1 15)).
Proof.
  split; [reflexivity|].
  exact (proj2 (proj2 (proj2 (top_keeps_window_then_sorts_by_score
                         [post_A; post_B; post_C] "top-3m"
                         (Finite (90 * MainApp.day_ms)) (date_ms 2025 1 15)
                         eq_refl)))).
Defined.

Lemma new_sorts_witness :
  MainApp.filteredPosts [post_A; post_B; post_C] EmptyString "new" 0
  = [post_C; post_B; post_A]
  /\ MainApp.filteredPosts [post_A; post_B; post_C] EmptyString "top-all" 0
     = [post_B; post_A; post_C].
Proof.
  exact (proj2 (new_sorts_by_created_at_descending [] 0) post_A post_B post_C
               eq_refl eq_refl eq_refl eq_refl eq_refl eq_refl).
Defined.


(** Users 8 and 9 vote the post of [voted_db] up: its score goes from 1 to
    3 in either order, not to 2 as it would if the later vote overwrote the
    earlier one. *)
Lemma score_deltas_commute_witness :
  (exists a,
      (rows1 <- update_post_score INSERT (PostVotes.mk 1%N 8%N 1) (posts voted_db) ;;
       update_post_score INSERT (PostVotes.mk 1%N 9%N 1) rows1) = Ok a
      /\ (rows2 <- update_post_score INSERT (PostVotes.mk 1%N 9%N 1) (posts voted_db) ;;
          update_post_score INSERT (PostVotes.mk 1%N 8%N 1) rows2) = Ok a)
  /\ Forall2 (fun q q' => Posts.score q'
                          = if uuid_eqb (Posts.id q) 1%N
                            then Posts.score q + 1 + 1 else Posts.score q)
             (posts voted_db)
             (posts (commit_all voted_db
                       [InsertVote (Some 8%N) (PostVotes.mk 1%N 8%N 1);
                        InsertVote (Some 9%N) (PostVotes.mk 1%N 9%N 1)]))
  /\ map Posts.score
         (posts (commit_all voted_db
                   [InsertVote (Some 9%N) (PostVotes.mk 1%N 9%N 1);
                    InsertVote (Some 8%N) (PostVotes.mk 1%N 8%N 1)]))
     = [3].
Proof.
  pose proof (score_deltas_commute (posts voted_db) INSERT INSERT
                (PostVotes.mk 1%N 8%N 1) (PostVotes.mk 1%N 9%N 1))
    as (_ & Hboth & Hvotes).
  assert (Hrange : forall q, In q (posts voted_db) ->
                     int4_min <= Posts.score q + 1 <= int4_max
                     /\ int4_min <= Posts.score q + 1 <= int4_max
                     /\ int4_min <= Posts.score q + 1 + 1 <= int4_max).
  { intros q [<-|[]]. repeat split; discriminate. }
  split; [|split].
  - apply Hboth. intros q Hq. unfold delta_of. cbn [PostVotes.post_id signed
      PostVotes.vote_value]. destruct Hq as [<-|[]]. repeat split; discriminate.
  - apply (Hvotes voted_db 8%N 9%N 1%N 1 1 eq_refl); auto; try reflexivity.
    discriminate.
  - reflexivity.
Defined.

(** The posts of the example with the dates of A and C changed over: the
    feed [C; B; A] becomes [A; B; C], each post with its new date.  The
    change turns the order of these three dates round and of no others. *)
Lemma new_reversed_witness :
  NoDup (map Posts.created_at [post_A; post_B; post_C])
  /\ reverses_order_on (map Posts.created_at [post_A; post_B; post_C]) swap_first_last
  /\ ~ reverses_order swap_first_last
  /\ MainApp.filteredPosts (map (retime swap_first_last) [post_A; post_B; post_C])
                           EmptyString "new" 0
     = rev (map (retime swap_first_last)
                (MainApp.filteredPosts [post_A; post_B; post_C] EmptyString "new" 0))
  /\ MainApp.filteredPosts (map (retime swap_first_last) [post_A; post_B; post_C])
                           EmptyString "new" 0
     = [Posts.with_created_at post_A (date_ms 2025 1 1);
        Posts.with_created_at post_B (date_ms 2024 6 1);
        Posts.with_created_at post_C (date_ms 2024 1 1)].
Proof.
  assert (Hnd : NoDup (map Posts.created_at [post_A; post_B; post_C])).
  { repeat constructor; simpl; intuition discriminate. }
  assert (Hf : reverses_order_on (map Posts.created_at [post_A; post_B; post_C])
                                 swap_first_last).
  { intros a b Ha Hb. simpl in Ha, Hb.
    destruct Ha as [<-|[<-|[<-|[]]]]; destruct Hb as [<-|[<-|[<-|[]]]];
      vm_compute; congruence. }
  split; [exact Hnd|]. split; [exact Hf|]. split.
  - intros H. specialize (H 0 1 eq_refl). vm_compute in H. discriminate.
  - split; [|reflexivity].
    exact (new_reversed_by_reversed_timestamps
             [post_A; post_B; post_C] swap_first_last EmptyString 0 Hnd Hf).
Defined.

(** Clicking the up arrow again on [post_A] takes the vote back and shows
    the score 2 for 3; clicking the down arrow instead shows 1. *)
Lemma handleVote_toggle_witness :
  voted 1%N (MainApp.votes sample_state) = Some (MainApp.mkVote 1%N 1)
  /\ snd (MainApp.click 7%N 1%N 1 sample_state)
     = [MainApp.delete_eq_user_id_eq_post_id 7%N 1%N]
  /\ voted 1%N (MainApp.votes (fst (MainApp.click 7%N 1%N 1 sample_state))) = None
  /\ map Posts.score (MainApp.posts (fst (MainApp.click 7%N 1%N 1 sample_state)))
     = [2; 5]
  /\ map Posts.score (MainApp.posts (fst (MainApp.click 7%N 1%N (-1) sample_state)))
     = [1; 5]
  /\ Forall2 (fun p p' => Posts.score p'
                          = if uuid_eqb (Posts.id p) 1%N
                            then Posts.score p - 2 * 1 else Posts.score p)
             (MainApp.posts sample_state)
             (MainApp.posts
                (MainApp.settle
                   (MainApp.handleVote 7%N (MainApp.votes sample_state) 1%N (-1))
                   sample_state)).
Proof.
  split; [reflexivity|].
  pose proof (handleVote_same_value_toggles
                7%N 1%N 1 (MainApp.votes sample_state) sample_state
                (MainApp.mkVote 1%N 1)
                eq_refl (or_introl eq_refl) (or_introl eq_refl))
    as (Hsame & _ & _ & Hclick).
  pose proof (handleVote_same_value_toggles
                7%N 1%N (-1) (MainApp.votes sample_state) sample_state
                (MainApp.mkVote 1%N 1)
                eq_refl (or_introl eq_refl) (or_intror eq_refl))
    as (_ & Hopp & _ & _).
  rewrite (Hclick eq_refl). cbn [fst snd].
  destruct (Hsame eq_refl) as (Hsent & Hvotes & _ & _).
  split; [exact Hsent|]. split; [exact Hvotes|].
  split; [reflexivity|]. split; [reflexivity|].
  exact (proj2 (proj2 (proj2 (Hopp eq_refl)))).
Defined.

(** [post_A] is exactly 90 days old on 2024-03-31. *)
Lemma top_windows_strict_witness :
  date_ms 2024 3 31 - Posts.created_at post_A = 90 * 86400000
  /\ ~ In post_A (MainApp.filteredPosts [post_A; post_B; post_C] EmptyString
                                        "top-3m" (date_ms 2024 3 31)).
Proof.
  split; [reflexivity|].
  exact (proj1 (proj2 (proj2 (proj2 (proj2 top_windows_fixed_days_strict))
                         [post_A; post_B; post_C] "top-3m"%string (90 * 86400000)
                         (date_ms 2024 3 31) post_A eq_refl))
               eq_refl).
Defined.

(** * Further properties of the migration *)

(** ** Invariants of the vote statements *)

Lemma commit_all_preserves (P : db -> Prop) :
  (forall d t, P d -> P (commit d t)) ->
  forall ts d, P d -> P (commit_all d ts).
Proof.
  intros Hstep ts. unfold commit_all.
  induction ts as [|t ts IH]; intros d Hd; simpl; [exact Hd|].
  apply IH, Hstep, Hd.
Qed.

(** X1. [UNIQUE(user_id, post_id)], [CHECK (vote_value IN (1, -1))] and the
    foreign key of [post_votes] on [posts] hold after every sequence of vote
    insert and delete transactions on a database in which they hold. *)
Theorem constraints_hold_after_vote_transactions (d : db) (ts : list vote_txn) :
  constraints_hold d -> constraints_hold (commit_all d ts).
Proof.
  apply commit_all_preserves. intros d0 t. apply commit_constraints.
Qed.

Lemma update_posts_set_score_range (e : Z -> result Z) (i : uuid)
    (rows rows' : list Posts.row) :
  (forall a s, e a = Ok s -> int4_min <= s <= int4_max) ->
  Forall (fun p => int4_min <= Posts.score p <= int4_max) rows ->
  update_posts_set_score e i rows = Ok rows' ->
  Forall (fun p => int4_min <= Posts.score p <= int4_max) rows'.
Proof.
  intros He Hr. revert rows'.
  induction Hr as [|p rows Hp Hr IH]; intros rows' H; simpl in H.
  - injection H as <-. constructor.
  - ran H p' Hp'. ran H rest' Hrest. injection H as <-.
    constructor; [|now apply IH].
    destruct (uuid_eqb (Posts.id p) i).
    + apply bind_Ok_inv in Hp' as (s & Hs & Hp'). injection Hp' as <-.
      simpl. now apply He in Hs.
    + now injection Hp' as <-.
Qed.

Lemma on_vote_change_range (op : tg_op) (affected : list PostVotes.row)
    (rows rows' : list Posts.row) :
  Forall (fun p => int4_min <= Posts.score p <= int4_max) rows ->
  on_vote_change op affected rows = Ok rows' ->
  Forall (fun p => int4_min <= Posts.score p <= int4_max) rows'.
Proof.
  revert rows. induction affected as [|r rest IH]; intros rows Hr H; simpl in H.
  - now injection H as <-.
  - ran H mid Hmid. apply (IH mid); [|exact H].
    destruct op; simpl in Hmid;
      (eapply update_posts_set_score_range; [|exact Hr|exact Hmid]);
      intros a s Hs; [apply int4pl_Ok_inv in Hs | apply int4mi_Ok_inv in Hs]; tauto.
Qed.

Lemma commit_scores_in_range (d : db) (t : vote_txn) :
  scores_in_range d -> scores_in_range (commit d t).
Proof.
  intros Hr. unfold commit. destruct (run_txn t d) as [d'|e] eqn:H; [|exact Hr].
  destruct t as [auth NEW | auth where_]; simpl in H.
  - unfold insert_post_vote in H.
    do 4 (apply bind_Ok_inv in H as (? & _ & H)).
    ran H rows Hrows. injection H as <-.
    exact (on_vote_change_range _ _ _ _ Hr Hrows).
  - unfold delete_post_votes in H.
    ran H rows Hrows. injection H as <-.
    exact (on_vote_change_range _ _ _ _ Hr Hrows).
Qed.

(** X2. The stored scores stay within the [INTEGER] range through every
    sequence of vote transactions: the trigger never stores a wrapped or
    out-of-range score, it raises instead and the vote is rolled back. *)
Theorem scores_in_range_after_vote_transactions (d : db) (ts : list vote_txn) :
  scores_in_range d -> scores_in_range (commit_all d ts).
Proof.
  apply commit_all_preserves. intros d0 t. apply commit_scores_in_range.
Qed.

(** X3. A vote statement that goes through leaves the clubs and the
    memberships as they were and changes nothing of the posts but scores:
    the same rows in the same order, each with its id, club, author, title,
    content and timestamp.  An insert adds the one new vote and moves the
    score of the post voted on, and of no other, by the vote's value. *)
Theorem vote_statements_change_scores_only (t : vote_txn) (d d' : db) :
  run_txn t d = Ok d' ->
  clubs d' = clubs d
  /\ club_memberships d' = club_memberships d
  /\ map unscored (posts d') = map unscored (posts d)
  /\ (forall auth NEW, t = InsertVote auth NEW ->
        post_votes d' = post_votes d ++ [NEW]
        /\ Forall2 (fun p p' =>
                      Posts.score p'
                      = if uuid_eqb (Posts.id p) (PostVotes.post_id NEW)
                        then Posts.score p + PostVotes.vote_value NEW
                        else Posts.score p)
                   (posts d) (posts d')).
Proof.
  intros H.
  assert (Hsh : exists delta, shifted delta (posts d) (posts d')
                              /\ clubs d' = clubs d
                              /\ club_memberships d' = club_memberships d
                              /\ (forall auth NEW, t = InsertVote auth NEW ->
                                    post_votes d' = post_votes d ++ [NEW]
                                    /\ forall i, delta i = delta_of INSERT NEW i)).
  { destruct t as [auth NEW | auth where_]; simpl in H.
    - unfold insert_post_vote in H.
      do 4 (apply bind_Ok_inv in H as (? & _ & H)).
      ran H rows Hrows. injection H as <-.
      apply on_vote_change_shifted in Hrows.
      eexists. split; [exact Hrows|]. repeat split.
      + now injection H as _ <-.
      + injection H as _ <-. intros i. unfold delta_of. simpl.
        rewrite (uuid_eqb_sym (PostVotes.post_id NEW) i).
        destruct (uuid_eqb i (PostVotes.post_id NEW)); lia.
    - unfold delete_post_votes in H.
      ran H rows Hrows. injection H as <-.
      apply on_vote_change_shifted in Hrows.
      eexists. split; [exact Hrows|]. repeat split. discriminate. discriminate. }
  destruct Hsh as (delta & Hsh & Hc & Hm & Hins).
  split; [exact Hc|]. split; [exact Hm|].
  split; [exact (shifted_length _ _ _ Hsh)|].
  intros auth NEW Ht. destruct (Hins auth NEW Ht) as [Hv Hd].
  split; [exact Hv|].
  clear -Hsh Hd. induction Hsh as [|p p' r r' Hp _ IH]; constructor; [|exact IH].
  subst p'. simpl. rewrite Hd. unfold delta_of. simpl.
  destruct (uuid_eqb (Posts.id p) (PostVotes.post_id NEW)); lia.
Qed.

(** ** What a delete may remove *)

Lemma filter_none {A : Type} (f : A -> bool) (l : list A) :
  (forall a, In a l -> f a = false) -> filter f l = [].
Proof.
  induction l as [|a l IH]; intros H; simpl; [reflexivity|].
  rewrite (H a (or_introl eq_refl)). apply IH. intros b Hb. apply H. now right.
Qed.

Lemma filter_all_In {A : Type} (f : A -> bool) (l : list A) :
  (forall a, In a l -> f a = true) -> filter f l = l.
Proof.
  induction l as [|a l IH]; intros H; simpl; [reflexivity|].
  rewrite (H a (or_introl eq_refl)). f_equal. apply IH. intros b Hb. apply H. now right.
Qed.

Lemma delete_post_votes_no_hit (auth : option uuid)
    (where_ : PostVotes.row -> bool) (d : db) :
  (forall v, In v (post_votes d) ->
             users_can_remove_own_vote auth v && where_ v = false) ->
  delete_post_votes auth where_ d = Ok d.
Proof.
  intros Hnone. unfold delete_post_votes.
  rewrite (filter_none _ _ Hnone). cbn [on_vote_change bind].
  rewrite filter_all_In by (intros v Hv; now rewrite (Hnone v Hv)).
  now destruct d.
Qed.

(** X4. A delete on [post_votes] removes none of the votes of other users,
    whatever its filter: every vote whose [user_id] is not the caller's is
    still there afterwards, and a request without a session removes none at
    all. *)
Theorem delete_spares_votes_of_others (auth : option uuid)
    (where_ : PostVotes.row -> bool) (d d' : db) :
  delete_post_votes auth where_ d = Ok d' ->
  (forall v, In v (post_votes d) -> auth <> Some (PostVotes.user_id v) ->
             In v (post_votes d'))
  /\ (auth = None -> d' = d).
Proof.
  intros H. split.
  - intros v Hv Hother. unfold delete_post_votes in H.
    ran H rows Hrows. injection H as <-. cbn [post_votes].
    apply filter_In. split; [exact Hv|].
    unfold users_can_remove_own_vote. destruct auth as [uid|]; [|reflexivity].
    destruct (uuid_eqb uid (PostVotes.user_id v)) eqn:Hu; [|reflexivity].
    apply uuid_eqb_eq in Hu. congruence.
  - intros ->. rewrite delete_post_votes_no_hit in H by reflexivity.
    now injection H as <-.
Qed.

(** X5. Removing a vote that is not there is not an error: a delete whose
    filter meets none of the caller's votes goes through and leaves the
    database exactly as it was. *)
Theorem delete_without_vote_changes_nothing (auth : option uuid)
    (where_ : PostVotes.row -> bool) (d : db) :
  (forall v, In v (post_votes d) ->
             users_can_remove_own_vote auth v && where_ v = false) ->
  delete_post_votes auth where_ d = Ok d.
Proof.
  apply delete_post_votes_no_hit.
Qed.

(** ** Which error a vote insert raises *)




(** ** Voting and taking the vote back *)

Lemma shifted_cancel (d1 d2 : uuid -> Z) (r1 r2 r3 : list Posts.row) :
  (forall i, d1 i + d2 i = 0) -> shifted d1 r1 r2 -> shifted d2 r2 r3 -> r3 = r1.
Proof.
  intros Hd H12 H23.
  apply (shifted_fun (fun i => d1 i + d2 i) (fun _ => 0) r1).
  - exact Hd.
  - eapply shifted_trans; [|exact H12|exact H23]. reflexivity.
  - now apply shifted_refl.
Qed.

Lemma delta_of_cancel (r : PostVotes.row) (i : uuid) :
  (if uuid_eqb i (PostVotes.post_id r)
   then signed INSERT (PostVotes.vote_value r) else 0)
  + (if uuid_eqb i (PostVotes.post_id r)
     then signed DELETE (PostVotes.vote_value r) else 0) = 0.
Proof. destruct (uuid_eqb i (PostVotes.post_id r)); simpl; lia. Qed.

(** X7. A vote followed by its removal is a round trip: when a user's vote
    insert has gone through, the user's delete call for that post goes
    through as well and gives back the database as it was before the vote,
    scores and votes alike.  The scores are taken to be [INTEGER]s. *)
Theorem vote_then_unvote_restores (d d1 : db) (u p : uuid) (w : Z) :
  scores_in_range d ->
  insert_post_vote (Some u) (PostVotes.mk p u w) d = Ok d1 ->
  delete_post_votes (Some u) (eq_user_id_eq_post_id u p) d1 = Ok d.
Proof.
  intros Hr Hins. pose proof Hins as H. unfold insert_post_vote in H.
  passed H Hpol. do 3 (apply bind_Ok_inv in H as (? & _ & H)).
  ran H rows Hrows. injection H as <-.
  unfold members_can_vote in Hpol. cbn [PostVotes.user_id PostVotes.post_id] in Hpol.
  rewrite uuid_eqb_refl in Hpol. apply negb_true_iff in Hpol.
  assert (Hnohit : forall v, In v (post_votes d) -> eq_user_id_eq_post_id u p v = false).
  { intros v Hv. destruct (eq_user_id_eq_post_id u p v) eqn:Hhit; [|reflexivity].
    change (existsb (eq_user_id_eq_post_id u p) (post_votes d) = false) in Hpol.
    rewrite (existsb_In_true _ _ v Hv Hhit) in Hpol. discriminate. }
  cbn [on_vote_change] in Hrows. rewrite bind_Ok_r in Hrows.
  pose proof (update_post_score_shifted _ _ _ _ Hrows) as Hsh.
  unfold delete_post_votes. cbn [post_votes posts].
  rewrite (filter_ext _ (eq_user_id_eq_post_id u p) (own_vote_hit u p)).
  rewrite (filter_ext (fun x => negb (users_can_remove_own_vote (Some u) x
                                      && eq_user_id_eq_post_id u p x))
                      (fun x => negb (eq_user_id_eq_post_id u p x)))
    by (intros y; now rewrite own_vote_hit).
  rewrite !filter_app. rewrite (filter_none _ _ Hnohit).
  rewrite (filter_all_In (fun x => negb (eq_user_id_eq_post_id u p x)) (post_votes d))
    by (intros v Hv; now rewrite (Hnohit v Hv)).
  assert (Hself : eq_user_id_eq_post_id u p (PostVotes.mk p u w) = true).
  { unfold eq_user_id_eq_post_id. simpl. now rewrite !uuid_eqb_refl. }
  cbn [filter clubs club_memberships]. rewrite Hself.
  cbn [negb app on_vote_change]. rewrite bind_Ok_r, app_nil_r.
  destruct (update_post_score_Ok DELETE (PostVotes.mk p u w) rows) as [back Hback].
  { intros q' Hq' Hid'. cbn [PostVotes.post_id PostVotes.vote_value signed] in *.
    destruct (shifted_In _ _ _ _ Hsh Hq') as (q & Hq & Hid & Hsc).
    cbn [PostVotes.post_id PostVotes.vote_value signed] in Hsc.
    rewrite Hid in Hid'. apply uuid_eqb_eq in Hid'. rewrite Hid' in Hsc.
    unfold scores_in_range in Hr. rewrite Forall_forall in Hr.
    specialize (Hr q Hq). lia. }
  rewrite Hback. cbn [bind].
  rewrite (shifted_cancel _ _ _ _ _ (delta_of_cancel (PostVotes.mk p u w)) Hsh
             (update_post_score_shifted _ _ _ _ Hback)).
  now destruct d.
Qed.

(** ** Posts and their scores *)

(** X8. The insert policy of [posts] and its keys do not look at [score]:
    whether a post insert goes through is the same for every score the new
    row carries, as long as the score is one the column can hold, an
    [INTEGER].  The row is stored as given, so on a database that keeps the
    score invariant the invariant survives the insert exactly when the new
    row has score 0, the column default. *)
Theorem post_insert_keeps_invariant_iff_score_0 (auth : option uuid)
    (NEW : Posts.row) (d d' : db) :
  constraints_hold d -> score_invariant d ->
  in_int4 (Posts.score NEW) = true ->
  insert_post auth NEW d = Ok d' ->
  (forall s, in_int4 s = true ->
             is_Ok (insert_post auth (Posts.with_score NEW s) d) = true)
  /\ posts d' = posts d ++ [NEW]
  /\ post_votes d' = post_votes d
  /\ (score_invariant d' <-> Posts.score NEW = 0).
Proof.
  intros Hc Hinv _ H. pose proof H as H0. unfold insert_post in H.
  passed H Hpol. passed H Hpk. passed H Hfk. injection H as <-.
  split; [|split; [reflexivity|split; [reflexivity|]]].
  - intros s _. unfold insert_post, members_can_create_posts in *.
    cbn [Posts.user_id Posts.club_id Posts.id Posts.with_score].
    now rewrite Hpol, Hpk, Hfk.
  - split.
    + intros Hinv'. rewrite (Hinv' NEW) by (cbn [posts]; apply in_or_app; right; now left).
      cbn [post_votes]. apply vote_sum_no_vote. intros v Hv Heq.
      destruct Hc as [_ _ Hall]. rewrite Forall_forall in Hall.
      specialize (Hall v Hv). rewrite Heq in Hall.
      apply negb_true_iff in Hpk. congruence.
    + intros Hzero. exact (insert_post_invariant auth NEW d _ Hc Hinv Hzero H0).
Qed.

(** ** Joining and leaving clubs *)

Lemma insert_membership_rows_Ok_inv (auth : option uuid)
    (rows table table' : list ClubMemberships.row) :
  insert_membership_rows auth rows table = Ok table' ->
  table' = table ++ rows
  /\ Forall (fun r => users_can_join_clubs auth r = true) rows
  /\ (NoDup (map membership_key table) -> NoDup (map membership_key table')).
Proof.
  revert table table'. induction rows as [|r rows IH]; intros table table' H; simpl in H.
  - injection H as <-. rewrite app_nil_r. auto.
  - passed H Hpol. passed H Huniq.
    destruct (IH _ _ H) as (-> & Hall & Hnd).
    rewrite <- app_assoc in *. split; [reflexivity|]. split; [now constructor|].
    intros Hnd0. apply Hnd.
    eapply Permutation_NoDup; [apply Permutation_map, Permutation_cons_append|].
    simpl. constructor; [|exact Hnd0].
    intros Hin. apply in_map_iff in Hin as (m & Hm & Hin).
    apply negb_true_iff in Huniq.
    rewrite (existsb_In_true _ _ m Hin) in Huniq; [discriminate|].
    unfold same_membership. injection Hm as -> ->. now rewrite !uuid_eqb_refl.
Qed.

Lemma is_club_member_In (d : db) (u c : uuid) :
  is_club_member d u c = true <-> In (u, c) (map membership_key (club_memberships d)).
Proof.
  unfold is_club_member. rewrite existsb_exists, in_map_iff.
  split; intros (m & H1 & H2); exists m.
  - apply andb_true_iff in H2 as [Hu Hc]. apply uuid_eqb_eq in Hu, Hc.
    split; [|exact H1]. unfold membership_key. now rewrite Hu, Hc.
  - split; [exact H2|]. injection H1 as <- <-. now rewrite !uuid_eqb_refl.
Qed.

(** X9. A join that goes through enrols the caller and nobody else: every
    inserted row carries the caller's own [user_id], the caller is a member
    of each club of the rows afterwards, all earlier memberships are kept,
    the clubs exist, and posts and votes are untouched. *)
Theorem join_enrols_the_caller_only (auth : option uuid)
    (rows : list ClubMemberships.row) (d d' : db) :
  insert_club_memberships auth rows d = Ok d' ->
  club_memberships d' = club_memberships d ++ rows
  /\ (forall r, In r rows ->
        auth = Some (ClubMemberships.user_id r)
        /\ is_club_member d' (ClubMemberships.user_id r) (ClubMemberships.club_id r) = true
        /\ club_exists d' (ClubMemberships.club_id r) = true)
  /\ (forall u c, is_club_member d u c = true -> is_club_member d' u c = true)
  /\ posts d' = posts d /\ post_votes d' = post_votes d /\ clubs d' = clubs d.
Proof.
  intros H. unfold insert_club_memberships in H.
  ran H table Htable. passed H Hfk. injection H as <-.
  destruct (insert_membership_rows_Ok_inv _ _ _ _ Htable) as (-> & Hall & _).
  split; [reflexivity|]. split; [|split; [|auto]].
  - intros r Hr. rewrite Forall_forall in Hall. specialize (Hall r Hr).
    rewrite forallb_forall in Hfk. specialize (Hfk r Hr).
    split; [|split; [|exact Hfk]].
    + unfold users_can_join_clubs in Hall. destruct auth as [uid|]; [|discriminate].
      apply uuid_eqb_eq in Hall. now subst.
    + apply is_club_member_In. cbn [club_memberships]. rewrite map_app.
      apply in_or_app. right. now apply (in_map membership_key) in Hr.
  - intros u c Hm. apply is_club_member_In. apply is_club_member_In in Hm.
    cbn [club_memberships]. rewrite map_app. apply in_or_app. now left.
Qed.

(** X10. Joining and then posting compose: once the caller's join of a club
    has gone through, the caller's post in that club is accepted as soon as
    its id is new; the club is known to exist from the join. *)
Theorem join_then_post_goes_through (u c : uuid) (NEW : Posts.row) (d d1 : db) :
  insert_club_memberships (Some u) [ClubMemberships.mk u c] d = Ok d1 ->
  Posts.user_id NEW = u -> Posts.club_id NEW = c ->
  post_exists d1 (Posts.id NEW) = false ->
  insert_post (Some u) NEW d1
  = Ok {| clubs := clubs d1; club_memberships := club_memberships d1;
          posts := posts d1 ++ [NEW]; post_votes := post_votes d1 |}.
Proof.
  intros Hjoin Hu Hc Hfresh. pose proof Hjoin as H.
  unfold insert_club_memberships in H.
  ran H table Htable. passed H Hfk. injection H as <-.
  destruct (insert_membership_rows_Ok_inv _ _ _ _ Htable) as (-> & _ & _).
  cbn [forallb ClubMemberships.club_id] in Hfk. rewrite andb_true_r in Hfk.
  unfold insert_post, members_can_create_posts, is_club_member.
  cbn [club_memberships clubs posts post_votes] in *.
  unfold post_exists in Hfresh. cbn [posts] in Hfresh.
  unfold post_exists at 1. cbn [posts]. rewrite Hfresh.
  unfold club_exists in *. cbn [clubs] in *. rewrite Hu, Hc, Hfk.
  rewrite existsb_app. cbn [existsb ClubMemberships.user_id ClubMemberships.club_id].
  rewrite !uuid_eqb_refl. cbn [andb orb]. rewrite orb_true_r. reflexivity.
Qed.

(** X11. Joining a club twice is refused as a whole: when every row is the
    caller's own and one of them is a membership the caller already has, the
    statement raises the unique violation of [(user_id, club_id)], so none
    of its rows is stored. *)
Theorem repeated_join_is_refused (u : uuid) (rows : list ClubMemberships.row) (d : db) :
  (forall r, In r rows -> ClubMemberships.user_id r = u) ->
  (exists r, In r rows /\ is_club_member d u (ClubMemberships.club_id r) = true) ->
  insert_club_memberships (Some u) rows d
  = Err (unique_violation "club_memberships_user_id_club_id_key").
Proof.
  intros Hown Hdup. unfold insert_club_memberships.
  assert (Hrows : forall table,
             (exists r, In r rows /\ In (membership_key r) (map membership_key table)) ->
             insert_membership_rows (Some u) rows table
             = Err (unique_violation "club_memberships_user_id_club_id_key")).
  { clear Hdup. induction rows as [|r rows IH]; intros table (r0 & Hr0 & Hin);
      [contradiction|].
    simpl. unfold users_can_join_clubs.
    rewrite (Hown r (or_introl eq_refl)), uuid_eqb_refl. cbn [require bind].
    destruct (existsb (same_membership r) table) eqn:Hex; [reflexivity|].
    cbn [negb require bind]. apply IH.
    - intros r' Hr'. apply Hown. now right.
    - destruct Hr0 as [-> | Hr0].
      + exfalso. apply in_map_iff in Hin as (m & Hm & Hin).
        rewrite (existsb_In_true _ _ m Hin) in Hex; [discriminate|].
        unfold same_membership. injection Hm as -> ->. now rewrite !uuid_eqb_refl.
      + exists r0. split; [exact Hr0|]. rewrite map_app. apply in_or_app. now left. }
  rewrite Hrows; [reflexivity|].
  destruct Hdup as (r & Hr & Hm). exists r. split; [exact Hr|].
  apply is_club_member_In in Hm. unfold membership_key at 1.
  now rewrite (Hown r Hr).
Qed.

(** X12. Leaving takes effect and reaches nobody else: after the caller's
    delete on [club_memberships] the caller is no member of the clubs the
    filter selects and is refused when posting there, every membership of
    another user is kept, and the posts and votes, the caller's own
    included, stay as they were. *)
Theorem leave_ends_own_membership_only (u : uuid)
    (where_ : ClubMemberships.row -> bool) (d d' : db) :
  delete_club_memberships (Some u) where_ d = Ok d' ->
  (forall c, where_ (ClubMemberships.mk u c) = true ->
             is_club_member d' u c = false
             /\ forall NEW, Posts.club_id NEW = c ->
                  insert_post (Some u) NEW d' = Err (row_security_violation "posts"))
  /\ (forall m, In m (club_memberships d) -> ClubMemberships.user_id m <> u ->
                In m (club_memberships d'))
  /\ posts d' = posts d /\ post_votes d' = post_votes d.
Proof.
  intros H. unfold delete_club_memberships in H.
  assert (Hd : d' = {| clubs := clubs d;
                       club_memberships :=
                         filter (fun m => negb (users_can_leave_clubs (Some u) m
                                                && where_ m)) (club_memberships d);
                       posts := posts d; post_votes := post_votes d |})
    by congruence.
  clear H. subst d'.
  split; [|split; [|auto]].
  - intros c Hsel.
    assert (Hnot : is_club_member
                     {| clubs := clubs d;
                        club_memberships :=
                          filter (fun m => negb (users_can_leave_clubs (Some u) m
                                                 && where_ m)) (club_memberships d);
                        posts := posts d; post_votes := post_votes d |} u c = false).
    { unfold is_club_member. cbn [club_memberships].
      apply not_true_is_false. intros Hex.
      apply existsb_exists in Hex as (m & Hm & Hmc).
      apply filter_In in Hm as [_ Hkeep].
      apply andb_true_iff in Hmc as [Hmu Hmc]. apply uuid_eqb_eq in Hmu, Hmc.
      destruct m as [mu mc]. cbn [ClubMemberships.user_id ClubMemberships.club_id] in *.
      subst mu mc. unfold users_can_leave_clubs in Hkeep.
      cbn [ClubMemberships.user_id] in Hkeep.
      rewrite uuid_eqb_refl, Hsel in Hkeep. discriminate. }
    split; [exact Hnot|].
    intros NEW Hclub. unfold insert_post, members_can_create_posts.
    rewrite Hclub, Hnot, andb_false_r. reflexivity.
  - intros m Hm Hother. cbn [club_memberships]. apply filter_In.
    split; [exact Hm|]. unfold users_can_leave_clubs.
    destruct (uuid_eqb u (ClubMemberships.user_id m)) eqn:Hu; [|reflexivity].
    apply uuid_eqb_eq in Hu. congruence.
Qed.

(** ** Profiles *)

(** X13. A profile is created at most once: an insert that goes through is
    the caller's own row, keeps [user_id] and [username] unique in the
    table, and from then on every insert for that user or with that
    username is refused, whoever asks. *)
Theorem profile_is_created_at_most_once (auth : option uuid) (NEW : Profiles.row)
    (profiles profiles' : list Profiles.row) :
  profiles_unique profiles ->
  insert_profile auth NEW profiles = Ok profiles' ->
  profiles' = profiles ++ [NEW]
  /\ auth = Some (Profiles.user_id NEW)
  /\ profiles_unique profiles'
  /\ forall auth' NEW',
       Profiles.user_id NEW' = Profiles.user_id NEW
       \/ Profiles.username NEW' = Profiles.username NEW ->
       is_Ok (insert_profile auth' NEW' profiles') = false.
Proof.
  intros [Hu Hn] H. unfold insert_profile in H.
  passed H Hpol. passed H Huid. passed H Hname. injection H as <-.
  apply negb_true_iff in Huid, Hname.
  split; [reflexivity|]. split; [|split].
  - unfold users_can_insert_own_profile in Hpol. destruct auth as [uid|]; [|discriminate].
    apply uuid_eqb_eq in Hpol. now subst.
  - split; rewrite map_app; simpl;
      (eapply Permutation_NoDup; [apply Permutation_cons_append|]);
      constructor; auto; intros Hin; apply in_map_iff in Hin as (r & Hr & Hin).
    + rewrite (existsb_In_true _ _ r Hin) in Huid; [discriminate|].
      rewrite Hr. apply uuid_eqb_refl.
    + rewrite (existsb_In_true _ _ r Hin) in Hname; [discriminate|].
      rewrite Hr. apply String.eqb_refl.
  - intros auth' NEW' Hsame. unfold insert_profile.
    destruct (users_can_insert_own_profile auth' NEW'); [|reflexivity].
    cbn [require bind].
    destruct (existsb (fun r => uuid_eqb (Profiles.user_id r) (Profiles.user_id NEW'))
                      (profiles ++ [NEW])) eqn:Hex1; [reflexivity|].
    cbn [negb require bind].
    destruct (existsb (fun r => String.eqb (Profiles.username r) (Profiles.username NEW'))
                      (profiles ++ [NEW])) eqn:Hex2; [reflexivity|].
    exfalso. rewrite existsb_app in Hex1, Hex2. cbn [existsb] in Hex1, Hex2.
    rewrite !orb_false_r in Hex1, Hex2.
    apply orb_false_iff in Hex1 as [_ Hex1]. apply orb_false_iff in Hex2 as [_ Hex2].
    destruct Hsame as [He | He]; rewrite He in *.
    + rewrite uuid_eqb_refl in Hex1. discriminate.
    + rewrite String.eqb_refl in Hex2. discriminate.
Qed.

(** * Further properties of the feed *)

Section SortAndFilter.

Context {A : Type}.
Variable key : A -> Z.

Lemma StronglySorted_filter (R : A -> A -> Prop) (f : A -> bool) (l : list A) :
  StronglySorted R l -> StronglySorted R (filter f l).
Proof.
  induction 1 as [|a l Hs IH Ha]; simpl; [constructor|].
  destruct (f a); [|exact IH]. constructor; [exact IH|].
  rewrite Forall_forall in *. intros b Hb. apply filter_In in Hb as [Hb _]. auto.
Qed.

Lemma filter_comm (f g : A -> bool) (l : list A) :
  filter f (filter g l) = filter g (filter f l).
Proof.
  induction l as [|a l IH]; simpl; [reflexivity|].
  destruct (f a) eqn:Hf, (g a) eqn:Hg; simpl; rewrite ?Hf, ?Hg, IH; reflexivity.
Qed.

(** Sorting and filtering can be done in either order. *)
Lemma js_sort_filter (f : A -> bool) (l : list A) :
  js_sort (descending key) (filter f l) = filter f (js_sort (descending key) l).
Proof.
  apply (sorted_same_key_classes_eq key).
  - apply js_sort_sorted.
  - apply StronglySorted_filter, js_sort_sorted.
  - intros k. rewrite js_sort_filter_key.
    rewrite (filter_comm (fun a => key a =? k) f (js_sort (descending key) l)).
    rewrite js_sort_filter_key. apply filter_comm.
Qed.

(** A list that is in order already comes back as it is. *)
Lemma js_sort_sorted_same (l : list A) :
  StronglySorted (fun a b => key a >= key b) l ->
  js_sort (descending key) l = l.
Proof.
  intros Hs. apply (sorted_same_key_classes_eq key).
  - apply js_sort_sorted.
  - exact Hs.
  - intros k. apply js_sort_filter_key.
Qed.

Lemma js_sort_filter_twice (f : A -> bool) (l : list A) :
  js_sort (descending key) (filter f (js_sort (descending key) (filter f l)))
  = js_sort (descending key) (filter f l).
Proof.
  rewrite <- (js_sort_filter f (filter f l)).
  rewrite (filter_all_In f (filter f l))
    by (intros a Ha; now apply filter_In in Ha).
  apply js_sort_sorted_same, js_sort_sorted.
Qed.

Lemma StronglySorted_app_inv (R : A -> A -> Prop) (l1 l2 : list A) :
  StronglySorted R (l1 ++ l2) ->
  forall a b, In a l1 -> In b l2 -> R a b.
Proof.
  induction l1 as [|x l1 IH]; simpl; intros Hs a b Ha Hb; [contradiction|].
  inversion Hs as [|? ? Hs' Hx]; subst.
  destruct Ha as [-> | Ha]; [|now apply IH].
  rewrite Forall_forall in Hx. apply Hx, in_or_app. now right.
Qed.

End SortAndFilter.

Lemma filteredPosts_cases (ps : list Posts.row) (search sort : string) (now : Z) :
  (sort = "new"%string
   /\ MainApp.filteredPosts ps search sort now
      = js_sort (descending Posts.created_at) (searched search ps))
  \/ (sort <> "new"%string
      /\ exists window,
           window = match MainApp.windows sort with Some w => w | None => Infinity end
           /\ MainApp.filteredPosts ps search sort now
              = js_sort (descending Posts.score)
                        (filter (MainApp.in_window window now) (searched search ps))).
Proof.
  unfold MainApp.filteredPosts, searched.
  destruct (String.eqb_spec sort "new") as [->|Hne].
  - left. split; [reflexivity|]. now destruct search.
  - right. split; [exact Hne|]. eexists. split; [reflexivity|]. now destruct search.
Qed.

Lemma searched_filter (search : string) (ps : list Posts.row) :
  search <> EmptyString ->
  searched search ps = filter (MainApp.matches (toLowerCase search)) ps.
Proof. intros H. destruct search; [contradiction|reflexivity]. Qed.

Lemma searched_comm_filter (search : string) (f : Posts.row -> bool) (ps : list Posts.row) :
  searched search (filter f ps) = filter f (searched search ps).
Proof. unfold searched. destruct search; [reflexivity|apply filter_comm]. Qed.

Lemma searched_idem (search : string) (ps : list Posts.row) :
  searched search (searched search ps) = searched search ps.
Proof.
  unfold searched. destruct search; [reflexivity|].
  apply filter_all_In. intros p Hp. now apply filter_In in Hp.
Qed.

Lemma searched_js_sort (search : string) (key : Posts.row -> Z) (ps : list Posts.row) :
  searched search (js_sort (descending key) ps)
  = js_sort (descending key) (searched search ps).
Proof.
  unfold searched. destruct search; [reflexivity|]. symmetry. apply js_sort_filter.
Qed.

(** X14. Ranking is idempotent: feeding the feed back into the ranking with
    the same query, mode and clock gives the feed again. *)
Theorem feed_of_feed_is_feed (ps : list Posts.row) (search sort : string) (now : Z) :
  MainApp.filteredPosts (MainApp.filteredPosts ps search sort now) search sort now
  = MainApp.filteredPosts ps search sort now.
Proof.
  destruct (filteredPosts_cases ps search sort now) as [[-> H] | (Hne & w & Hw & H)].
  - rewrite H.
    destruct (filteredPosts_cases (js_sort (descending Posts.created_at)
                                           (searched search ps)) search "new" now)
      as [[_ H'] | [Hne _]]; [|congruence].
    rewrite H', searched_js_sort, searched_idem.
    apply js_sort_sorted_same, js_sort_sorted.
  - rewrite H.
    destruct (filteredPosts_cases
                (js_sort (descending Posts.score)
                         (filter (MainApp.in_window w now) (searched search ps)))
                search sort now) as [[He _] | (_ & w' & Hw' & H')]; [congruence|].
    rewrite H'. rewrite Hw', <- Hw.
    rewrite searched_js_sort, searched_comm_filter, searched_idem.
    apply js_sort_filter_twice.
Qed.

(** X15. Searching only hides posts of the ranked feed: with a non-empty
    query the feed is the feed without a query, filtered by the search, in
    the same order. *)
Theorem search_hides_posts_of_ranked_feed (ps : list Posts.row)
    (search sort : string) (now : Z) :
  search <> EmptyString ->
  MainApp.filteredPosts ps search sort now
  = filter (MainApp.matches (toLowerCase search))
           (MainApp.filteredPosts ps EmptyString sort now).
Proof.
  intros Hne. rewrite <- (searched_filter search _ Hne).
  destruct (filteredPosts_cases ps search sort now) as [[-> H] | (Hs & w & Hw & H)];
    rewrite H.
  - change (MainApp.filteredPosts ps EmptyString "new" now)
      with (js_sort (descending Posts.created_at) ps).
    symmetry. apply searched_js_sort.
  - destruct (filteredPosts_cases ps EmptyString sort now)
      as [[He _] | (_ & w' & Hw' & H')]; [congruence|].
    rewrite H'. rewrite Hw', <- Hw. cbn [searched].
    rewrite searched_js_sort, searched_comm_filter. reflexivity.
Qed.

Lemma in_window_le (w1 w2 : window_ms) (now : Z) (p : Posts.row) :
  window_le w1 w2 -> MainApp.in_window w1 now p = true ->
  MainApp.in_window w2 now p = true.
Proof.
  destruct w1 as [a|], w2 as [b|]; simpl; try tauto; try reflexivity.
  intros Hle H. apply Z.ltb_lt in H. apply Z.ltb_lt. lia.
Qed.

(** X16. The Top windows nest: the feed of a shorter window is the feed of a
    longer one (all-time the longest) with the posts outside the shorter
    window taken out, so the 3 months feed is part of the 6 months feed,
    that of the 1 year feed and that of the all-time feed, order kept. *)
Theorem shorter_window_feed_is_part_of_longer (ps : list Posts.row)
    (search sort1 sort2 : string) (w1 w2 : window_ms) (now : Z) :
  MainApp.windows sort1 = Some w1 ->
  MainApp.windows sort2 = Some w2 ->
  window_le w1 w2 ->
  MainApp.filteredPosts ps search sort1 now
  = filter (MainApp.in_window w1 now) (MainApp.filteredPosts ps search sort2 now).
Proof.
  intros H1 H2 Hle.
  destruct (filteredPosts_cases ps search sort1 now) as [[-> _] | (_ & w & Hw & ->)];
    [discriminate|].
  destruct (filteredPosts_cases ps search sort2 now) as [[-> _] | (_ & w' & Hw' & ->)];
    [discriminate|].
  rewrite H1 in Hw. rewrite H2 in Hw'. subst w w'.
  rewrite <- js_sort_filter. f_equal.
  induction (searched search ps) as [|p l IH]; simpl; [reflexivity|].
  destruct (MainApp.in_window w1 now p) eqn:Hp1.
  - rewrite (in_window_le w1 w2 now p Hle Hp1). simpl. now rewrite Hp1, IH.
  - destruct (MainApp.in_window w2 now p); simpl; rewrite ?Hp1; exact IH.
Qed.

(** A mode that is neither [new] nor a key of the table [windows] is
    ranked like [top-all]: by score, with no window. *)
Lemma unknown_mode_ranks_like_top_all (ps : list Posts.row)
    (search sort : string) (now : Z) :
  sort <> "new"%string -> MainApp.windows sort = None ->
  MainApp.filteredPosts ps search sort now
  = MainApp.filteredPosts ps search "top-all" now.
Proof.
  intros Hne Hw. unfold MainApp.filteredPosts. rewrite Hw.
  destruct (String.eqb_spec sort "new") as [|_]; [contradiction|]. reflexivity.
Qed.

(** X17. The best posts come first: under a Top mode, however the feed is
    cut in two, every post before the cut has a score at least that of
    every post after it; under [new] the same holds for the timestamps. *)
Theorem feed_prefix_holds_the_best (ps : list Posts.row) (search sort : string)
    (now : Z) (n : nat) (a b : Posts.row) :
  In a (firstn n (MainApp.filteredPosts ps search sort now)) ->
  In b (skipn n (MainApp.filteredPosts ps search sort now)) ->
  (sort <> "new"%string -> Posts.score a >= Posts.score b)
  /\ (sort = "new"%string -> Posts.created_at a >= Posts.created_at b).
Proof.
  intros Ha Hb.
  destruct (filteredPosts_cases ps search sort now) as [[-> H] | (Hne & w & _ & H)];
    rewrite H in Ha, Hb.
  - split; [congruence|]. intros _.
    eapply (StronglySorted_app_inv (fun x y => Posts.created_at x >= Posts.created_at y));
      [|exact Ha|exact Hb].
    rewrite firstn_skipn. apply js_sort_sorted.
  - split; [|congruence]. intros _.
    eapply (StronglySorted_app_inv (fun x y => Posts.score x >= Posts.score y));
      [|exact Ha|exact Hb].
    rewrite firstn_skipn. apply js_sort_sorted.
Qed.

(** * Further properties of the vote handler *)

Lemma handleVote_first_step (user : uuid) (seen : list MainApp.Vote)
    (postId : uuid) (value : Z) :
  voted postId seen = None ->
  exists update,
    MainApp.handleVote user seen postId value
    = [(MainApp.insert user postId value, update)]
    /\ forall s, update s
                 = {| MainApp.posts := displayed_with postId value (MainApp.posts s);
                      MainApp.votes := MainApp.votes s ++ [MainApp.mkVote postId value] |}.
Proof.
  unfold voted, MainApp.handleVote. intros ->. eexists. split; reflexivity.
Qed.

Lemma handleVote_undo_step (user : uuid) (seen : list MainApp.Vote)
    (postId : uuid) (value : Z) :
  voted postId seen = Some (MainApp.mkVote postId value) ->
  exists update,
    MainApp.handleVote user seen postId value
    = [(MainApp.delete_eq_user_id_eq_post_id user postId, update)]
    /\ forall s, update s
                 = {| MainApp.posts := displayed_with postId (- value) (MainApp.posts s);
                      MainApp.votes :=
                        filter (fun v => negb (uuid_eqb (MainApp.post_id v) postId))
                               (MainApp.votes s) |}.
Proof.
  unfold voted, MainApp.handleVote. intros ->.
  cbn [MainApp.vote_value]. rewrite Z.eqb_refl. cbn [negb].
  eexists. split; [reflexivity|]. intros s. reflexivity.
Qed.

(** A click whose handler has one call, and the return of the call. *)
Lemma run_click_one_step (user postId : uuid) (value : Z) (s : MainApp.state)
    (log : list MainApp.request) (r : MainApp.request)
    (update : MainApp.state -> MainApp.state) :
  MainApp.handleVote user (MainApp.votes s) postId value = [(r, update)] ->
  MainApp.run user [MainApp.Click postId value; MainApp.Returned 0]
              (MainApp.mkPage s [] log)
  = MainApp.mkPage (update s) [] (log ++ [r]).
Proof.
  intros H. unfold MainApp.run.
  cbn [fold_left MainApp.on_event MainApp.shown MainApp.in_flight MainApp.calls app].
  rewrite H.
  cbn [MainApp.resume MainApp.next_call MainApp.shown MainApp.in_flight MainApp.calls].
  now rewrite app_nil_r.
Qed.

(** The same arrow clicked twice before the first call has returned, and
    the return of both calls. *)
Lemma run_two_clicks_one_step (user postId : uuid) (value : Z) (s : MainApp.state)
    (log : list MainApp.request) (r : MainApp.request)
    (update : MainApp.state -> MainApp.state) :
  MainApp.handleVote user (MainApp.votes s) postId value = [(r, update)] ->
  MainApp.run user [MainApp.Click postId value; MainApp.Click postId value;
                    MainApp.Returned 0; MainApp.Returned 0]
              (MainApp.mkPage s [] log)
  = MainApp.mkPage (update (update s)) [] (log ++ [r; r]).
Proof.
  intros H. unfold MainApp.run.
  cbn [fold_left MainApp.on_event MainApp.shown MainApp.in_flight MainApp.calls app].
  rewrite H.
  cbn [MainApp.resume MainApp.next_call MainApp.shown MainApp.in_flight MainApp.calls].
  now rewrite !app_nil_r, <- app_assoc.
Qed.

Lemma run_app (user : uuid) (es es' : list MainApp.event) (pg : MainApp.page) :
  MainApp.run user (es ++ es') pg = MainApp.run user es' (MainApp.run user es pg).
Proof. apply fold_left_app. Qed.

Lemma filter_out_appended (postId : uuid) (value : Z) (vs : list MainApp.Vote) :
  voted postId vs = None ->
  filter (fun v => negb (uuid_eqb (MainApp.post_id v) postId))
         (vs ++ [MainApp.mkVote postId value]) = vs.
Proof.
  intros Hnone. rewrite filter_app. cbn [filter MainApp.post_id].
  rewrite uuid_eqb_refl. cbn [negb]. rewrite app_nil_r.
  apply filter_all_In.
  intros v Hv'. destruct (uuid_eqb (MainApp.post_id v) postId) eqn:Hp; [|reflexivity].
  unfold voted in Hnone. apply find_none with (x := v) in Hnone; [|exact Hv'].
  cbv beta in Hnone. congruence.
Qed.

(** X18. A first vote and the same click again, each handled to its end.
    With no vote on the post the click sends the insert call alone, and
    when the call has returned the component holds the new vote and shows
    the score of the post, and of no other, moved by the value.  The same
    click once more, made after that, sends the delete call and brings the
    component back to the state it started from. *)
Theorem handleVote_first_vote_then_undo (user postId : uuid) (value : Z)
    (s : MainApp.state) (log : list MainApp.request) :
  voted postId (MainApp.votes s) = None ->
  let once := [MainApp.Click postId value; MainApp.Returned 0] in
  let pg1 := MainApp.run user once (MainApp.mkPage s [] log) in
  MainApp.in_flight pg1 = []
  /\ MainApp.calls pg1 = log ++ [MainApp.insert user postId value]
  /\ voted postId (MainApp.votes (MainApp.shown pg1))
     = Some (MainApp.mkVote postId value)
  /\ map unscored (MainApp.posts (MainApp.shown pg1)) = map unscored (MainApp.posts s)
  /\ Forall2 (fun p p' => Posts.score p'
                          = if uuid_eqb (Posts.id p) postId
                            then Posts.score p + value else Posts.score p)
             (MainApp.posts s) (MainApp.posts (MainApp.shown pg1))
  /\ MainApp.run user once pg1
     = MainApp.mkPage s []
         (log ++ [MainApp.insert user postId value;
                  MainApp.delete_eq_user_id_eq_post_id user postId]).
Proof.
  intros Hnone once pg1. subst once pg1.
  destruct (handleVote_first_step user (MainApp.votes s) postId value Hnone)
    as (up1 & Hh1 & Hup1).
  rewrite (run_click_one_step user postId value s log _ up1 Hh1), Hup1.
  cbn [MainApp.in_flight MainApp.calls MainApp.shown MainApp.votes MainApp.posts].
  assert (Hv : voted postId (MainApp.votes s ++ [MainApp.mkVote postId value])
               = Some (MainApp.mkVote postId value)).
  { rewrite (voted_after_append postId postId value _ Hnone).
    now rewrite uuid_eqb_refl. }
  destruct (displayed_with_scores postId value (MainApp.posts s)) as [Hu Hsc].
  split; [reflexivity|]. split; [reflexivity|]. split; [exact Hv|].
  split; [exact Hu|]. split; [exact Hsc|].
  set (s1 := {| MainApp.posts := displayed_with postId value (MainApp.posts s);
                MainApp.votes := MainApp.votes s ++ [MainApp.mkVote postId value] |}).
  destruct (handleVote_undo_step user (MainApp.votes s1) postId value Hv)
    as (up2 & Hh2 & Hup2).
  rewrite (run_click_one_step user postId value s1 _ _ up2 Hh2), Hup2.
  cbn [s1 MainApp.posts MainApp.votes].
  rewrite displayed_with_twice, Z.add_opp_diag_r, displayed_with_0.
  rewrite (filter_out_appended _ _ _ Hnone), <- app_assoc.
  now destruct s.
Qed.

Lemma NoDup_map_app_one {A B : Type} (g : A -> B) (l : list A) (x : A) :
  NoDup (map g l) -> ~ In (g x) (map g l) -> NoDup (map g (l ++ [x])).
Proof.
  intros Hnd Hx. eapply Permutation_NoDup;
    [apply Permutation_map, Permutation_cons_append|].
  simpl. now constructor.
Qed.

Lemma click_votes_NoDup (user postId : uuid) (value : Z) (s : MainApp.state) :
  NoDup (map MainApp.post_id (MainApp.votes s)) ->
  NoDup (map MainApp.post_id
             (MainApp.votes (fst (MainApp.click user postId value s)))).
Proof.
  intros Hnd.
  assert (Hkept : NoDup (map MainApp.post_id
                    (filter (fun v => negb (uuid_eqb (MainApp.post_id v) postId))
                            (MainApp.votes s)))) by now apply NoDup_map_filter.
  assert (Hgone : ~ In postId (map MainApp.post_id
                    (filter (fun v => negb (uuid_eqb (MainApp.post_id v) postId))
                            (MainApp.votes s)))).
  { intros Hin. apply in_map_iff in Hin as (v & Hv & Hin).
    apply filter_In in Hin as [_ Hin]. rewrite Hv, uuid_eqb_refl in Hin.
    discriminate. }
  pose proof (click_cases user postId value s) as H.
  destruct (voted postId (MainApp.votes s)) as [existing|] eqn:Hv.
  - cbv zeta in H. destruct (MainApp.vote_value existing =? value);
      rewrite H; cbn [fst MainApp.votes]; [exact Hkept|].
    now apply NoDup_map_app_one.
  - rewrite H. cbn [fst MainApp.votes]. apply NoDup_map_app_one; [exact Hnd|].
    intros Hin. apply in_map_iff in Hin as (v & Hpv & Hin).
    unfold voted in Hv. apply find_none with (x := v) in Hv; [|exact Hin].
    cbv beta in Hv. rewrite Hpv, uuid_eqb_refl in Hv. discriminate.
Qed.

(** X19. One vote per post, as long as a click waits for the one before.
    When every click is handled to its end before the next one, the
    component never comes to hold two votes for one post, whatever the posts
    and values clicked.  A second click on the same arrow before the call
    of the first has returned breaks this: both handlers see no vote on the
    post, both send the insert call, and the component ends with two votes
    for the post and shows its score moved by twice the value. *)
Theorem handleVote_keeps_one_vote_per_post (user : uuid) (s : MainApp.state)
    (log : list MainApp.request) :
  NoDup (map MainApp.post_id (MainApp.votes s)) ->
  (forall clicks : list (uuid * Z),
      let pg := MainApp.run user
                  (flat_map (fun c => [MainApp.Click (fst c) (snd c);
                                       MainApp.Returned 0; MainApp.Returned 0])
                            clicks)
                  (MainApp.mkPage s [] log) in
      MainApp.in_flight pg = []
      /\ NoDup (map MainApp.post_id (MainApp.votes (MainApp.shown pg))))
  /\ (forall postId value,
        voted postId (MainApp.votes s) = None ->
        let pg := MainApp.run user
                    [MainApp.Click postId value; MainApp.Click postId value;
                     MainApp.Returned 0; MainApp.Returned 0]
                    (MainApp.mkPage s [] log) in
        MainApp.in_flight pg = []
        /\ MainApp.calls pg = log ++ [MainApp.insert user postId value;
                                      MainApp.insert user postId value]
        /\ MainApp.votes (MainApp.shown pg)
           = MainApp.votes s ++ [MainApp.mkVote postId value;
                                 MainApp.mkVote postId value]
        /\ ~ NoDup (map MainApp.post_id (MainApp.votes (MainApp.shown pg)))
        /\ Forall2 (fun p p' => Posts.score p'
                                = if uuid_eqb (Posts.id p) postId
                                  then Posts.score p + 2 * value else Posts.score p)
                   (MainApp.posts s) (MainApp.posts (MainApp.shown pg))).
Proof.
  intros Hnd. split.
  - intros clicks. cbv zeta. revert s log Hnd.
    induction clicks as [|[postId value] clicks IH]; intros s log Hnd.
    + split; [reflexivity | exact Hnd].
    + cbn [flat_map fst snd].
      rewrite (run_app user [MainApp.Click postId value; MainApp.Returned 0;
                             MainApp.Returned 0]).
      rewrite click_run. apply IH. now apply click_votes_NoDup.
  - intros postId value Hnone. cbv zeta.
    destruct (handleVote_first_step user (MainApp.votes s) postId value Hnone)
      as (up & Hh & Hup).
    rewrite (run_two_clicks_one_step user postId value s log _ up Hh), !Hup.
    cbn [MainApp.in_flight MainApp.calls MainApp.shown MainApp.votes MainApp.posts].
    split; [reflexivity|]. split; [reflexivity|].
    rewrite <- app_assoc. cbn [app]. split; [reflexivity|]. split.
    + rewrite map_app. cbn [map MainApp.post_id]. intros Hdup.
      apply NoDup_remove_2 in Hdup. apply Hdup.
      apply in_or_app. right. now left.
    + rewrite displayed_with_twice.
      eapply Forall2_impl;
        [|exact (proj2 (displayed_with_scores postId (value + value) (MainApp.posts s)))].
      intros a b Hab. cbv beta in Hab.
      destruct (uuid_eqb (Posts.id a) postId); lia.
Qed.

(** ** The component keeps showing the database *)

Lemma db_vote_In (d : db) (u p : uuid) (v : Z) :
  db_vote d u p = Some v -> In (PostVotes.mk p u v) (post_votes d).
Proof.
  unfold db_vote. destruct (find _ (post_votes d)) as [x|] eqn:Hf; [|discriminate].
  intros [= <-]. apply find_some in Hf as [Hin Hhit].
  apply eq_user_id_eq_post_id_key in Hhit. destruct x as [xp xu xv].
  injection Hhit as -> ->. exact Hin.
Qed.

Lemma db_vote_None (d : db) (u p : uuid) :
  db_vote d u p = None -> has_voted_on_post d u p = false.
Proof.
  unfold db_vote, has_voted_on_post.
  destruct (find _ (post_votes d)) as [x|] eqn:Hf; [discriminate|]. intros _.
  apply not_true_is_false. intros Hex. apply existsb_exists in Hex as (x & Hx & Hhit).
  apply find_none with (x := x) in Hf; [|exact Hx].
  unfold eq_user_id_eq_post_id in Hf. congruence.
Qed.

Lemma eq_user_id_eq_post_id_other (u p p' : uuid) (x : PostVotes.row) :
  uuid_eqb p' p = false -> eq_user_id_eq_post_id u p' x = true ->
  negb (eq_user_id_eq_post_id u p x) = true.
Proof.
  intros Hp Hx. apply eq_user_id_eq_post_id_key in Hx.
  destruct (eq_user_id_eq_post_id u p x) eqn:Hx'; [|reflexivity].
  apply eq_user_id_eq_post_id_key in Hx'. rewrite Hx in Hx'. injection Hx' as ->.
  rewrite uuid_eqb_refl in Hp. discriminate.
Qed.

Lemma find_after_delete (u p p' : uuid) (votes : list PostVotes.row) :
  option_map PostVotes.vote_value
    (find (eq_user_id_eq_post_id u p')
          (filter (fun x => negb (eq_user_id_eq_post_id u p x)) votes))
  = if uuid_eqb p' p then None
    else option_map PostVotes.vote_value (find (eq_user_id_eq_post_id u p') votes).
Proof.
  destruct (uuid_eqb p' p) eqn:Hp.
  - apply uuid_eqb_eq in Hp. subst p'.
    now rewrite (find_filter_negb (eq_user_id_eq_post_id u p)).
  - rewrite find_filter_kept; [reflexivity|].
    intros x. now apply eq_user_id_eq_post_id_other.
Qed.

Lemma find_after_insert (u p p' : uuid) (w : Z) (votes : list PostVotes.row) :
  find (eq_user_id_eq_post_id u p) votes = None ->
  option_map PostVotes.vote_value
    (find (eq_user_id_eq_post_id u p') (votes ++ [PostVotes.mk p u w]))
  = if uuid_eqb p' p then Some w
    else option_map PostVotes.vote_value (find (eq_user_id_eq_post_id u p') votes).
Proof.
  intros Hnone. rewrite find_app. cbn [find].
  unfold eq_user_id_eq_post_id at 2. cbn [PostVotes.user_id PostVotes.post_id].
  rewrite uuid_eqb_refl, (uuid_eqb_sym p p'). cbn [andb].
  destruct (uuid_eqb p' p) eqn:Hp.
  - apply uuid_eqb_eq in Hp. subst p'. now rewrite Hnone.
  - now destruct (find (eq_user_id_eq_post_id u p') votes).
Qed.

Lemma displayed_rows_shifted (p : uuid) (delta : Z) (ps : list MainApp.Post)
    (rows rows' : list Posts.row) :
  shifted (fun i => if uuid_eqb i p then delta else 0) rows rows' ->
  (forall q, In q ps -> In q rows) ->
  forall q', In q' (displayed_with p delta ps) -> In q' rows'.
Proof.
  intros Hsh Hps q' Hq'. unfold displayed_with in Hq'.
  apply in_map_iff in Hq' as (q & <- & Hq).
  pose proof (shifted_In_fwd _ _ _ q Hsh (Hps q Hq)) as Hin. cbv beta in Hin.
  destruct (uuid_eqb (Posts.id q) p); [exact Hin|].
  now rewrite Z.add_0_r, with_score_same in Hin.
Qed.

Lemma client_vote_None (s : MainApp.state) (p : uuid) :
  voted p (MainApp.votes s) = None -> client_vote s p = None.
Proof. unfold client_vote. now intros ->. Qed.

(** X20. The handler's guess is right when its calls go through.  Let the
    component show the database for the signed-in user (its votes are the
    user's votes, its posts are rows of [posts]), the database satisfy its
    constraints, the post exist with a score two or more away from the ends
    of the [INTEGER] range, and the value be 1 or -1.  Then after the click,
    handled to its end, and the calls it sends, run in order, the component
    shows the database again. *)
Theorem handleVote_keeps_mirroring (d : db) (u postId : uuid) (value : Z)
    (s : MainApp.state) :
  constraints_hold d ->
  mirrors d u s ->
  value = 1 \/ value = -1 ->
  post_exists d postId = true ->
  (forall q, In q (posts d) -> Posts.id q = postId ->
             int4_min + 2 <= Posts.score q <= int4_max - 2) ->
  mirrors (commit_all d (map (MainApp.statement u)
                             (snd (MainApp.click u postId value s))))
          u (fst (MainApp.click u postId value s)).
Proof.
  intros Hc [Hvotes Hposts] Hvalue Hex Hrange.
  pose proof (click_cases u postId value s) as H.
  pose proof (Hvotes postId) as Hthis. unfold client_vote in Hthis.
  destruct (voted postId (MainApp.votes s)) as [existing|] eqn:Hv.
  - (* a vote exists: the delete call, then perhaps the insert call *)
    cbn [option_map] in Hthis. symmetry in Hthis.
    pose proof (db_vote_In _ _ _ _ Hthis) as Hin.
    assert (Hev : MainApp.vote_value existing = 1 \/ MainApp.vote_value existing = -1).
    { destruct Hc as [_ Hchk _]. rewrite Forall_forall in Hchk.
      apply (vote_value_check_iff (PostVotes.mk postId u _)), Hchk, Hin. }
    destruct (delete_own_vote_Ok d u postId _ Hc Hin) as (rows1 & Hsh1 & Hdel).
    { intros q Hq Hid. specialize (Hrange q Hq Hid). lia. }
    cbv zeta in H. destruct (MainApp.vote_value existing =? value) eqn:Hsame;
      rewrite H; cbn [fst snd map MainApp.statement commit_all fold_left];
      rewrite (commit_Ok d _ (DeleteVotes (Some u) (eq_user_id_eq_post_id u postId)) Hdel).
    + split; cbn [MainApp.votes MainApp.posts posts post_votes].
      * intros p'. unfold client_vote, db_vote. cbn [MainApp.votes post_votes].
        rewrite voted_after_filter, find_after_delete.
        destruct (uuid_eqb p' postId); [reflexivity | apply Hvotes].
      * exact (displayed_rows_shifted _ _ _ _ _ Hsh1 Hposts).
    + set (d1 := {| clubs := clubs d; club_memberships := club_memberships d;
                    posts := rows1;
                    post_votes := filter (fun x => negb (eq_user_id_eq_post_id u postId x))
                                         (post_votes d) |}).
      assert (Hnot : has_voted_on_post d1 u postId = false).
      { unfold has_voted_on_post. cbn [d1 post_votes].
        apply (existsb_filter_negb (eq_user_id_eq_post_id u postId)). }
      destruct (insert_post_vote_Ok d1 u postId value Hnot Hvalue) as (rows2 & Hsh2 & Hins).
      { unfold post_exists. cbn [d1 posts].
        rewrite (shifted_post_exists _ _ _ postId Hsh1). exact Hex. }
      { cbn [d1 posts]. intros q' Hq' Hid'.
        destruct (shifted_In _ _ _ _ Hsh1 Hq') as (q & Hq & Hid & Hsc).
        rewrite Hid in Hid'. specialize (Hrange q Hq Hid').
        rewrite Hsc, Hid', uuid_eqb_refl. lia. }
      fold d1. rewrite (commit_Ok d1 _ (InsertVote (Some u) (PostVotes.mk postId u value)) Hins).
      split; cbn [MainApp.votes MainApp.posts posts post_votes d1].
      * intros p'. unfold client_vote, db_vote. cbn [MainApp.votes post_votes].
        rewrite voted_after_append
          by (rewrite voted_after_filter; now rewrite uuid_eqb_refl).
        rewrite find_after_insert
          by apply (find_filter_negb (eq_user_id_eq_post_id u postId)).
        rewrite voted_after_filter, find_after_delete.
        destruct (uuid_eqb p' postId); [reflexivity | apply Hvotes].
      * apply (displayed_rows_shifted postId _ (MainApp.posts s) (posts d));
          [|exact Hposts].
        eapply shifted_trans; [|exact Hsh1|exact Hsh2].
        intros i. cbv beta. destruct (uuid_eqb i postId); lia.
  - (* no vote yet: the insert call *)
    cbn [option_map] in Hthis. symmetry in Hthis.
    pose proof (db_vote_None _ _ _ Hthis) as Hnot.
    destruct (insert_post_vote_Ok d u postId value Hnot Hvalue Hex) as (rows & Hsh & Hins).
    { intros q Hq Hid. specialize (Hrange q Hq Hid). lia. }
    rewrite H. cbn [fst snd map MainApp.statement commit_all fold_left].
    rewrite (commit_Ok d _ (InsertVote (Some u) (PostVotes.mk postId u value)) Hins).
    split; cbn [MainApp.votes MainApp.posts posts post_votes].
    + intros p'. unfold client_vote, db_vote. cbn [MainApp.votes post_votes].
      rewrite (voted_after_append _ _ _ _ Hv).
      rewrite find_after_insert.
      * destruct (uuid_eqb p' postId); [reflexivity | apply Hvotes].
      * unfold db_vote in Hthis.
        now destruct (find (eq_user_id_eq_post_id u postId) (post_votes d)).
    + exact (displayed_rows_shifted _ _ _ _ _ Hsh Hposts).
Qed.

(** * Properties of the onboarding component *)

Lemma existsb_eqb_In (x : string) (l : list string) :
  existsb (String.eqb x) l = true <-> In x l.
Proof.
  rewrite existsb_exists. split.
  - intros (y & Hy & Heq). apply String.eqb_eq in Heq. now subst.
  - intros H. exists x. split; [exact H | apply String.eqb_refl].
Qed.

Lemma existsb_eqb_not_In (x : string) (l : list string) :
  existsb (String.eqb x) l = false <-> ~ In x l.
Proof.
  rewrite <- existsb_eqb_In. now destruct (existsb (String.eqb x) l).
Qed.


(** X21. Toggling a hobby flips that hobby and no other: it is selected
    afterwards exactly when it was not before, every other hobby keeps its
    state, no hobby gets selected twice, and toggling a hobby that was not
    selected twice in a row gives the selection back as it was. *)
Theorem toggleHobby_flips_one_hobby (id : string) (prev : list string) :
  (In id (Onboarding.toggleHobby id prev) <-> ~ In id prev)
  /\ (forall h, h <> id -> (In h (Onboarding.toggleHobby id prev) <-> In h prev))
  /\ (NoDup prev -> NoDup (Onboarding.toggleHobby id prev))
  /\ (~ In id prev ->
      Onboarding.toggleHobby id (Onboarding.toggleHobby id prev) = prev).
Proof.
  unfold Onboarding.toggleHobby at 1 2 3.
  destruct (existsb (String.eqb id) prev) eqn:Hex.
  - apply existsb_eqb_In in Hex. split; [|split; [|split]].
    + rewrite filter_In, String.eqb_refl. simpl. intuition discriminate.
    + intros h Hh. rewrite filter_In.
      destruct (String.eqb_spec h id); [contradiction|]. simpl. tauto.
    + apply NoDup_filter.
    + tauto.
  - pose proof Hex as Hex'. apply existsb_eqb_not_In in Hex. split; [|split; [|split]].
    + rewrite in_app_iff. simpl. tauto.
    + intros h Hh. rewrite in_app_iff. simpl. intuition congruence.
    + intros Hnd. eapply Permutation_NoDup; [apply Permutation_cons_append|].
      now constructor.
    + intros _. unfold Onboarding.toggleHobby. rewrite Hex'.
      assert (Hin : existsb (String.eqb id) (prev ++ [id]) = true).
      { apply existsb_eqb_In, in_or_app. right. now left. }
      rewrite Hin, filter_app. cbn [filter]. rewrite String.eqb_refl. cbn [negb].
      rewrite app_nil_r. apply filter_all_In.
      intros h Hh. destruct (String.eqb_spec h id); [now subst|reflexivity].
Qed.




(** The username input changes on a page with no lookup under way. *)
Lemma onUsernameChange_cases (v : string) (s : Onboarding.state) :
  let typed := Onboarding.setUsernameError "" (Onboarding.setUsername v s) in
  if (3 <=? Z.of_nat (String.length v)) && Onboarding.username_pattern v then
    Onboarding.onUsernameChange v s = (Onboarding.setCheckingUsername true typed, true)
  else if 3 <=? Z.of_nat (String.length v) then
    Onboarding.onUsernameChange v s
    = (Onboarding.setUsernameError "Only letters, numbers, and underscores" typed, false)
  else
    Onboarding.onUsernameChange v s = (typed, false).
Proof.
  unfold Onboarding.onUsernameChange, Onboarding.checkUsername.
  destruct (Z.leb_spec 3 (Z.of_nat (String.length v))) as [Hlen|Hlen]; [|reflexivity].
  destruct (Z.ltb_spec (Z.of_nat (String.length v)) 3) as [|_]; [lia|].
  now destruct (Onboarding.username_pattern v).
Qed.

(** X23. The username and its lookup.  When the username input changes to
    [v] on the first step, with no lookup under way, and the lookup the
    change may have sent has returned, the way forward is open exactly when
    [v] has three characters or more, all of them letters, digits or
    underscores, and the lookup found no profile with that name; the
    message about three characters is never left, the check not being run
    on a shorter name.  The handler does not wait for the lookup, though:
    when the input changes from a well-formed name [v] to a name [w] of
    three characters or more that is not well-formed before the lookup of
    [v] has returned, and that lookup then finds no profile, its return
    clears the message about [w], and the way forward is open with [w] as
    the username. *)
Theorem username_opens_the_way_iff_valid_and_free (v : string)
    (s : Onboarding.state) :
  Onboarding.step s = 0 ->
  (forall taken,
      let pg := fst (run_events [Onboarding.ChangeUsername v;
                                 Onboarding.LookupReturned 0 taken]
                                (Onboarding.mkPage s [])) in
      (Onboarding.canProceed (Onboarding.shown pg) = true
       <-> (3 <= String.length v)%nat
           /\ v <> EmptyString /\ Onboarding.all_chars Onboarding.word_char v = true
           /\ taken = false)
      /\ Onboarding.username (Onboarding.shown pg) = v
      /\ Onboarding.usernameError (Onboarding.shown pg)
         <> "Username must be at least 3 characters"%string
      /\ Onboarding.lookups pg = [])
  /\ (forall w,
        (3 <= String.length v)%nat -> Onboarding.username_pattern v = true ->
        (3 <= String.length w)%nat -> Onboarding.username_pattern w = false ->
        let pg := fst (run_events [Onboarding.ChangeUsername v;
                                   Onboarding.ChangeUsername w;
                                   Onboarding.LookupReturned 0 false]
                                  (Onboarding.mkPage s [])) in
        Onboarding.username (Onboarding.shown pg) = w
        /\ Onboarding.canProceed (Onboarding.shown pg) = true
        /\ Onboarding.lookups pg = []).
Proof.
  intros Hstep. split.
  - intros taken. cbv zeta.
    cbn [run_events Onboarding.handle Onboarding.shown Onboarding.lookups].
    pose proof (onUsernameChange_cases v s) as H. cbv zeta in H.
    destruct (Z.leb_spec 3 (Z.of_nat (String.length v))) as [Hlen|Hlen].
    + assert (Hne : v <> EmptyString) by (destruct v; simpl in *; [lia|discriminate]).
      destruct (Onboarding.username_pattern v) eqn:Hpat; cbn [andb] in H; rewrite H;
        cbn [app fst snd Onboarding.handle Onboarding.shown Onboarding.lookups
             nth_error firstn skipn];
        unfold Onboarding.canProceed, Onboarding.checkUsername_resumed;
        cbn [Onboarding.step Onboarding.setUsernameError Onboarding.setCheckingUsername
             Onboarding.setUsername Onboarding.username Onboarding.usernameError
             Onboarding.checkingUsername];
        rewrite Hstep; cbn [Z.eqb].
      * destruct (Z.leb_spec 3 (Z.of_nat (String.length v))); [|lia].
        assert (Hall : Onboarding.all_chars Onboarding.word_char v = true).
        { unfold Onboarding.username_pattern in Hpat. now destruct v. }
        destruct taken; cbn [String.eqb andb negb];
          (split; [|split; [reflexivity|split; [discriminate|reflexivity]]]).
        -- split; [discriminate|]. intros (_ & _ & _ & ?). discriminate.
        -- split; [intros _|reflexivity]. repeat split; auto. lia.
      * rewrite andb_false_r. cbn [andb].
        split; [|split; [reflexivity|split; [discriminate|reflexivity]]].
        split; [discriminate|].
        intros (_ & _ & Hall & _). unfold Onboarding.username_pattern in Hpat.
        destruct v; [contradiction|]. congruence.
    + cbn [andb] in H. rewrite H.
      cbn [app fst snd Onboarding.handle Onboarding.shown Onboarding.lookups nth_error].
      unfold Onboarding.canProceed.
      cbn [Onboarding.step Onboarding.setUsernameError Onboarding.setCheckingUsername
           Onboarding.setUsername Onboarding.username Onboarding.usernameError
           Onboarding.checkingUsername].
      rewrite Hstep. cbn [Z.eqb].
      destruct (Z.leb_spec 3 (Z.of_nat (String.length v))); [lia|].
      cbn [andb]. split; [|split; [reflexivity|split; [discriminate|reflexivity]]].
      split; [discriminate|]. intros (? & _). lia.
  - intros w Hv Hpv Hw Hpw. cbv zeta.
    cbn [run_events Onboarding.handle Onboarding.shown Onboarding.lookups].
    pose proof (onUsernameChange_cases v s) as H1. cbv zeta in H1.
    destruct (Z.leb_spec 3 (Z.of_nat (String.length v))); [|lia].
    rewrite Hpv in H1. cbn [andb] in H1. rewrite H1.
    cbn [app fst snd Onboarding.handle Onboarding.shown Onboarding.lookups].
    match goal with
    | |- context [Onboarding.onUsernameChange w ?s1] =>
        pose proof (onUsernameChange_cases w s1) as H2
    end.
    cbv zeta in H2.
    destruct (Z.leb_spec 3 (Z.of_nat (String.length w))); [|lia].
    rewrite Hpw in H2. cbn [andb] in H2. rewrite H2.
    cbn [app fst snd Onboarding.handle Onboarding.shown Onboarding.lookups
         nth_error firstn skipn].
    unfold Onboarding.canProceed, Onboarding.checkUsername_resumed.
    cbn [Onboarding.step Onboarding.setUsernameError Onboarding.setCheckingUsername
         Onboarding.setUsername Onboarding.username Onboarding.usernameError
         Onboarding.checkingUsername].
    rewrite Hstep. cbn [Z.eqb String.eqb andb negb].
    destruct (Z.leb_spec 3 (Z.of_nat (String.length w))); [|lia].
    repeat split.
Qed.

(** ** Finishing the onboarding *)

Lemma insert_membership_rows_own (u : uuid) (rows table : list ClubMemberships.row) :
  (forall r, In r rows -> ClubMemberships.user_id r = u) ->
  NoDup (map membership_key rows) ->
  (forall r, In r rows -> ~ In (membership_key r) (map membership_key table)) ->
  insert_membership_rows (Some u) rows table = Ok (table ++ rows).
Proof.
  revert table. induction rows as [|r rows IH]; intros table Hown Hnd Hnew; simpl.
  - now rewrite app_nil_r.
  - unfold users_can_join_clubs. rewrite (Hown r (or_introl eq_refl)), uuid_eqb_refl.
    cbn [require bind].
    assert (Hfree : existsb (same_membership r) table = false).
    { apply not_true_is_false. intros Hex.
      apply existsb_exists in Hex as (m & Hm & Hsame).
      apply (Hnew r (or_introl eq_refl)). apply in_map_iff. exists m.
      split; [|exact Hm]. unfold same_membership in Hsame.
      apply andb_true_iff in Hsame as [Hu Hc]. apply uuid_eqb_eq in Hu, Hc.
      unfold membership_key. now rewrite Hu, Hc. }
    rewrite Hfree. cbn [negb require bind].
    simpl in Hnd. inversion Hnd as [|? ? Hr Hnd']; subst.
    rewrite IH; [now rewrite <- app_assoc| | |].
    + intros r' Hr'. apply Hown. now right.
    + exact Hnd'.
    + intros r' Hr' Hin. rewrite map_app in Hin. apply in_app_or in Hin as [Hin|Hin].
      * apply (Hnew r' (or_intror Hr')). exact Hin.
      * simpl in Hin. destruct Hin as [Heq|[]]. apply Hr. rewrite Heq.
        now apply in_map.
Qed.

Lemma slug_of_id (h : string) : Onboarding.slug_of h = h.
Proof.
  unfold Onboarding.slug_of, Onboarding.HOBBIES. cbn [find Onboarding.id].
  repeat match goal with
         | |- context [String.eqb ?a h] =>
             destruct (String.eqb_spec a h) as [<-|_]; [reflexivity|]
         end.
  reflexivity.
Qed.

Lemma NoDup_map_In_inj {A B : Type} (g : A -> B) (l : list A) (a b : A) :
  NoDup (map g l) -> In a l -> In b l -> g a = g b -> a = b.
Proof.
  induction l as [|x l IH]; simpl; [tauto|].
  intros Hnd Ha Hb Heq. inversion Hnd as [|? ? Hx Hnd']; subst.
  destruct Ha as [<-|Ha], Hb as [<-|Hb]; auto.
  - exfalso. apply Hx. rewrite Heq. now apply in_map.
  - exfalso. apply Hx. rewrite <- Heq. now apply in_map.
Qed.

(** X24. Finishing the onboarding writes all or nothing of the profile and
    joins the chosen clubs.  For a user without memberships yet, on a
    [clubs] table with distinct ids: when the profile insert is refused the
    handler stops with that error and both tables are as before; otherwise
    the profile is stored under the chosen username, and the user is a
    member of a club of the table exactly when its slug is one of the
    selected hobbies; posts and votes are not touched. *)
Theorem handleFinish_joins_the_chosen_clubs (user : uuid) (avatar_url : option string)
    (s : Onboarding.state) (profiles : list Profiles.row) (d : db) :
  NoDup (map Clubs.id (clubs d)) ->
  (forall c, is_club_member d user c = false) ->
  let '(profiles', d', out) := Onboarding.handleFinish user avatar_url s profiles d in
  (forall e, out = Onboarding.Failed e -> profiles' = profiles /\ d' = d)
  /\ (out = Onboarding.Welcome ->
      (exists b, profiles' = profiles
                             ++ [Profiles.mk user (Onboarding.username s) avatar_url b])
      /\ (forall club, In club (clubs d) ->
            (is_club_member d' user (Clubs.id club) = true
             <-> In (Clubs.slug club) (Onboarding.selectedHobbies s)))
      /\ clubs d' = clubs d /\ posts d' = posts d /\ post_votes d' = post_votes d).
Proof.
  intros Hpk Hnew. unfold Onboarding.handleFinish.
  destruct (insert_profile _ _ profiles) as [profiles'|e] eqn:Hprof.
  2:{ split; [auto | discriminate]. }
  cbv zeta.
  rewrite (map_ext _ (fun h => h) slug_of_id), map_id.
  set (found := filter (fun c => existsb (String.eqb (Clubs.slug c))
                                         (Onboarding.selectedHobbies s)) (clubs d)).
  set (rows := map (fun club => ClubMemberships.mk user (Clubs.id club)) found).
  assert (Hrows : insert_membership_rows (Some user) rows (club_memberships d)
                  = Ok (club_memberships d ++ rows)).
  { apply insert_membership_rows_own.
    - intros r Hr. apply in_map_iff in Hr as (c & <- & _). reflexivity.
    - unfold rows. rewrite map_map.
      assert (Hids : NoDup (map Clubs.id found)) by now apply NoDup_map_filter.
      clear -Hids. induction found as [|c l IH]; simpl; [constructor|].
      simpl in Hids. inversion Hids as [|? ? Hc Hl]; subst.
      constructor; [|now apply IH].
      intros Hin. apply Hc. apply in_map_iff in Hin as (c' & Hc' & Hin).
      unfold membership_key in Hc'. simpl in Hc'. injection Hc' as <-.
      now apply in_map.
    - intros r Hr Hin. apply in_map_iff in Hr as (c & <- & _).
      unfold membership_key at 1 in Hin. simpl in Hin.
      apply is_club_member_In in Hin. rewrite Hnew in Hin. discriminate. }
  assert (Hfk : forallb (fun NEW => club_exists d (ClubMemberships.club_id NEW)) rows
                = true).
  { apply forallb_forall. intros r Hr. apply in_map_iff in Hr as (c & <- & Hc).
    apply filter_In in Hc as [Hc _]. unfold club_exists.
    apply (existsb_In_true _ _ c Hc). apply uuid_eqb_refl. }
  unfold insert_club_memberships. rewrite Hrows. cbn [bind]. rewrite Hfk.
  cbn [require bind].
  split; [discriminate|]. intros _.
  unfold insert_profile in Hprof.
  passed Hprof H1. passed Hprof H2. passed Hprof H3. injection Hprof as <-.
  split; [eauto|]. split; [|repeat split].
  intros club Hclub. rewrite is_club_member_In. cbn [club_memberships].
  rewrite map_app, in_app_iff. split.
  - intros [Hold | Hin].
    + apply is_club_member_In in Hold. rewrite Hnew in Hold. discriminate.
    + apply in_map_iff in Hin as (r & Hr & Hin).
      apply in_map_iff in Hin as (c & <- & Hc).
      unfold membership_key in Hr. simpl in Hr. injection Hr as Hid.
      apply filter_In in Hc as [Hc Hsel].
      rewrite (NoDup_map_In_inj Clubs.id _ _ _ Hpk Hclub Hc (eq_sym Hid)).
      now apply existsb_eqb_In.
  - intros Hsel. right. apply in_map_iff.
    exists (ClubMemberships.mk user (Clubs.id club)). split; [reflexivity|].
    unfold rows. apply in_map_iff. exists club. split; [reflexivity|].
    apply filter_In. split; [exact Hclub|].
    now apply existsb_eqb_In.
Qed.

(** * Further properties of the feed component's handlers *)

(** X25. The handler does not take its guess back: when the component shows
    the database and holds no vote on the post, and the insert call the
    click sends is refused, the database is as before but the component
    holds the vote all the same, so it no longer shows the database. *)
Theorem handleVote_keeps_guess_when_refused (d : db) (u postId : uuid) (value : Z)
    (s : MainApp.state) (e : sql_error) :
  mirrors d u s ->
  voted postId (MainApp.votes s) = None ->
  insert_post_vote (Some u) (PostVotes.mk postId u value) d = Err e ->
  let s' := fst (MainApp.click u postId value s) in
  let d' := commit_all d (map (MainApp.statement u)
                              (snd (MainApp.click u postId value s))) in
  d' = d
  /\ client_vote s' postId = Some value
  /\ db_vote d' u postId = None
  /\ ~ mirrors d' u s'.
Proof.
  intros [Hvotes Hposts] Hnone Hrefused s' d'. subst s' d'.
  pose proof (click_cases u postId value s) as H. rewrite Hnone in H.
  rewrite H. cbn [fst snd map MainApp.statement commit_all fold_left].
  assert (Hd : commit d (InsertVote (Some u) (PostVotes.mk postId u value)) = d).
  { unfold commit. cbn [run_txn]. now rewrite Hrefused. }
  rewrite Hd.
  assert (Hc : client_vote
                 {| MainApp.posts := displayed_with postId value (MainApp.posts s);
                    MainApp.votes := MainApp.votes s ++ [MainApp.mkVote postId value] |}
                 postId = Some value).
  { unfold client_vote. cbn [MainApp.votes].
    rewrite (voted_after_append _ _ _ _ Hnone), uuid_eqb_refl. reflexivity. }
  assert (Hdb : db_vote d u postId = None).
  { rewrite <- Hvotes. now apply client_vote_None. }
  split; [reflexivity|]. split; [exact Hc|]. split; [exact Hdb|].
  intros [Hvotes' _]. specialize (Hvotes' postId). congruence.
Qed.

(** ** Trimming *)

Lemma trimEnd_idem (s : string) : trimEnd (trimEnd s) = trimEnd s.
Proof.
  induction s as [|c s IH]; simpl; [reflexivity|].
  destruct (trimEnd s) as [|k ks] eqn:Hk.
  - destruct (is_space c) eqn:Hc; simpl; [reflexivity|]. now rewrite Hc.
  - simpl. simpl in IH. now rewrite IH.
Qed.

Lemma trimStart_blank (s : string) :
  trimStart s = EmptyString <-> Onboarding.all_chars is_space s = true.
Proof.
  induction s as [|c s IH]; simpl; [tauto|].
  destruct (is_space c); simpl; [exact IH|]. split; discriminate.
Qed.

(** What is left of a string that starts with a visible character starts
    with that character. *)
Lemma trimEnd_head (c : ascii) (s : string) :
  is_space c = false -> exists rest, trimEnd (String c s) = String c rest.
Proof.
  intros Hc. simpl. destruct (trimEnd s); [rewrite Hc|]; eauto.
Qed.

Lemma trimStart_head (s : string) :
  match trimStart s with
  | EmptyString => True
  | String c _ => is_space c = false
  end.
Proof.
  induction s as [|c s IH]; simpl; [exact I|].
  destruct (is_space c) eqn:Hc; [exact IH | exact Hc].
Qed.

Lemma trim_blank (s : string) :
  trim s = EmptyString <-> Onboarding.all_chars is_space s = true.
Proof.
  unfold trim. rewrite <- trimStart_blank.
  pose proof (trimStart_head s) as Hh. destruct (trimStart s) as [|c t].
  - simpl. tauto.
  - destruct (trimEnd_head c t Hh) as [rest ->]. split; discriminate.
Qed.

Lemma trim_idem (s : string) : trim (trim s) = trim s.
Proof.
  unfold trim. pose proof (trimStart_head s) as Hh.
  destruct (trimStart s) as [|c t]; [reflexivity|].
  destruct (trimEnd_head c t Hh) as [rest Hrest]. rewrite Hrest.
  cbn [trimStart]. rewrite Hh, <- Hrest. apply trimEnd_idem.
Qed.

(** X26. Creating a post.  A title of blanks only, or no active club, sends
    nothing and changes nothing.  A refused insert changes neither the
    database nor the form.  A post that is created is stored with a title
    that is not empty and has no blank at either end, a content that is
    absent or such a text, and score 0; the form is cleared. *)
Theorem handleCreatePost_stores_trimmed_posts (id : uuid) (created_at : Z)
    (user : uuid) (activeClub : option uuid) (f : NewPost.form) (d : db) :
  let '(f', d', out) := NewPost.handleCreatePost id created_at user activeClub f d in
  ((Onboarding.all_chars is_space (NewPost.newTitle f) = true \/ activeClub = None) ->
   out = NewPost.NotSent)
  /\ (out <> NewPost.Created -> d' = d /\ f' = f)
  /\ (out = NewPost.Created ->
      exists club p,
        activeClub = Some club
        /\ posts d' = posts d ++ [p]
        /\ Posts.club_id p = club /\ Posts.user_id p = user
        /\ is_club_member d user club = true
        /\ Posts.title p <> EmptyString /\ trim (Posts.title p) = Posts.title p
        /\ (forall c, Posts.content p = Some c -> c <> EmptyString /\ trim c = c)
        /\ Posts.score p = 0
        /\ f' = NewPost.mkForm "" "" false).
Proof.
  unfold NewPost.handleCreatePost.
  destruct (trim (NewPost.newTitle f)) as [|c t] eqn:Ht.
  { split; [reflexivity|]. split; [auto|discriminate]. }
  assert (Hvisible : Onboarding.all_chars is_space (NewPost.newTitle f) <> true).
  { intros Hb. apply trim_blank in Hb. congruence. }
  destruct activeClub as [club|].
  2:{ split; [reflexivity|]. split; [auto|discriminate]. }
  destruct (insert_post (Some user) _ d) as [d'|e] eqn:Hins.
  2:{ split; [intros [Hb|Hn]; [contradiction|discriminate]|].
      split; [auto|discriminate]. }
  split; [intros [Hb|Hn]; [contradiction|discriminate]|].
  split; [congruence|]. intros _.
  unfold insert_post in Hins. passed Hins Hpol. passed Hins Hpk. passed Hins Hfk.
  injection Hins as <-.
  exists club, (NewPost.row id created_at club user f).
  unfold members_can_create_posts in Hpol.
  apply andb_true_iff in Hpol as [_ Hmember].
  unfold NewPost.row in *. cbn [Posts.club_id Posts.user_id Posts.title Posts.content
                                    Posts.score posts] in *.
  repeat split; auto.
  - rewrite Ht. discriminate.
  - apply trim_idem.
  - destruct (trim (NewPost.newContent f)); congruence.
  - destruct (trim (NewPost.newContent f)) eqn:Hc; [discriminate|].
    injection H as <-. rewrite <- Hc. apply trim_idem.
Qed.

(** * The further properties at work on sample data *)

Lemma constraints_hold_witness :
  constraints_hold (commit_all sample_db sample_txns).
Proof.
  apply constraints_hold_after_vote_transactions.
  apply no_votes_constraints. reflexivity.
Defined.

Lemma scores_in_range_witness :
  scores_in_range (commit_all sample_db sample_txns).
Proof.
  apply scores_in_range_after_vote_transactions.
  constructor; [|constructor]. split; intros H; discriminate H.
Defined.

Lemma vote_statements_witness :
  run_txn (InsertVote (Some 7%N) (PostVotes.mk 1%N 7%N 1)) sample_db = Ok voted_db
  /\ map unscored (posts voted_db) = map unscored (posts sample_db)
  /\ post_votes voted_db = post_votes sample_db ++ [PostVotes.mk 1%N 7%N 1].
Proof.
  assert (Hrun : run_txn (InsertVote (Some 7%N) (PostVotes.mk 1%N 7%N 1)) sample_db
                 = Ok voted_db) by reflexivity.
  destruct (vote_statements_change_scores_only _ _ _ Hrun) as (_ & _ & H3 & H4).
  split; [exact Hrun|]. split; [exact H3|].
  exact (proj1 (H4 _ _ eq_refl)).
Defined.

(** User 8 asks to delete every vote: the vote of user 7 stays. *)
Lemma delete_spares_witness :
  delete_post_votes (Some 8%N) (fun _ => true) voted_db = Ok voted_db
  /\ In (PostVotes.mk 1%N 7%N 1) (post_votes voted_db).
Proof.
  assert (Hdel : delete_post_votes (Some 8%N) (fun _ => true) voted_db = Ok voted_db)
    by reflexivity.
  split; [exact Hdel|].
  apply (proj1 (delete_spares_votes_of_others _ _ _ _ Hdel)).
  - left. reflexivity.
  - discriminate.
Defined.

Lemma delete_without_vote_witness :
  delete_post_votes (Some 8%N) (eq_user_id_eq_post_id 8%N 1%N) voted_db = Ok voted_db.
Proof.
  apply delete_without_vote_changes_nothing.
  intros v [<-|[]]. reflexivity.
Defined.

Lemma vote_then_unvote_witness :
  insert_post_vote (Some 7%N) (PostVotes.mk 1%N 7%N 1) sample_db = Ok voted_db
  /\ delete_post_votes (Some 7%N) (eq_user_id_eq_post_id 7%N 1%N) voted_db
     = Ok sample_db.
Proof.
  assert (Hins : insert_post_vote (Some 7%N) (PostVotes.mk 1%N 7%N 1) sample_db
                 = Ok voted_db) by reflexivity.
  split; [exact Hins|].
  apply (vote_then_unvote_restores sample_db voted_db 7%N 1%N 1); [|exact Hins].
  constructor; [|constructor]. split; intros H; discriminate H.
Defined.

Lemma post_insert_witness :
  is_Ok (insert_post (Some 100%N) member_post sample_db) = true
  /\ is_Ok (insert_post (Some 100%N) (Posts.with_score member_post 99) sample_db) = true
  /\ score_invariant {| clubs := clubs sample_db;
                        club_memberships := club_memberships sample_db;
                        posts := posts sample_db ++ [member_post];
                        post_votes := post_votes sample_db |}.
Proof.
  assert (Hinv : score_invariant sample_db).
  { intros p [<-|[]]. reflexivity. }
  assert (Hc : constraints_hold sample_db) by (apply no_votes_constraints; reflexivity).
  destruct (post_insert_keeps_invariant_iff_score_0
              (Some 100%N) member_post sample_db _ Hc Hinv eq_refl eq_refl)
    as (Hany & _ & _ & Hiff).
  split; [reflexivity|]. split; [exact (Hany 99 eq_refl)|].
  apply Hiff. reflexivity.
Defined.

Lemma join_witness :
  insert_club_memberships (Some 7%N) [ClubMemberships.mk 7%N 10%N] sample_db
  = Ok joined_db
  /\ is_club_member joined_db 7%N 10%N = true
  /\ is_club_member joined_db 100%N 10%N = true.
Proof.
  assert (Hjoin : insert_club_memberships (Some 7%N) [ClubMemberships.mk 7%N 10%N]
                                          sample_db = Ok joined_db) by reflexivity.
  destruct (join_enrols_the_caller_only _ _ _ _ Hjoin) as (_ & Hrows & Hold & _).
  split; [exact Hjoin|]. split.
  - exact (proj1 (proj2 (Hrows (ClubMemberships.mk 7%N 10%N) (or_introl eq_refl)))).
  - apply Hold. reflexivity.
Defined.

Lemma join_then_post_witness :
  is_Ok (insert_post (Some 7%N) (Posts.mk 4%N 10%N 7%N "Hello" None 0 0) sample_db)
  = false
  /\ is_Ok (insert_post (Some 7%N) (Posts.mk 4%N 10%N 7%N "Hello" None 0 0) joined_db)
     = true.
Proof.
  split; [reflexivity|].
  assert (Hjoin : insert_club_memberships (Some 7%N) [ClubMemberships.mk 7%N 10%N]
                                          sample_db = Ok joined_db) by reflexivity.
  assert (Hfresh : post_exists joined_db 4%N = false) by reflexivity.
  pose proof (join_then_post_goes_through
                7%N 10%N (Posts.mk 4%N 10%N 7%N "Hello" None 0 0) sample_db joined_db
                Hjoin eq_refl eq_refl Hfresh) as H.
  exact (eq_trans (f_equal is_Ok H) eq_refl).
Defined.

Lemma repeated_join_witness :
  insert_club_memberships (Some 100%N) [ClubMemberships.mk 100%N 10%N] sample_db
  = Err (unique_violation "club_memberships_user_id_club_id_key").
Proof.
  apply repeated_join_is_refused.
  - intros r [<-|[]]. reflexivity.
  - exists (ClubMemberships.mk 100%N 10%N). split; [now left|reflexivity].
Defined.

Lemma leave_witness :
  is_club_member joined_db 7%N 10%N = true
  /\ exists d', delete_club_memberships (Some 7%N) (fun _ => true) joined_db = Ok d'
                /\ is_club_member d' 7%N 10%N = false
                /\ is_club_member d' 100%N 10%N = true.
Proof.
  split; [reflexivity|]. eexists. split; [reflexivity|].
  split; [|reflexivity].
  exact (proj1 (proj1 (leave_ends_own_membership_only
                         7%N (fun _ => true) joined_db _ eq_refl) 10%N eq_refl)).
Defined.

Lemma profile_witness :
  insert_profile (Some 7%N) ada [] = Ok [ada]
  /\ is_Ok (insert_profile (Some 8%N) (Profiles.mk 8%N "ada_1" None None) [ada]) = false
  /\ is_Ok (insert_profile (Some 7%N) (Profiles.mk 7%N "lovelace" None None) [ada])
     = false.
Proof.
  assert (Hu : profiles_unique []) by (split; constructor).
  destruct (profile_is_created_at_most_once (Some 7%N) ada [] [ada] Hu eq_refl)
    as (_ & _ & _ & Hno).
  split; [reflexivity|]. split.
  - apply Hno. right. reflexivity.
  - apply Hno. left. reflexivity.
Defined.

Lemma search_hides_witness :
  MainApp.filteredPosts [post_A; post_B; post_C] "RUST" "top-all" 0
  = filter (MainApp.matches (toLowerCase "RUST"))
           (MainApp.filteredPosts [post_A; post_B; post_C] EmptyString "top-all" 0).
Proof.
  apply search_hides_posts_of_ranked_feed. discriminate.
Defined.

(** On 2025-01-15: the feed of 3 months is the part of the feed of one year
    that is younger than 90 days. *)
Lemma shorter_window_witness :
  MainApp.filteredPosts [post_A; post_B; post_C] EmptyString "top-3m" (date_ms 2025 1 15)
  = filter (MainApp.in_window (Finite (90 * MainApp.day_ms)) (date_ms 2025 1 15))
           (MainApp.filteredPosts [post_A; post_B; post_C] EmptyString "top-1y"
                                  (date_ms 2025 1 15)).
Proof.
  apply (shorter_window_feed_is_part_of_longer
           _ _ "top-3m" "top-1y" _ (Finite (365 * MainApp.day_ms)));
    [reflexivity | reflexivity |].
  intros H. discriminate H.
Defined.

Lemma feed_prefix_witness :
  In post_B (firstn 1 (MainApp.filteredPosts [post_A; post_B; post_C]
                                             EmptyString "top-all" 0))
  /\ In post_C (skipn 1 (MainApp.filteredPosts [post_A; post_B; post_C]
                                               EmptyString "top-all" 0))
  /\ Posts.score post_B >= Posts.score post_C.
Proof.
  assert (Ha : In post_B (firstn 1 (MainApp.filteredPosts [post_A; post_B; post_C]
                                                          EmptyString "top-all" 0))).
  { left. reflexivity. }
  assert (Hb : In post_C (skipn 1 (MainApp.filteredPosts [post_A; post_B; post_C]
                                                         EmptyString "top-all" 0))).
  { right. left. reflexivity. }
  split; [exact Ha|]. split; [exact Hb|].
  apply (proj1 (feed_prefix_holds_the_best _ _ _ _ _ _ _ Ha Hb)). discriminate.
Defined.

(** User 7 votes [post_B] up and, when that is done, takes the vote back. *)
Lemma handleVote_first_vote_witness :
  map Posts.score
      (MainApp.posts
         (MainApp.shown
            (MainApp.run 7%N [MainApp.Click 2%N 1; MainApp.Returned 0]
                         (MainApp.mkPage sample_state [] []))))
  = [3; 6]
  /\ MainApp.run 7%N [MainApp.Click 2%N 1; MainApp.Returned 0;
                      MainApp.Click 2%N 1; MainApp.Returned 0]
                 (MainApp.mkPage sample_state [] [])
     = MainApp.mkPage sample_state []
         [MainApp.insert 7%N 2%N 1; MainApp.delete_eq_user_id_eq_post_id 7%N 2%N].
Proof.
  split; [reflexivity|].
  exact (proj2 (proj2 (proj2 (proj2 (proj2 (handleVote_first_vote_then_undo
                                              7%N 2%N 1 sample_state [] eq_refl)))))).
Defined.

(** User 7 clicks the up arrow of [post_B] twice in a row: two votes for the
    post and the score 7 for 5. *)
Lemma handleVote_one_vote_witness :
  NoDup (map MainApp.post_id (MainApp.votes sample_state))
  /\ MainApp.votes
       (MainApp.shown
          (MainApp.run 7%N [MainApp.Click 2%N 1; MainApp.Click 2%N 1;
                            MainApp.Returned 0; MainApp.Returned 0]
                       (MainApp.mkPage sample_state [] [])))
     = [MainApp.mkVote 1%N 1; MainApp.mkVote 2%N 1; MainApp.mkVote 2%N 1]
  /\ map Posts.score
         (MainApp.posts
            (MainApp.shown
               (MainApp.run 7%N [MainApp.Click 2%N 1; MainApp.Click 2%N 1;
                                 MainApp.Returned 0; MainApp.Returned 0]
                            (MainApp.mkPage sample_state [] []))))
     = [3; 7]
  /\ NoDup (map MainApp.post_id
                (MainApp.votes
                   (MainApp.shown
                      (MainApp.run 7%N
                         (flat_map (fun c => [MainApp.Click (fst c) (snd c);
                                              MainApp.Returned 0; MainApp.Returned 0])
                                   [(2%N, 1); (2%N, -1); (1%N, 1)])
                         (MainApp.mkPage sample_state [] []))))).
Proof.
  assert (Hnd : NoDup (map MainApp.post_id (MainApp.votes sample_state))).
  { constructor; [intros []|constructor]. }
  destruct (handleVote_keeps_one_vote_per_post 7%N sample_state [] Hnd)
    as [Hrest Hrace].
  split; [exact Hnd|].
  split; [exact (proj1 (proj2 (proj2 (Hrace 2%N 1 eq_refl))))|].
  split; [reflexivity|].
  exact (proj2 (Hrest [(2%N, 1); (2%N, -1); (1%N, 1)])).
Defined.

Lemma voted_db_constraints : constraints_hold voted_db.
Proof.
  split; simpl.
  - constructor; [intros []|constructor].
  - repeat constructor.
  - repeat constructor.
Qed.

Lemma voted_state_mirrors : mirrors voted_db 7%N voted_state.
Proof.
  split.
  - intros p. unfold client_vote, db_vote, voted, eq_user_id_eq_post_id.
    cbn [voted_state voted_db MainApp.votes post_votes find MainApp.post_id
         PostVotes.user_id PostVotes.post_id].
    rewrite uuid_eqb_refl. cbn [andb]. destruct (uuid_eqb 1%N p); reflexivity.
  - intros q [<-|[]]. left. reflexivity.
Qed.

(** User 7 turns the up-vote into a down-vote. *)
Lemma handleVote_mirroring_witness :
  mirrors (commit_all voted_db
             (map (MainApp.statement 7%N)
                  (snd (MainApp.click 7%N 1%N (-1) voted_state))))
          7%N (fst (MainApp.click 7%N 1%N (-1) voted_state)).
Proof.
  apply handleVote_keeps_mirroring.
  - exact voted_db_constraints.
  - exact voted_state_mirrors.
  - right. reflexivity.
  - reflexivity.
  - intros q [<-|[]] _. split; intros H; discriminate H.
Defined.


(** The name [ada_1] opens the way once its lookup has found it free.  When
    the input goes on to [ada 1] before that lookup has returned, the way is
    open with [ada 1], which has a space in it. *)
Lemma username_witness :
  Onboarding.canProceed
    (Onboarding.shown
       (fst (run_events [Onboarding.ChangeUsername "ada_1";
                         Onboarding.LookupReturned 0 false]
                        (Onboarding.mkPage first_page [])))) = true
  /\ Onboarding.canProceed
       (Onboarding.shown
          (fst (run_events [Onboarding.ChangeUsername "ada 1";
                            Onboarding.LookupReturned 0 false]
                           (Onboarding.mkPage first_page [])))) = false
  /\ Onboarding.username_pattern "ada 1" = false
  /\ Onboarding.canProceed
       (Onboarding.shown
          (fst (run_events [Onboarding.ChangeUsername "ada_1";
                            Onboarding.ChangeUsername "ada 1";
                            Onboarding.LookupReturned 0 false]
                           (Onboarding.mkPage first_page [])))) = true.
Proof.
  destruct (username_opens_the_way_iff_valid_and_free "ada_1" first_page eq_refl)
    as [Hrest Hrace].
  split.
  { apply (proj1 (Hrest false)).
    split; [repeat constructor|]. split; [discriminate|]. split; reflexivity. }
  split; [reflexivity|]. split; [reflexivity|].
  apply (Hrace "ada 1"%string); try reflexivity; repeat constructor.
Defined.

(** User 7, new to the site, finishes with the hobby [tech]. *)
Lemma handleFinish_witness :
  Onboarding.handleFinish 7%N None (Onboarding.shown (fst (run_events sample_events (Onboarding.mkPage first_page []))))
                          [] sample_db
  = ([ada], joined_db, Onboarding.Welcome)
  /\ is_club_member joined_db 7%N 10%N = true.
Proof.
  assert (E : Onboarding.handleFinish 7%N None
                (Onboarding.shown (fst (run_events sample_events (Onboarding.mkPage first_page [])))) [] sample_db
              = ([ada], joined_db, Onboarding.Welcome)) by reflexivity.
  split; [exact E|].
  assert (Hpk : NoDup (map Clubs.id (clubs sample_db))).
  { constructor; [intros []|constructor]. }
  assert (Hnew : forall c, is_club_member sample_db 7%N c = false).
  { intros c. reflexivity. }
  pose proof (handleFinish_joins_the_chosen_clubs
                7%N None (Onboarding.shown (fst (run_events sample_events (Onboarding.mkPage first_page [])))) [] sample_db
                Hpk Hnew) as H.
  rewrite E in H. destruct H as [_ H]. destruct (H eq_refl) as (_ & Hm & _).
  apply (Hm (Clubs.mk 10%N "Tech" "tech" None (Some "Cpu"%string))).
  - left. reflexivity.
  - left. reflexivity.
Defined.

Lemma top_score_state_mirrors : mirrors top_score_db 7%N top_score_state.
Proof.
  split.
  - intros p. reflexivity.
  - intros q [<-|[]]. left. reflexivity.
Qed.

(** At the top of the [INTEGER] range the up-vote is refused, and the
    component shows it all the same. *)
Lemma handleVote_refused_witness :
  insert_post_vote (Some 7%N) (PostVotes.mk 1%N 7%N 1) top_score_db
  = Err numeric_value_out_of_range
  /\ ~ mirrors (commit_all top_score_db
                  (map (MainApp.statement 7%N)
                       (snd (MainApp.click 7%N 1%N 1 top_score_state))))
               7%N (fst (MainApp.click 7%N 1%N 1 top_score_state)).
Proof.
  split; [reflexivity|].
  exact (proj2 (proj2 (proj2 (handleVote_keeps_guess_when_refused
                                top_score_db 7%N 1%N 1 top_score_state _
                                top_score_state_mirrors eq_refl eq_refl)))).
Defined.

Lemma handleCreatePost_witness :
  NewPost.handleCreatePost 4%N (date_ms 2025 1 2) 100%N (Some 10%N)
                           (NewPost.mkForm "  Hello " "" true) sample_db
  = (NewPost.mkForm "" "" false,
     {| clubs := clubs sample_db;
        club_memberships := club_memberships sample_db;
        posts := posts sample_db ++ [member_post];
        post_votes := post_votes sample_db |},
     NewPost.Created)
  /\ Posts.title member_post = "Hello"%string
  /\ trim (Posts.title member_post) = Posts.title member_post.
Proof.
  assert (E : NewPost.handleCreatePost 4%N (date_ms 2025 1 2) 100%N (Some 10%N)
                (NewPost.mkForm "  Hello " "" true) sample_db
              = (NewPost.mkForm "" "" false,
                 {| clubs := clubs sample_db;
                    club_memberships := club_memberships sample_db;
                    posts := posts sample_db ++ [member_post];
                    post_votes := post_votes sample_db |},
                 NewPost.Created)) by reflexivity.
  split; [exact E|]. split; [reflexivity|].
  pose proof (handleCreatePost_stores_trimmed_posts
                4%N (date_ms 2025 1 2) 100%N (Some 10%N)
                (NewPost.mkForm "  Hello " "" true) sample_db) as H.
  rewrite E in H. destruct H as (_ & _ & H).
  destruct (H eq_refl) as (club & p & _ & Hp & _ & _ & _ & _ & Ht & _).
  cbn [posts] in Hp. apply app_inv_head in Hp. injection Hp as <-. exact Ht.
Defined.
